(** * Monocle backend: the integration sync engine

    A shallow embedding of [src/services/integration.service.ts]
    (class [IntegrationService]), with the properties of its
    synchronisation and deduplication pipeline.

    - [Js]: the JavaScript value conventions the code relies on;
    - [JSON]: the decoder behind [JSON.parse];
    - [Extract]: the regular expression match of the classifier;
    - [Model]: documents, remote payloads, the world and the monad of
      computations;
    - [Store]: the persistence layer;
    - [IntegrationService]: the classifier and the four sync entry
      points;
    - [Spec]: the vocabulary of the properties;
    - [Run]: the proofs.

    Modelling choices.  Remote services, the text-generation model and
    the validation of the store are a parameter ([Services]): what they
    answer, and whether they fail, is arbitrary.  Every remote record
    carries its provider-native id.  Lookups and updates of the store do
    not fail; an insert fails when the store refuses the input.  Time is
    a clock that every observed operation advances. *)

From Stdlib Require Import String Ascii List Bool Arith ZArith Lia.
From Stdlib Require Import DecimalString.
Import ListNotations.

Local Open Scope string_scope.
Local Open Scope list_scope.

(* ===================================================================== *)
(** ** JavaScript conventions *)
(* ===================================================================== *)

Module Js.

(** An optional string stands for a value that is a string, [null] or
    [undefined]; only the empty string and the absent value are falsy. *)
Definition truthy (v : option string) : bool :=
  match v with
  | Some s => negb (String.eqb s EmptyString)
  | None => false
  end.

(** [a || b] on optional strings. *)
Definition or (a b : option string) : option string :=
  if truthy a then a else b.

(** [a || 'literal']. *)
Definition or_lit (a : option string) (d : string) : string :=
  match a with
  | Some s => if String.eqb s EmptyString then d else s
  | None => d
  end.

(** A value interpolated in a template literal. *)
Definition template (v : option string) : string :=
  match v with
  | Some s => s
  | None => "undefined"
  end.

(** Text written with an apostrophe wherever the source has a double
    quote. *)
Fixpoint dq (s : string) : string :=
  match s with
  | EmptyString => EmptyString
  | String c r => String (if Ascii.eqb c "'" then ascii_of_nat 34 else c) (dq r)
  end.

(** A string of UTF-16 code units, as [JSON.parse] builds them. *)
Definition ustring := list N.

Fixpoint codes (s : string) : ustring :=
  match s with
  | EmptyString => []
  | String c r => N_of_ascii c :: codes r
  end.

Fixpoint ustring_eqb (a b : ustring) : bool :=
  match a, b with
  | [], [] => true
  | x :: a', y :: b' => N.eqb x y && ustring_eqb a' b'
  | _, _ => false
  end.

End Js.

(* ===================================================================== *)
(** ** JSON.parse *)
(* ===================================================================== *)

Module JSON.

Import Js.

(** A number keeps the digits of its literal: sign, integer digits,
    fraction digits and decimal exponent. *)
Record number := {
  negative : bool;
  int_digits : list nat;
  frac_digits : list nat;
  exponent : Z
}.

#[local] Set Warnings "-register-all".

Inductive json :=
| JNull
| JBool (b : bool)
| JNumber (n : number)
| JString (s : ustring)
| JArray (l : list json)
| JObject (members : list (ustring * json)).

(** *** Lexical helpers *)

Definition is_ws (c : ascii) : bool :=
  match N_of_ascii c with
  | 32%N | 9%N | 10%N | 13%N => true
  | _ => false
  end.

Fixpoint skip_ws (s : string) : string :=
  match s with
  | String c r => if is_ws c then skip_ws r else s
  | EmptyString => EmptyString
  end.

Definition digit_of (c : ascii) : option nat :=
  let n := N.to_nat (N_of_ascii c) in
  if ((48 <=? n) && (n <=? 57))%nat then Some (n - 48) else None.

Definition hex_of (c : ascii) : option N :=
  let n := N_of_ascii c in
  if (48 <=? n)%N && (n <=? 57)%N then Some (n - 48)%N
  else if (65 <=? n)%N && (n <=? 70)%N then Some (n - 55)%N
  else if (97 <=? n)%N && (n <=? 102)%N then Some (n - 87)%N
  else None.

Fixpoint take_digits (s : string) : list nat * string :=
  match s with
  | String c r =>
      match digit_of c with
      | Some d => let (ds, rest) := take_digits r in (d :: ds, rest)
      | None => ([], s)
      end
  | EmptyString => ([], EmptyString)
  end.

Definition digits_value (ds : list nat) : Z :=
  fold_left (fun acc d => (10 * acc + Z.of_nat d)%Z) ds 0%Z.

Definition dquote : ascii := ascii_of_nat 34.
Definition backslash : ascii := ascii_of_nat 92.

(** The single-character escapes of a JSON string. *)
Definition simple_escape (c : ascii) : option N :=
  match N_of_ascii c with
  | 34%N => Some 34%N      (* quotation mark *)
  | 92%N => Some 92%N      (* reverse solidus *)
  | 47%N => Some 47%N      (* solidus *)
  | 98%N => Some 8%N       (* b: backspace *)
  | 102%N => Some 12%N     (* f: form feed *)
  | 110%N => Some 10%N     (* n: line feed *)
  | 114%N => Some 13%N     (* r: carriage return *)
  | 116%N => Some 9%N      (* t: tab *)
  | _ => None
  end.

(** The characters of a string literal after its opening quote, up to
    and including the closing quote.  A text is a string of bytes: a
    character outside ASCII that stands in the literal as it is gives
    one unit for each of its bytes. *)
Fixpoint parse_chars (s : string) : option (ustring * string) :=
  match s with
  | EmptyString => None
  | String c r =>
      if Ascii.eqb c dquote then Some ([], r)
      else if Ascii.eqb c backslash then
        match r with
        | String e r1 =>
            match simple_escape e with
            | Some u =>
                match parse_chars r1 with
                | Some (cs, rest) => Some (u :: cs, rest)
                | None => None
                end
            | None =>
                if Ascii.eqb e "u" then
                  match r1 with
                  | String h1 (String h2 (String h3 (String h4 r2))) =>
                      match hex_of h1, hex_of h2, hex_of h3, hex_of h4 with
                      | Some a, Some b, Some c', Some d =>
                          match parse_chars r2 with
                          | Some (cs, rest) =>
                              Some ((((a * 16 + b) * 16 + c') * 16 + d)%N :: cs,
                                    rest)
                          | None => None
                          end
                      | _, _, _, _ => None
                      end
                  | _ => None
                  end
                else None
            end
        | EmptyString => None
        end
      else if (N_of_ascii c <? 32)%N then None
      else
        match parse_chars r with
        | Some (cs, rest) => Some (N_of_ascii c :: cs, rest)
        | None => None
        end
  end.

(** A number literal: an optional minus sign, an integer part without
    a superfluous leading zero, an optional fraction and an optional
    exponent. *)
Definition parse_exponent (s : string) : option (Z * string) :=
  match s with
  | String c r =>
      if Ascii.eqb c "e" || Ascii.eqb c "E" then
        let '(sign, r1) :=
          match r with
          | String "+" r' => (1%Z, r')
          | String "-" r' => ((-1)%Z, r')
          | _ => (1%Z, r)
          end in
        match take_digits r1 with
        | ([], _) => None
        | (ds, rest) => Some ((sign * digits_value ds)%Z, rest)
        end
      else Some (0%Z, s)
  | EmptyString => Some (0%Z, s)
  end.

Definition parse_fraction (s : string) : option (list nat * string) :=
  match s with
  | String "." r =>
      match take_digits r with
      | ([], _) => None
      | (ds, rest) => Some (ds, rest)
      end
  | _ => Some ([], s)
  end.

Definition parse_number (s : string) : option (number * string) :=
  let '(neg, s1) :=
    match s with
    | String "-" r => (true, r)
    | _ => (false, s)
    end in
  match take_digits s1 with
  | ([], _) => None
  | (d :: ds, s2) =>
      match d, ds with
      | 0, _ :: _ => None
      | _, _ =>
          match parse_fraction s2 with
          | Some (fs, s3) =>
              match parse_exponent s3 with
              | Some (e, s4) =>
                  Some ({| negative := neg; int_digits := d :: ds;
                           frac_digits := fs; exponent := e |}, s4)
              | None => None
              end
          | None => None
          end
      end
  end.

Fixpoint strip_prefix (p s : string) : option string :=
  match p, s with
  | EmptyString, _ => Some s
  | String a p', String b s' =>
      if Ascii.eqb a b then strip_prefix p' s' else None
  | String _ _, EmptyString => None
  end.

(** *** Values

    The three parsers recurse on a fuel that every call decrements; a
    value needs at most [2 * length s + 1] of it and a sequence of
    elements or members at most [2 * length s + 2]. *)
Fixpoint parse_value (fuel : nat) (s : string) {struct fuel}
  : option (json * string) :=
  match fuel with
  | O => None
  | S f =>
      match skip_ws s with
      | EmptyString => None
      | String c r =>
          if Ascii.eqb c "{" then
            match skip_ws r with
            | String "}" r' => Some (JObject [], r')
            | _ =>
                match parse_members f r with
                | Some (ms, rest) => Some (JObject ms, rest)
                | None => None
                end
            end
          else if Ascii.eqb c "[" then
            match skip_ws r with
            | String "]" r' => Some (JArray [], r')
            | _ =>
                match parse_elements f r with
                | Some (vs, rest) => Some (JArray vs, rest)
                | None => None
                end
            end
          else if Ascii.eqb c dquote then
            match parse_chars r with
            | Some (cs, rest) => Some (JString cs, rest)
            | None => None
            end
          else if Ascii.eqb c "t" then
            match strip_prefix "rue" r with
            | Some rest => Some (JBool true, rest)
            | None => None
            end
          else if Ascii.eqb c "f" then
            match strip_prefix "alse" r with
            | Some rest => Some (JBool false, rest)
            | None => None
            end
          else if Ascii.eqb c "n" then
            match strip_prefix "ull" r with
            | Some rest => Some (JNull, rest)
            | None => None
            end
          else
            match parse_number (String c r) with
            | Some (n, rest) => Some (JNumber n, rest)
            | None => None
            end
      end
  end

with parse_elements (fuel : nat) (s : string) {struct fuel}
  : option (list json * string) :=
  match fuel with
  | O => None
  | S f =>
      match parse_value f s with
      | Some (v, r) =>
          match skip_ws r with
          | String "," r' =>
              match parse_elements f r' with
              | Some (vs, rest) => Some (v :: vs, rest)
              | None => None
              end
          | String "]" r' => Some ([v], r')
          | _ => None
          end
      | None => None
      end
  end

with parse_members (fuel : nat) (s : string) {struct fuel}
  : option (list (ustring * json) * string) :=
  match fuel with
  | O => None
  | S f =>
      match skip_ws s with
      | String c r =>
          if negb (Ascii.eqb c dquote) then None else
          match parse_chars r with
          | Some (k, r1) =>
              match skip_ws r1 with
              | String ":" r2 =>
                  match parse_value f r2 with
                  | Some (v, r3) =>
                      match skip_ws r3 with
                      | String "," r4 =>
                          match parse_members f r4 with
                          | Some (ms, rest) => Some ((k, v) :: ms, rest)
                          | None => None
                          end
                      | String "}" r4 => Some ([(k, v)], r4)
                      | _ => None
                      end
                  | None => None
                  end
              | _ => None
              end
          | None => None
          end
      | EmptyString => None
      end
  end.

(** [JSON.parse]: one value, optional white space, end of input;
    [None] stands for the [SyntaxError] it throws. *)
Definition parse (s : string) : option json :=
  match parse_value (2 * String.length s + 2) s with
  | Some (v, rest) =>
      match skip_ws rest with
      | EmptyString => Some v
      | String _ _ => None
      end
  | None => None
  end.

(** *** Reading a decoded value *)

(** Property access [v.key]: the last member of that name wins, and a
    value that is not an object has no such property. *)
Fixpoint lookup (key : ustring) (ms : list (ustring * json)) : option json :=
  match ms with
  | [] => None
  | (k, v) :: rest =>
      match lookup key rest with
      | Some v' => Some v'
      | None => if ustring_eqb k key then Some v else None
      end
  end.

Definition get (v : json) (key : string) : option json :=
  match v with
  | JObject ms => lookup (codes key) ms
  | _ => None
  end.

(** A literal denotes zero as a double exactly when its magnitude is at
    most [2^-1075], half of the least subnormal. *)
Definition denotes_zero (n : number) : bool :=
  let m := digits_value (int_digits n ++ frac_digits n) in
  let e := (exponent n - Z.of_nat (length (frac_digits n)))%Z in
  if (0 <=? e)%Z then (m =? 0)%Z
  else (m * 2 ^ 1075 <=? 10 ^ (- e))%Z.

(** Truthiness of a property read off a decoded value. *)
Definition truthy (v : option json) : bool :=
  match v with
  | None => false
  | Some JNull => false
  | Some (JBool b) => b
  | Some (JNumber n) => negb (denotes_zero n)
  | Some (JString s) => match s with [] => false | _ => true end
  | Some (JArray _) => true
  | Some (JObject _) => true
  end.

(** [v === 'literal']. *)
Definition is_string (v : option json) (lit : string) : bool :=
  match v with
  | Some (JString s) => ustring_eqb s (codes lit)
  | _ => false
  end.

End JSON.

(* ===================================================================== *)
(** ** The response parser of the classifier *)
(* ===================================================================== *)

Module Extract.

(** The regular expression of [classifyAndPrioritizeEmail] is an
    opening brace, any characters at all (greedy), a closing brace.
    The leftmost match starts at the first opening brace that has a
    closing brace somewhere after it, and runs to the last closing
    brace of the text. *)

(** The longest prefix of [s] that ends with a closing brace. *)
Fixpoint through_last_close (s : string) : option string :=
  match s with
  | EmptyString => None
  | String c r =>
      match through_last_close r with
      | Some p => Some (String c p)
      | None => if Ascii.eqb c "}" then Some (String c EmptyString) else None
      end
  end.

(** [text.match(...)]: the matched substring ([jsonMatch[0]]), or
    [None] for the [null] of a failed match. *)
Fixpoint jsonMatch (text : string) : option string :=
  match text with
  | EmptyString => None
  | String c r =>
      if Ascii.eqb c "{" then
        match through_last_close r with
        | Some p => Some (String c p)
        | None => None
        end
      else jsonMatch r
  end.

(** The extraction the specification describes: the first balanced
    brace-delimited substring.  [balanced_from depth s] reads [s], which
    follows [depth] unclosed opening braces, up to the brace that
    closes the outermost one. *)
Fixpoint balanced_from (depth : nat) (s : string) : option string :=
  match s with
  | EmptyString => None
  | String c r =>
      if Ascii.eqb c "{" then
        option_map (String c) (balanced_from (S depth) r)
      else if Ascii.eqb c "}" then
        match depth with
        | O => Some (String c EmptyString)
        | S d => option_map (String c) (balanced_from d r)
        end
      else option_map (String c) (balanced_from depth r)
  end.

Fixpoint first_balanced (text : string) : option string :=
  match text with
  | EmptyString => None
  | String c r =>
      if Ascii.eqb c "{" then
        match balanced_from 0 r with
        | Some p => Some (String c p)
        | None => first_balanced r
        end
      else first_balanced r
  end.

(** No occurrence of a character in a string. *)
Fixpoint lacks (c : ascii) (s : string) : bool :=
  match s with
  | EmptyString => true
  | String d r => negb (Ascii.eqb d c) && lacks c r
  end.

End Extract.

(* ===================================================================== *)
(** ** Documents, remote payloads and the store *)
(* ===================================================================== *)

Module Model.

Import Js JSON.

(** *** Local documents *)

Inductive Priority := high | medium | low.

Inductive ItemType := email | calendar | task | message.

(** A date is kept as the expression that built it: the store never
    computes with it. *)
Inductive JsDate :=
| DateParseInt (s : option string)   (* new Date(parseInt(s)) *)
| DateOfString (s : string)          (* new Date(s) *)
| DateAt (t : nat).                  (* new Date(), read at time t *)

(** A JavaScript value that comes out of the classifier's answer;
    [None] is [undefined]. *)
Definition JsValue := option json.

Inductive MetaValue :=
| MUndefined
| MString (s : string)
| MJson (v : json).

Definition meta_of (v : option string) : MetaValue :=
  match v with
  | Some s => MString s
  | None => MUndefined
  end.

Definition meta_of_js (v : JsValue) : MetaValue :=
  match v with
  | Some j => MJson j
  | None => MUndefined
  end.

(** The provider-specific key-value bag. *)
Definition Metadata := list (string * MetaValue).

Fixpoint meta_get (key : string) (m : Metadata) : MetaValue :=
  match m with
  | [] => MUndefined
  | (k, v) :: rest => if String.eqb k key then v else meta_get key rest
  end.

(** The argument of [WorkItemService.createItem]. *)
Record WorkItemInput := {
  userId : string;
  type : ItemType;
  title : string;
  source : string;
  timestamp : JsDate;
  preview : string;
  isRead : bool;
  priority : JsValue;
  threadId : nat;
  metadata : Metadata
}.

Record WorkItem := {
  item_id : nat;
  item : WorkItemInput
}.

Record WorkThread := {
  thread_id : nat;
  thread_userId : string;
  thread_title : string;
  description : string;
  thread_priority : Priority;
  progress : nat;
  lastActivity : nat;
  itemIds : list nat;
  relatedPeople : list string;
  tags : list string
}.

Record Integration := {
  accessToken : option string;
  refreshToken : option string;
  lastSync : option nat;
  connected : bool
}.

Record Integrations := {
  google : option Integration;
  microsoft : option Integration
}.

Record User := {
  user_id : string;
  integrations : option Integrations
}.

(** *** Remote payloads: the fields the sync code reads *)

Record OAuth2Client := {
  access_token : string;
  refresh_token : option string
}.

Record MessageRef := { msg_id : string }.

Record Header := { header_name : string; header_value : option string }.

Record MessageDetails := {
  headers : option (list Header);
  internalDate : option string;
  snippet : option string;
  gmail_threadId : option string
}.

Record EventStart := { dateTime : option string; date : option string }.

Record CalendarEvent := {
  event_id : string;
  summary : option string;
  start : option EventStart;
  event_description : option string;
  event_status : option string;
  location : option string
}.

Record TaskList := { list_id : string; list_title : option string }.

Record Task := {
  task_id : string;
  task_title : option string;
  due : option string;
  notes : option string;
  task_status : option string
}.

Record MessageBody := { content : option string }.

Record MessagePreview := {
  preview_id : string;
  body : option MessageBody;
  from_user_displayName : option string;
  createdDateTime : option string
}.

Record Chat := {
  chat_id : option string;
  topic : option string;
  chatType : option string;
  webUrl : option string;
  lastMessagePreview : option MessagePreview
}.

(** *** Requests, events and answers *)

Inductive Request :=
| GmailMessagesList (auth : OAuth2Client)
| GmailMessagesGet (auth : OAuth2Client) (id : string)
| CalendarEventsList (auth : OAuth2Client) (timeMin : nat)
| TasklistsList (auth : OAuth2Client)
| TasksList (auth : OAuth2Client) (tasklist : string)
| GraphChats (token : string)
| GenerateContent (prompt : string).

(** What a sync run does to the outside: requests to remote services
    and operations on the store. *)
Inductive Event :=
| Remote (r : Request)
| UserFindById (u : string)
| ItemFindOne (u : string) (key : string) (value : string)
| ThreadFindOne (u : string) (t : string)
| ThreadSave (id : nat)
| ItemCreate (id : nat)
| ItemRejected (input : WorkItemInput)
| ThreadUpdate (id : nat) (itemId : nat)
| UserSave (u : string)
| UserUpdateOne (u : string).

Inductive Error :=
| RemoteFailure (r : Request)
| GraphApiError (status : nat) (errorText : string)
| StorageRejection (input : WorkItemInput)
| TypeError
| SyntaxError (text : string).

(** The answer of a call that may throw. *)
Inductive Response (A : Type) :=
| Fails
| Returns (a : A).
Arguments Fails {A}.
Arguments Returns {A} a.

(** The answer of the Graph [fetch]: a status, and what reading the
    body as text or as JSON gives ([data.value]). *)
Record GraphReply := {
  status : nat;
  text_body : Response string;
  json_value : Response (option (list Chat))
}.

Definition reply_ok (r : GraphReply) : bool :=
  (200 <=? status r)%nat && (status r <=? 299)%nat.

(** The world outside the sync code during one invocation: the remote
    services, the model, the validation of the store and the time each
    operation takes. *)
Record Services := {
  gmail_messages_list : OAuth2Client -> Response (option (list MessageRef));
  gmail_messages_get : OAuth2Client -> string -> Response MessageDetails;
  calendar_events_list : OAuth2Client -> Response (option (list CalendarEvent));
  tasklists_list : OAuth2Client -> Response (option (list TaskList));
  tasks_list : OAuth2Client -> string -> Response (option (list Task));
  graph_chats : string -> Response GraphReply;
  generateContent : string -> Response (option string);
  rejects : WorkItemInput -> bool;
  elapsed : Event -> nat
}.

(** *** The store *)

Record World := {
  users : list User;
  items : list WorkItem;
  threads : list WorkThread;
  nextId : nat;
  clock : nat;
  trace : list (nat * Event)
}.

Inductive Outcome (A : Type) :=
| Ok (a : A)
| Throw (e : Error).
Arguments Ok {A} a.
Arguments Throw {A} e.

(** A computation runs in a world and leaves a world behind, also when
    it throws. *)
Definition M (A : Type) := World -> Outcome A * World.

Definition ret {A} (a : A) : M A := fun w => (Ok a, w).

Definition throw {A} (e : Error) : M A := fun w => (Throw e, w).

Definition bind {A B} (m : M A) (k : A -> M B) : M B :=
  fun w =>
    match m w with
    | (Ok a, w') => k a w'
    | (Throw e, w') => (Throw e, w')
    end.

(** [try { m } catch (error) { h error }] *)
Definition try_catch {A} (m : M A) (h : Error -> M A) : M A :=
  fun w =>
    match m w with
    | (Ok a, w') => (Ok a, w')
    | (Throw e, w') => h e w'
    end.

(** [for (const c of cs) { count = body c count }] *)
Fixpoint for_of {C} (body : C -> nat -> M nat) (cs : list C) (count : nat)
  : M nat :=
  match cs with
  | [] => ret count
  | c :: rest => bind (body c count) (for_of body rest)
  end.

End Model.

Declare Scope sync_scope.
Delimit Scope sync_scope with sync.

Notation "x <- m ;; k" := (Model.bind m (fun x => k))
  (at level 61, m at next level, right associativity) : sync_scope.
Notation "m ;;; k" := (Model.bind m (fun _ => k))
  (at level 61, right associativity) : sync_scope.

(* ===================================================================== *)
(** ** The persistence layer *)
(* ===================================================================== *)

Module Store.

Import Js JSON Model.
Local Open Scope sync_scope.

Section WithServices.

Variable S : Services.

(** An operation is observed, and takes time. *)
Definition tick (ev : Event) (w : World) : World :=
  {| users := users w; items := items w; threads := threads w;
     nextId := nextId w;
     clock := clock w + elapsed S ev;
     trace := trace w ++ [(clock w, ev)] |}.

Definition emit (ev : Event) : M unit := fun w => (Ok tt, tick ev w).

(** [new Date()] *)
Definition now : M nat := fun w => (Ok (clock w), w).

(** A call to a remote service. *)
Definition call {A} (r : Request) (answer : Response A) : M A :=
  emit (Remote r) ;;;
  match answer with
  | Returns a => ret a
  | Fails => throw (RemoteFailure r)
  end.

Definition put_users (us : list User) (w : World) : World :=
  {| users := us; items := items w; threads := threads w;
     nextId := nextId w; clock := clock w; trace := trace w |}.

Definition put_threads (ts : list WorkThread) (w : World) : World :=
  {| users := users w; items := items w; threads := ts;
     nextId := nextId w; clock := clock w; trace := trace w |}.

Definition add_item (it : WorkItem) (w : World) : World :=
  {| users := users w; items := items w ++ [it]; threads := threads w;
     nextId := Datatypes.S (nextId w); clock := clock w; trace := trace w |}.

Definition add_thread (t : WorkThread) (w : World) : World :=
  {| users := users w; items := items w; threads := threads w ++ [t];
     nextId := Datatypes.S (nextId w); clock := clock w; trace := trace w |}.

(** Replace the first element that satisfies [p]. *)
Fixpoint update_first {A} (p : A -> bool) (f : A -> A) (l : list A) : list A :=
  match l with
  | [] => []
  | x :: rest => if p x then f x :: rest else x :: update_first p f rest
  end.

(** Modelled from the spec: [UserModel.findById], a point lookup by id
    (the model classes are not part of the sources). *)
Definition findById (u : string) : M (option User) :=
  emit (UserFindById u) ;;;
  fun w => (Ok (find (fun x => String.eqb (user_id x) u) (users w)), w).

Definition has_remote_id (u key value : string) (it : WorkItem) : bool :=
  String.eqb (userId (item it)) u &&
  match meta_get key (metadata (item it)) with
  | MString s => String.eqb s value
  | _ => false
  end.

(** Modelled from the spec: [WorkItemModel.findOne] on the composite
    key user id and [metadata.<key>], the point lookup of the dedup
    gate. *)
Definition findOne_item (u key value : string) : M (option WorkItem) :=
  emit (ItemFindOne u key value) ;;;
  fun w => (Ok (find (has_remote_id u key value) (items w)), w).

Definition is_thread (u t : string) (th : WorkThread) : bool :=
  String.eqb (thread_userId th) u && String.eqb (thread_title th) t.

(** Modelled from the spec: [WorkThreadModel.findOne] by user id and
    title. *)
Definition findOne_thread (u t : string) : M (option WorkThread) :=
  emit (ThreadFindOne u t) ;;;
  fun w => (Ok (find (is_thread u t) (threads w)), w).

(** Modelled from the spec: [new WorkThreadModel(fields)] followed by
    [thread.save()], an insert under a fresh id. *)
Definition save_thread (mk : nat -> WorkThread) : M WorkThread :=
  fun w =>
    let t := mk (nextId w) in
    (Ok t, tick (ThreadSave (thread_id t)) (add_thread t w)).

(** What validation sees of an input: a date read off the clock is a
    valid date whatever the time. *)
Definition validation_view (i : WorkItemInput) : WorkItemInput :=
  match timestamp i with
  | DateAt _ =>
      {| userId := userId i; type := type i; title := title i;
         source := source i; timestamp := DateAt 0; preview := preview i;
         isRead := isRead i; priority := priority i;
         threadId := threadId i; metadata := metadata i |}
  | _ => i
  end.

(** Modelled from the spec: [WorkItemService.createItem], an insert
    under a fresh id, which the store may refuse (a field that does
    not pass validation). *)
Definition createItem (input : WorkItemInput) : M WorkItem :=
  fun w =>
    if rejects S (validation_view input) then
      (Throw (StorageRejection input), tick (ItemRejected input) w)
    else
      let it := {| item_id := nextId w; item := input |} in
      (Ok it, tick (ItemCreate (item_id it)) (add_item it w)).

(** [$addToSet] *)
Definition addToSet (x : nat) (l : list nat) : list nat :=
  if existsb (Nat.eqb x) l then l else l ++ [x].

Definition apply_update (itemId : nat) (t : nat) (p : option Priority)
    (th : WorkThread) : WorkThread :=
  {| thread_id := thread_id th; thread_userId := thread_userId th;
     thread_title := thread_title th; description := description th;
     thread_priority :=
       match p with Some q => q | None => thread_priority th end;
     progress := progress th;
     lastActivity := t;
     itemIds := addToSet itemId (itemIds th);
     relatedPeople := relatedPeople th; tags := tags th |}.

(** Modelled from the spec: [WorkThreadModel.findByIdAndUpdate] with
    a set-insert into [itemIds], a new [lastActivity] and, when the
    update has one, a new [priority]. *)
Definition findByIdAndUpdate (id itemId t : nat) (p : option Priority)
  : M unit :=
  fun w =>
    (Ok tt,
     tick (ThreadUpdate id itemId)
       (put_threads
          (update_first (fun th => Nat.eqb (thread_id th) id)
             (apply_update itemId t p) (threads w)) w)).

(** Modelled from the spec: [user.save()], which writes the loaded
    document back. *)
Definition save_user (u : User) : M unit :=
  fun w =>
    (Ok tt,
     tick (UserSave (user_id u))
       (put_users
          (update_first (fun x => String.eqb (user_id x) (user_id u))
             (fun _ => u) (users w)) w)).

Definition stamp (t : nat) (i : Integration) : Integration :=
  {| accessToken := accessToken i; refreshToken := refreshToken i;
     lastSync := Some t; connected := connected i |}.

Definition stamp_google (t : nat) (u : User) : User :=
  {| user_id := user_id u;
     integrations :=
       match integrations u with
       | Some ig =>
           Some {| google := option_map (stamp t) (google ig);
                   microsoft := microsoft ig |}
       | None => None
       end |}.

Definition stamp_microsoft (t : nat) (u : User) : User :=
  {| user_id := user_id u;
     integrations :=
       match integrations u with
       | Some ig =>
           Some {| google := google ig;
                   microsoft := option_map (stamp t) (microsoft ig) |}
       | None => None
       end |}.

(** Modelled from the spec: [UserModel.updateOne] with a [$set] of
    [integrations.microsoft.lastSync] on the document of that id. *)
Definition updateOne_lastSync (u : string) (t : nat) : M unit :=
  fun w =>
    (Ok tt,
     tick (UserUpdateOne u)
       (put_users
          (update_first (fun x => String.eqb (user_id x) u)
             (stamp_microsoft t) (users w)) w)).

End WithServices.

End Store.

(* ===================================================================== *)
(** ** IntegrationService *)
(* ===================================================================== *)

Module IntegrationService.

Import Js JSON Extract Model Store.
Local Open Scope sync_scope.

Section WithServices.

Variable S : Services.

Definition external_thread (u : string) (t id : nat) : WorkThread :=
  {| thread_id := id; thread_userId := u;
     thread_title := "External Imports";
     description :=
       "Automatically imported items from Google Workspace and other integrations.";
     thread_priority := medium;
     progress := 0;
     lastActivity := t;
     itemIds := [];
     relatedPeople := []; tags := [] |}.

Definition getOrCreateExternalThread (u : string) : M nat :=
  thread <- findOne_thread S u "External Imports" ;;
  match thread with
  | Some th => ret (thread_id th)
  | None =>
      t <- now ;;
      th <- save_thread S (external_thread u t) ;;
      ret (thread_id th)
  end.

Definition createOAuthClient (accessToken : string)
    (refreshToken : option string) : OAuth2Client :=
  {| access_token := accessToken; refresh_token := refreshToken |}.

(** *** The classifier *)

Definition prompt (subject from snippet : string) : string :=
  dq "Analyze this email and determine if it is 'Work-related' or 'Personal/Newsletter'.
If it is Work-related, assign a priority: 'high', 'medium', or 'low'.
Work-related means: projects, client communication, team updates, meeting invites, urgent requests, technical issues.
Non-work means: social media notifications, generic newsletters, advertisements, personal chat, receipts (unless business), spam.

Email Subject: " ++ subject ++ "
From: " ++ from ++ "
Snippet: " ++ snippet ++ dq "

Respond ONLY in JSON format:
{
  'isWork': boolean,
  'priority': 'high' | 'medium' | 'low',
  'reason': 'brief reason why'
}".

(** [{ isWork: true, priority: 'medium' }] *)
Definition fallback : json :=
  JObject [(codes "isWork", JBool true);
           (codes "priority", JString (codes "medium"))].

(** What the [try] block makes of the text of the response; a text
    that is not a string has no [match] method. *)
Definition decode (text : option string) : M json :=
  match text with
  | None => throw TypeError
  | Some text =>
      match jsonMatch text with
      | Some m =>
          match JSON.parse m with
          | Some v => ret v
          | None => throw (SyntaxError m)
          end
      | None => ret fallback
      end
  end.

Definition classifyAndPrioritizeEmail (subject from snippet : string)
  : M json :=
  try_catch
    (let p := prompt subject from snippet in
     text <- call S (GenerateContent p) (generateContent S p) ;;
     decode text)
    (fun _ => ret fallback).

(** *** Gmail *)

Definition header (name : string) (hs : option (list Header))
  : option string :=
  match hs with
  | Some l =>
      match find (fun h => String.eqb (header_name h) name) l with
      | Some h => header_value h
      | None => None
      end
  | None => None
  end.

Definition gmail_priority_update (analysis : json) : option Priority :=
  if is_string (get analysis "priority") "high" then Some high else None.

Definition gmail_input (u : string) (msg : MessageRef)
    (details : MessageDetails) (analysis : json) (externalThreadId : nat)
  : WorkItemInput :=
  let subject := or_lit (header "Subject" (headers details)) "No Subject" in
  let from := or_lit (header "From" (headers details)) "Unknown" in
  {| userId := u;
     type := email;
     title := subject;
     source := "Gmail: " ++ from;
     timestamp := DateParseInt (internalDate details);
     preview := or_lit (snippet details) EmptyString;
     isRead := false;
     priority := get analysis "priority";
     threadId := externalThreadId;
     metadata :=
       [("googleId", MString (msg_id msg));
        ("threadId", meta_of (gmail_threadId details));
        ("aiReason", meta_of_js (get analysis "reason"))] |}.

Definition syncGmail_body (u : string) (auth : OAuth2Client)
    (msg : MessageRef) (count : nat) : M nat :=
  details <- call S (GmailMessagesGet auth (msg_id msg))
               (gmail_messages_get S auth (msg_id msg)) ;;
  let subject := or_lit (header "Subject" (headers details)) "No Subject" in
  let from := or_lit (header "From" (headers details)) "Unknown" in
  let snippet := or_lit (snippet details) EmptyString in
  existing <- findOne_item S u "googleId" (msg_id msg) ;;
  match existing with
  | Some _ => ret count
  | None =>
      analysis <- classifyAndPrioritizeEmail subject from snippet ;;
      if negb (JSON.truthy (get analysis "isWork")) then ret count
      else
        externalThreadId <- getOrCreateExternalThread u ;;
        newItem <- createItem S
                     (gmail_input u msg details analysis externalThreadId) ;;
        t <- now ;;
        findByIdAndUpdate S externalThreadId (item_id newItem) t
          (gmail_priority_update analysis) ;;;
        ret (Datatypes.S count)
  end.

Definition stamp_google_lastSync (user : User) : M unit :=
  match integrations user with
  | Some ig =>
      match google ig with
      | Some _ => t <- now ;; save_user S (stamp_google t user)
      | None => ret tt
      end
  | None => ret tt
  end.

Definition google_accessToken (user : User) : option string :=
  match integrations user with
  | Some ig =>
      match google ig with
      | Some g => accessToken g
      | None => None
      end
  | None => None
  end.

Definition google_refreshToken (user : User) : option string :=
  match integrations user with
  | Some ig =>
      match google ig with
      | Some g => refreshToken g
      | None => None
      end
  | None => None
  end.

Definition list_or_empty {A} (l : option (list A)) : list A :=
  match l with
  | Some l => l
  | None => []
  end.

(** The [try] block of [syncGmail]. *)
Definition syncGmail_cycle (u : string) (user : User) (auth : OAuth2Client)
  : M nat :=
  res <- call S (GmailMessagesList auth) (gmail_messages_list S auth) ;;
  let messages := list_or_empty res in
  count <- for_of (syncGmail_body u auth) messages 0 ;;
  stamp_google_lastSync user ;;;
  ret count.

Definition syncGmail (u : string) (overrideAccessToken : option string)
  : M nat :=
  user <- findById S u ;;
  match user with
  | None => ret 0
  | Some user =>
      match Js.or overrideAccessToken (google_accessToken user) with
      | None => ret 0
      | Some accessToken =>
          if String.eqb accessToken EmptyString then ret 0
          else
            let auth :=
              createOAuthClient accessToken (google_refreshToken user) in
            try_catch (syncGmail_cycle u user auth) (fun _ => ret 0)
      end
  end.

(** *** Calendar *)

Definition event_start (ev : CalendarEvent) : string :=
  match start ev with
  | Some st => or_lit (Js.or (dateTime st) (date st)) EmptyString
  | None => EmptyString
  end.

Definition calendar_input (u : string) (ev : CalendarEvent)
    (externalThreadId : nat) : WorkItemInput :=
  {| userId := u;
     type := calendar;
     title := or_lit (summary ev) "Meeting";
     source := "Google Calendar";
     timestamp := DateOfString (event_start ev);
     preview := or_lit (event_description ev) EmptyString;
     isRead := false;
     priority := Some (JString (codes "medium"));
     threadId := externalThreadId;
     metadata :=
       [("googleId", MString (event_id ev));
        ("status", meta_of (event_status ev));
        ("location", meta_of (location ev))] |}.

Definition syncCalendar_body (u : string) (ev : CalendarEvent)
    (count : nat) : M nat :=
  existing <- findOne_item S u "googleId" (event_id ev) ;;
  match existing with
  | Some _ => ret count
  | None =>
      externalThreadId <- getOrCreateExternalThread u ;;
      newItem <- createItem S (calendar_input u ev externalThreadId) ;;
      t <- now ;;
      findByIdAndUpdate S externalThreadId (item_id newItem) t None ;;;
      ret (Datatypes.S count)
  end.

(** The [try] block of [syncCalendar]. *)
Definition syncCalendar_cycle (u : string) (auth : OAuth2Client) : M nat :=
  timeMin <- now ;;
  res <- call S (CalendarEventsList auth timeMin)
           (calendar_events_list S auth) ;;
  let events := list_or_empty res in
  count <- for_of (syncCalendar_body u) events 0 ;;
  ret count.

Definition syncCalendar (u : string) (overrideAccessToken : option string)
  : M nat :=
  user <- findById S u ;;
  match user with
  | None => ret 0
  | Some user =>
      match Js.or overrideAccessToken (google_accessToken user) with
      | None => ret 0
      | Some accessToken =>
          if String.eqb accessToken EmptyString then ret 0
          else
            let auth :=
              createOAuthClient accessToken (google_refreshToken user) in
            try_catch (syncCalendar_cycle u auth) (fun _ => ret 0)
      end
  end.

(** *** Tasks *)

Definition task_input (u : string) (list : TaskList) (task : Task)
    (t : nat) (externalThreadId : nat) : WorkItemInput :=
  {| userId := u;
     type := Model.task;
     title := or_lit (task_title task) "Untitled Task";
     source := "Google Tasks: " ++ template (list_title list);
     timestamp :=
       match due task with
       | Some d => if String.eqb d EmptyString then DateAt t else DateOfString d
       | None => DateAt t
       end;
     preview := or_lit (notes task) EmptyString;
     isRead := false;
     priority := Some (JString (codes "medium"));
     threadId := externalThreadId;
     metadata :=
       [("googleId", MString (task_id task));
        ("listId", MString (list_id list));
        ("status", meta_of (task_status task))] |}.

Definition syncTasks_task (u : string) (list : TaskList) (task : Task)
    (count : nat) : M nat :=
  existing <- findOne_item S u "googleId" (task_id task) ;;
  match existing with
  | Some _ => ret count
  | None =>
      externalThreadId <- getOrCreateExternalThread u ;;
      t0 <- now ;;
      newItem <- createItem S (task_input u list task t0 externalThreadId) ;;
      t <- now ;;
      findByIdAndUpdate S externalThreadId (item_id newItem) t None ;;;
      ret (Datatypes.S count)
  end.

Definition syncTasks_list (u : string) (auth : OAuth2Client)
    (list : TaskList) (count : nat) : M nat :=
  tasksRes <- call S (TasksList auth (list_id list))
                (tasks_list S auth (list_id list)) ;;
  let taskItems := list_or_empty tasksRes in
  for_of (syncTasks_task u list) taskItems count.

(** The [try] block of [syncTasks]. *)
Definition syncTasks_cycle (u : string) (auth : OAuth2Client) : M nat :=
  taskListsRes <- call S (TasklistsList auth) (tasklists_list S auth) ;;
  let taskLists := list_or_empty taskListsRes in
  count <- for_of (syncTasks_list u auth) taskLists 0 ;;
  ret count.

Definition syncTasks (u : string) (overrideAccessToken : option string)
  : M nat :=
  user <- findById S u ;;
  match user with
  | None => ret 0
  | Some user =>
      match Js.or overrideAccessToken (google_accessToken user) with
      | None => ret 0
      | Some accessToken =>
          if String.eqb accessToken EmptyString then ret 0
          else
            let auth :=
              createOAuthClient accessToken (google_refreshToken user) in
            try_catch (syncTasks_cycle u auth) (fun _ => ret 0)
      end
  end.

(** *** Teams *)

Definition microsoft_accessToken (user : User) : option string :=
  match integrations user with
  | Some ig =>
      match microsoft ig with
      | Some m => accessToken m
      | None => None
      end
  | None => None
  end.

(** Reading the body of a response, which may throw. *)
Definition reading {A} (r : Request) (x : Response A) : M A :=
  match x with
  | Returns a => ret a
  | Fails => throw (RemoteFailure r)
  end.

Definition teams_title (chat : Chat) (lastMessage : MessagePreview)
  : string :=
  or_lit (topic chat)
    (match chatType chat with
     | Some ct =>
         if String.eqb ct "oneOnOne"
         then or_lit (from_user_displayName lastMessage) "Teams Chat"
         else "Group Chat"
     | None => "Group Chat"
     end).

Definition teams_input (u : string) (chat : Chat)
    (lastMessage : MessagePreview) (text : string) (t : nat)
    (externalThreadId : nat) : WorkItemInput :=
  {| userId := u;
     type := message;
     title := teams_title chat lastMessage;
     source := "Microsoft Teams";
     timestamp :=
       match createdDateTime lastMessage with
       | Some d => if String.eqb d EmptyString then DateAt t else DateOfString d
       | None => DateAt t
       end;
     preview := text;
     isRead := false;
     priority := Some (JString (codes "medium"));
     threadId := externalThreadId;
     metadata :=
       [("microsoftId", MString (preview_id lastMessage));
        ("chatId", meta_of (chat_id chat));
        ("webUrl", meta_of (webUrl chat))] |}.

(** The text of the last message, when the chat has one:
    [lastMessage && lastMessage.body && lastMessage.body.content]. *)
Definition last_message (chat : Chat) : option (MessagePreview * string) :=
  match lastMessagePreview chat with
  | Some lastMessage =>
      match body lastMessage with
      | Some b =>
          match content b with
          | Some text =>
              if String.eqb text EmptyString then None
              else Some (lastMessage, text)
          | None => None
          end
      | None => None
      end
  | None => None
  end.

Definition syncTeams_body (u : string) (chat : Chat) (count : nat)
  : M nat :=
  match last_message chat with
  | None => ret count
  | Some (lastMessage, text) =>
      let msgId := preview_id lastMessage in
      existing <- findOne_item S u "microsoftId" msgId ;;
      match existing with
      | Some _ => ret count
      | None =>
          externalThreadId <- getOrCreateExternalThread u ;;
          t0 <- now ;;
          newItem <- createItem S
                       (teams_input u chat lastMessage text t0
                          externalThreadId) ;;
          t <- now ;;
          findByIdAndUpdate S externalThreadId (item_id newItem) t None ;;;
          ret (Datatypes.S count)
      end
  end.

Definition stamp_microsoft_lastSync (u : string) (user : User) : M unit :=
  match integrations user with
  | Some ig =>
      match microsoft ig with
      | Some _ => t <- now ;; updateOne_lastSync S u t
      | None => ret tt
      end
  | None => ret tt
  end.

(** The [try] block of [syncTeams]. *)
Definition syncTeams_cycle (u : string) (user : User) (accessToken : string)
  : M nat :=
  let request := GraphChats accessToken in
  response <- call S request (graph_chats S accessToken) ;;
  if negb (reply_ok response) then
    if Nat.eqb (status response) 401 then ret 0
    else
      errorText <- reading request (text_body response) ;;
      throw (GraphApiError (status response) errorText)
  else
    data <- reading request (json_value response) ;;
    let chats := list_or_empty data in
    count <- for_of (syncTeams_body u) chats 0 ;;
    stamp_microsoft_lastSync u user ;;;
    ret count.

Definition syncTeams (u : string) (overrideAccessToken : option string)
  : M nat :=
  user <- findById S u ;;
  match user with
  | None => ret 0
  | Some user =>
      match Js.or overrideAccessToken (microsoft_accessToken user) with
      | None => ret 0
      | Some accessToken =>
          if String.eqb accessToken EmptyString then ret 0
          else try_catch (syncTeams_cycle u user accessToken) (fun _ => ret 0)
      end
  end.

(** *** The four entry points *)

Inductive Provider := Gmail | Calendar | Tasks | Teams.

Definition sync (p : Provider) : string -> option string -> M nat :=
  match p with
  | Gmail => syncGmail
  | Calendar => syncCalendar
  | Tasks => syncTasks
  | Teams => syncTeams
  end.

End WithServices.

End IntegrationService.

(* ===================================================================== *)
(** ** What the properties speak about *)
(* ===================================================================== *)

Module Spec.

Import Js JSON Extract Model Store IntegrationService.
Local Open Scope sync_scope.

(** *** The classifier *)

(** The ways a classification can fail: the generation call throws,
    the response text is not a string, it has no brace-delimited
    substring, or the substring does not decode. *)
Inductive classification_fails (S : Services) (p : string) : Prop :=
| generation_throws :
    generateContent S p = Fails -> classification_fails S p
| text_not_a_string :
    generateContent S p = Returns None -> classification_fails S p
| no_json_substring text :
    generateContent S p = Returns (Some text) ->
    jsonMatch text = None -> classification_fails S p
| undecodable text m :
    generateContent S p = Returns (Some text) ->
    jsonMatch text = Some m -> JSON.parse m = None ->
    classification_fails S p.

(** The parse the specification describes: decode the first balanced
    substring. *)
Definition decode_first_balanced (text : string) : json :=
  match first_balanced text with
  | Some b =>
      match JSON.parse b with
      | Some v => v
      | None => fallback
      end
  | None => fallback
  end.

(** The classifier parses every response that has a balanced object
    by decoding the first balanced substring. *)
Definition parses_first_balanced : Prop :=
  forall (S : Services) (subject from snippet text : string) (w : World),
    generateContent S (prompt subject from snippet) = Returns (Some text) ->
    first_balanced text <> None ->
    fst (classifyAndPrioritizeEmail S subject from snippet w)
    = Ok (decode_first_balanced text).

(** The parse the code performs: decode the span from the first
    opening brace to the last closing brace. *)
Definition decode_span (mid : string) : json :=
  match JSON.parse (String "{" (mid ++ "}")%string) with
  | Some v => v
  | None => fallback
  end.

(** *** Credentials *)

Definition stored_token (p : Provider) (user : User) : option string :=
  match p with
  | Teams => microsoft_accessToken user
  | _ => google_accessToken user
  end.

Definition lookup_user (u : string) (w : World) : option User :=
  find (fun x => String.eqb (user_id x) u) (users w).

Definition is_remote (e : nat * Event) : bool :=
  match snd e with
  | Remote _ => true
  | _ => false
  end.

(** The requests to remote services in a trace. *)
Definition remote_requests (w : World) : list (nat * Event) :=
  filter is_remote (trace w).

(** *** Teams candidates *)

(** A chat without a last message preview, without a body in it, or
    without content in the body. *)
Inductive lacks_content (chat : Chat) : Prop :=
| no_preview : lastMessagePreview chat = None -> lacks_content chat
| no_body m :
    lastMessagePreview chat = Some m -> body m = None -> lacks_content chat
| no_content m b :
    lastMessagePreview chat = Some m -> body m = Some b ->
    content b = None -> lacks_content chat.

(** *** Fixtures for the examples *)

Definition no_services : Services :=
  {| gmail_messages_list := fun _ => Fails;
     gmail_messages_get := fun _ _ => Fails;
     calendar_events_list := fun _ => Fails;
     tasklists_list := fun _ => Fails;
     tasks_list := fun _ _ => Fails;
     graph_chats := fun _ => Fails;
     generateContent := fun _ => Fails;
     rejects := fun _ => false;
     elapsed := fun _ => 1 |}.

(** The services of [S], with a model that answers [text] whatever the
    prompt. *)
Definition answering (text : string) (S : Services) : Services :=
  {| gmail_messages_list := gmail_messages_list S;
     gmail_messages_get := gmail_messages_get S;
     calendar_events_list := calendar_events_list S;
     tasklists_list := tasklists_list S;
     tasks_list := tasks_list S;
     graph_chats := graph_chats S;
     generateContent := fun _ => Returns (Some text);
     rejects := rejects S;
     elapsed := elapsed S |}.

Definition empty_world : World :=
  {| users := []; items := []; threads := []; nextId := 0; clock := 0;
     trace := [] |}.

(** *** The shape shared by the four entry points *)

(** The [try] block of the entry point of a provider, for a loaded
    user and a resolved access token. *)
Definition cycle (S : Services) (p : Provider) (u : string) (user : User)
    (accessToken : string) : M nat :=
  match p with
  | Gmail =>
      syncGmail_cycle S u user
        (createOAuthClient accessToken (google_refreshToken user))
  | Calendar =>
      syncCalendar_cycle S u
        (createOAuthClient accessToken (google_refreshToken user))
  | Tasks =>
      syncTasks_cycle S u
        (createOAuthClient accessToken (google_refreshToken user))
  | Teams => syncTeams_cycle S u user accessToken
  end.

(** No access token: no override from the caller, and no stored token
    on the user the store has under that id. *)
Definition no_token (p : Provider) (u : string) (override : option string)
    (w : World) : Prop :=
  Js.truthy override = false /\
  forall user, lookup_user u w = Some user ->
               Js.truthy (stored_token p user) = false.

Definition chat_without_preview : Chat :=
  {| chat_id := Some "19:meeting"; topic := Some "Standup";
     chatType := Some "group"; webUrl := None;
     lastMessagePreview := None |}.

(** *** The loop bodies in normal form *)

Fixpoint ticks (S : Services) (evs : list Event) (w : World) : World :=
  match evs with
  | [] => w
  | ev :: rest => ticks S rest (tick S ev w)
  end.

(** The statements every loop body ends with: resolve the import
    thread, create the item, update the thread, count.  [mk] builds
    the input from the time read before the insert and the id of the
    thread; [p] is the priority the update carries, if any. *)
Definition materialize (S : Services) (u : string)
    (mk : nat -> nat -> WorkItemInput) (p : option Priority) (count : nat)
  : M nat :=
  externalThreadId <- getOrCreateExternalThread S u ;;
  t0 <- now ;;
  newItem <- createItem S (mk t0 externalThreadId) ;;
  t <- now ;;
  findByIdAndUpdate S externalThreadId (item_id newItem) t p ;;;
  ret (Datatypes.S count).

(** What a loop body does with a candidate depends on the store only
    through the dedup lookup.  A plan is the rest: the events before
    the lookup, and what happens when the lookup finds nothing. *)
Inductive Verdict :=
| Reject (evs : list Event)
| Accept (evs : list Event) (mk : nat -> nat -> WorkItemInput)
    (p : option Priority).

Inductive Plan :=
| Abort (evs : list Event) (e : Error)
| Drop
| Candidate (evs : list Event) (rid : string) (v : Verdict).

Definition execute (S : Services) (u key : string) (pl : Plan) (count : nat)
  : M nat :=
  fun w =>
    match pl with
    | Abort evs e => (Throw e, ticks S evs w)
    | Drop => (Ok count, w)
    | Candidate evs rid v =>
        let w1 := ticks S (evs ++ [ItemFindOne u key rid]) w in
        match find (has_remote_id u key rid) (items w) with
        | Some _ => (Ok count, w1)
        | None =>
            match v with
            | Reject evs2 => (Ok count, ticks S evs2 w1)
            | Accept evs2 mk p => materialize S u mk p count (ticks S evs2 w1)
            end
        end
    end.

(** The judgment of the classifier on an email. *)
Definition judgment (S : Services) (subject from snippet : string) : json :=
  match generateContent S (prompt subject from snippet) with
  | Fails => fallback
  | Returns None => fallback
  | Returns (Some text) =>
      match jsonMatch text with
      | Some m =>
          match JSON.parse m with
          | Some v => v
          | None => fallback
          end
      | None => fallback
      end
  end.

Definition gmail_plan (S : Services) (u : string) (auth : OAuth2Client)
    (msg : MessageRef) : Plan :=
  let request := GmailMessagesGet auth (msg_id msg) in
  match gmail_messages_get S auth (msg_id msg) with
  | Fails => Abort [Remote request] (RemoteFailure request)
  | Returns details =>
      let subject := or_lit (header "Subject" (headers details)) "No Subject" in
      let from := or_lit (header "From" (headers details)) "Unknown" in
      let snippet := or_lit (snippet details) EmptyString in
      let analysis := judgment S subject from snippet in
      let asked := [Remote (GenerateContent (prompt subject from snippet))] in
      Candidate [Remote request] (msg_id msg)
        (if negb (JSON.truthy (get analysis "isWork")) then Reject asked
         else Accept asked (fun _ => gmail_input u msg details analysis)
                (gmail_priority_update analysis))
  end.

Definition calendar_plan (u : string) (ev : CalendarEvent) : Plan :=
  Candidate [] (event_id ev) (Accept [] (fun _ => calendar_input u ev) None).

Definition task_plan (u : string) (list : TaskList) (task : Task) : Plan :=
  Candidate [] (task_id task) (Accept [] (task_input u list task) None).

Definition teams_plan (u : string) (chat : Chat) : Plan :=
  match last_message chat with
  | None => Drop
  | Some (lastMessage, text) =>
      Candidate [] (preview_id lastMessage)
        (Accept [] (teams_input u chat lastMessage text) None)
  end.

(** The keys of the provider-native identifiers. *)
Definition remote_keys : list string := ["googleId"; "microsoftId"].

(** What the plans of the four providers have in common. *)
Record import_ok (u key rid : string) (mk : nat -> nat -> WorkItemInput)
    (p : option Priority) : Prop := {
  import_user : forall t tid, userId (mk t tid) = u;
  import_thread : forall t tid, threadId (mk t tid) = tid;
  import_key :
    forall t tid k, In k remote_keys ->
      meta_get k (metadata (mk t tid))
      = if String.eqb k key then MString rid else MUndefined;
  import_view :
    forall t t' tid, validation_view (mk t tid) = validation_view (mk t' tid);
  import_priority :
    (p = None /\
     forall t tid, is_string (priority (mk t tid)) "high" = false) \/
    (p = Some high /\
     forall t tid, is_string (priority (mk t tid)) "high" = true)
}.

Definition plan_ok (u key : string) (pl : Plan) : Prop :=
  match pl with
  | Candidate _ rid (Accept _ mk p) => import_ok u key rid mk p
  | _ => True
  end.

(** The two halves of [materialize], as functions of the world. *)
Definition resolve_thread (S : Services) (u : string) (w : World)
  : nat * World :=
  let w1 := tick S (ThreadFindOne u "External Imports") w in
  match find (is_thread u "External Imports") (threads w) with
  | Some th => (thread_id th, w1)
  | None =>
      (nextId w,
       tick S (ThreadSave (nextId w))
         (add_thread (external_thread u (clock w1) (nextId w)) w1))
  end.

Definition attached (tid itemId t : nat) (p : option Priority)
    (ts : list WorkThread) : list WorkThread :=
  update_first (fun th => Nat.eqb (thread_id th) tid)
    (apply_update itemId t p) ts.

Definition attach (S : Services) (mk : nat -> nat -> WorkItemInput)
    (p : option Priority) (count tid : nat) : M nat :=
  fun w =>
    let input := mk (clock w) tid in
    if rejects S (validation_view input) then
      (Throw (StorageRejection input), tick S (ItemRejected input) w)
    else
      let it := {| item_id := nextId w; item := input |} in
      let w1 := tick S (ItemCreate (nextId w)) (add_item it w) in
      (Ok (Datatypes.S count),
       tick S (ThreadUpdate tid (nextId w))
         (put_threads (attached tid (nextId w) (clock w1) p (threads w1)) w1)).

(** *** Progress and what a run leaves behind *)

(** A computation keeps a property of the world: if it holds before, it
    holds after, whether the computation returns or throws. *)
Definition keeps {A} (I : World -> Prop) (m : M A) : Prop :=
  forall w, I w -> I (snd (m w)).

(** Nothing of the items of [w] is lost in [w']: the collection has only
    grown, at its end. *)
Definition items_kept (w w' : World) : Prop :=
  exists new, items w' = (items w ++ new)%list.

Definition connected_user : User :=
  {| user_id := "u1";
     integrations :=
       Some {| google := Some {| accessToken := Some "ya29.token";
                                 refreshToken := Some "1//refresh";
                                 lastSync := None;
                                 connected := true |};
               microsoft := None |} |}.

Definition connected_world : World :=
  {| users := [connected_user]; items := []; threads := []; nextId := 0;
     clock := 1000; trace := [] |}.

(** Two task lists; the tasks of the first can be fetched, the fetch of
    the second fails. *)
Definition flaky_tasks : Services :=
  {| gmail_messages_list := fun _ => Fails;
     gmail_messages_get := fun _ _ => Fails;
     calendar_events_list := fun _ => Fails;
     tasklists_list := fun _ =>
       Returns (Some [ {| list_id := "l1"; list_title := Some "Work" |};
                       {| list_id := "l2"; list_title := Some "Home" |} ]);
     tasks_list := fun _ id =>
       if String.eqb id "l1" then
         Returns (Some [ {| task_id := "t1"; task_title := Some "Review PR";
                            due := None; notes := None;
                            task_status := Some "needsAction" |} ])
       else Fails;
     graph_chats := fun _ => Fails;
     generateContent := fun _ => Fails;
     rejects := fun _ => false;
     elapsed := fun _ => 1 |}.

(** One upcoming event, fetched without error. *)
Definition one_event : Services :=
  {| gmail_messages_list := fun _ => Returns (Some []);
     gmail_messages_get := fun _ _ => Fails;
     calendar_events_list := fun _ =>
       Returns (Some [ {| event_id := "e1"; summary := Some "Standup";
                          start := Some {| dateTime := Some "2026-01-05T09:00:00Z";
                                           date := None |};
                          event_description := None;
                          event_status := Some "confirmed";
                          location := None |} ]);
     tasklists_list := fun _ => Returns (Some []);
     tasks_list := fun _ _ => Returns (Some []);
     graph_chats := fun _ => Fails;
     generateContent := fun _ => Fails;
     rejects := fun _ => false;
     elapsed := fun _ => 1 |}.

Definition google_lastSync (w : World) (u : string) : option nat :=
  match lookup_user u w with
  | Some user =>
      match integrations user with
      | Some ig =>
          match google ig with
          | Some g => lastSync g
          | None => None
          end
      | None => None
      end
  | None => None
  end.

(** *** One item per remote identifier *)

(** The dedup key of an item under a metadata key: its user and its
    provider-native identifier, when it has one. *)
Definition remote_id (key : string) (it : WorkItem) : option (string * string) :=
  match meta_get key (metadata (item it)) with
  | MString s => Some (userId (item it), s)
  | _ => None
  end.

Fixpoint remote_ids (key : string) (l : list WorkItem) : list (string * string) :=
  match l with
  | [] => []
  | it :: rest =>
      match remote_id key it with
      | Some k => k :: remote_ids key rest
      | None => remote_ids key rest
      end
  end.

(** No two items of the store share a user and a [googleId], nor a user
    and a [microsoftId]. *)
Definition unique_remote_ids (w : World) : Prop :=
  forall key, In key remote_keys -> NoDup (remote_ids key (items w)).

(** One call of an entry point, with the services as they answer during
    that call. *)
Record Invocation := {
  inv_services : Services;
  inv_provider : Provider;
  inv_user : string;
  inv_override : option string
}.

(** Invocations run one after the other. *)
Fixpoint run_all (invs : list Invocation) (w : World) : World :=
  match invs with
  | [] => w
  | i :: rest =>
      run_all rest
        (snd (sync (inv_services i) (inv_provider i) (inv_user i)
                (inv_override i) w))
  end.

(** *** Thread priority *)

Definition rank (p : Priority) : nat :=
  match p with
  | low => 0
  | medium => 1
  | high => 2
  end.

(** Among the items [new] there is one of the thread whose priority is
    the string [high]. *)
Definition escalated_by (new : list WorkItem) (th : WorkThread) : Prop :=
  exists it,
    In it new /\ threadId (item it) = thread_id th
    /\ is_string (priority (item it)) "high" = true.

(** From [w] to [w']: every thread of [w] is still there, at its place
    and under its id, with a priority that is no lower; the priority is
    the one it had, or it is [high] and one of the items created in
    between, in that thread, has priority [high]. *)
Definition priority_monotone (w w' : World) : Prop :=
  exists new,
    items w' = (items w ++ new)%list /\
    forall n th,
      nth_error (threads w) n = Some th ->
      exists th',
        nth_error (threads w') n = Some th'
        /\ thread_id th' = thread_id th
        /\ rank (thread_priority th) <= rank (thread_priority th')
        /\ (thread_priority th' = thread_priority th
            \/ (thread_priority th' = high /\ escalated_by new th)).

(** The thread an id addresses, as [findByIdAndUpdate] finds it. *)
Definition thread_of (id : nat) (w : World) : option WorkThread :=
  find (fun th => Nat.eqb (thread_id th) id) (threads w).

(** From [w] to [w']: every item created in between with priority
    [high] has a thread of priority [high]. *)
Definition escalates (w w' : World) : Prop :=
  exists new,
    items w' = (items w ++ new)%list /\
    forall it,
      In it new -> is_string (priority (item it)) "high" = true ->
      exists th,
        thread_of (threadId (item it)) w' = Some th
        /\ thread_priority th = high.

(** *** Threads and their items *)

(** Ids are issued in order and once, and no event is dated later than
    the clock. *)
Record well_formed (w : World) : Prop := {
  wf_items : forall it, In it (items w) -> item_id it < nextId w;
  wf_threads : forall th, In th (threads w) -> thread_id th < nextId w;
  wf_itemIds :
    forall th i, In th (threads w) -> In i (itemIds th) -> i < nextId w;
  wf_thread_ids : NoDup (map thread_id (threads w));
  wf_trace : forall t ev, In (t, ev) (trace w) -> t <= clock w
}.

(** The item is listed, once, in the import thread of its user, the
    thread it points to; and that thread was last active no earlier than
    the time [t] at which the item was created. *)
Definition in_import_thread (w : World) (it : WorkItem) : Prop :=
  exists th t,
    In th (threads w)
    /\ thread_id th = threadId (item it)
    /\ thread_userId th = userId (item it)
    /\ thread_title th = "External Imports"
    /\ count_occ Nat.eq_dec (itemIds th) (item_id it) = 1
    /\ In (t, ItemCreate (item_id it)) (trace w)
    /\ t <= lastActivity th.

(** The same, after the update of the thread has run once more for the
    item, at time [t2] and with priority [p2]. *)
Definition listed_once_after_replay (S : Services) (w : World) (it : WorkItem)
  : Prop :=
  forall t2 p2,
    exists th,
      In th (threads (snd (findByIdAndUpdate S (threadId (item it))
                             (item_id it) t2 p2 w)))
      /\ thread_id th = threadId (item it)
      /\ count_occ Nat.eq_dec (itemIds th) (item_id it) = 1.

(** *** Running a sync again *)

(** Two worlds with the same items and threads, and the same next id. *)
Definition same_db (w w' : World) : Prop :=
  items w = items w' /\ threads w = threads w' /\ nextId w = nextId w'.

(** A counting computation that has run to its end finds nothing left to
    do when it runs again, in any world that has at least the items it
    left: it creates nothing and leaves the count as it is. *)
Definition settles (m : nat -> M nat) : Prop :=
  forall n w n1 w1,
    m n w = (Ok n1, w1) ->
    forall k w', incl (items w1) (items w') ->
                 exists w'', m k w' = (Ok k, w'') /\ same_db w' w''.

(** A counting computation that has thrown throws again when it runs
    again on the items and threads it left, and creates nothing. *)
Definition rethrows (m : nat -> M nat) : Prop :=
  forall n w e w1,
    m n w = (Throw e, w1) ->
    forall k w', same_db w1 w' ->
                 exists e' w'', m k w' = (Throw e', w'') /\ same_db w' w''.

Definition grows (m : nat -> M nat) : Prop :=
  forall n w, incl (items w) (items (snd (m n w))).

(** Running [m'] on what a run of [m] left creates nothing, and returns
    0 if it returns. *)
Definition rerun_is_idle (m m' : M nat) : Prop :=
  forall w r w1,
    m w = (r, w1) ->
    forall w', same_db w1 w' ->
               exists r' w'',
                 m' w' = (r', w'') /\ same_db w' w''
                 /\ (r' = Ok 0 \/ exists e, r' = Throw e).

(** The claim of idempotence with only the candidates unchanged: the
    second run may be served by other services, as long as they list the
    same candidates. *)
Definition same_candidates (S1 S2 : Services) : Prop :=
  gmail_messages_list S1 = gmail_messages_list S2
  /\ gmail_messages_get S1 = gmail_messages_get S2
  /\ calendar_events_list S1 = calendar_events_list S2
  /\ tasklists_list S1 = tasklists_list S2
  /\ tasks_list S1 = tasks_list S2
  /\ graph_chats S1 = graph_chats S2.

Definition idempotent_on_unchanged_candidates : Prop :=
  forall (S1 S2 : Services) (p : Provider) (u : string)
         (override : option string) (w : World),
    same_candidates S1 S2 ->
    let w1 := snd (sync S1 p u override w) in
    fst (sync S2 p u override w1) = Ok 0
    /\ items (snd (sync S2 p u override w1)) = items w1.

(** Two user documents with the same credentials. *)
Definition same_tokens (a b : User) : Prop :=
  google_accessToken a = google_accessToken b
  /\ google_refreshToken a = google_refreshToken b
  /\ microsoft_accessToken a = microsoft_accessToken b.

(** The store has a user under the id, with the credentials of
    [user]. *)
Definition has_user_like (u : string) (user : User) (w : World) : Prop :=
  exists user', lookup_user u w = Some user' /\ same_tokens user user'.

(** One unread message, fetched without error. *)
Definition one_message : Services :=
  {| gmail_messages_list := fun _ => Returns (Some [ {| msg_id := "m1" |} ]);
     gmail_messages_get := fun _ _ =>
       Returns {| headers :=
                    Some [ {| header_name := "From";
                              header_value := Some "deals@shop.example" |};
                           {| header_name := "Subject";
                              header_value := Some "Official Dept. Discount newsletter" |} ];
                  internalDate := Some "1767600000000";
                  snippet := Some "Save 20% this week";
                  gmail_threadId := Some "th1" |};
     calendar_events_list := fun _ => Fails;
     tasklists_list := fun _ => Fails;
     tasks_list := fun _ _ => Fails;
     graph_chats := fun _ => Fails;
     generateContent := fun _ => Fails;
     rejects := fun _ => false;
     elapsed := fun _ => 1 |}.

(** A chat whose last message is already in the store. *)
Definition one_chat : Services :=
  {| gmail_messages_list := fun _ => Fails;
     gmail_messages_get := fun _ _ => Fails;
     calendar_events_list := fun _ => Fails;
     tasklists_list := fun _ => Fails;
     tasks_list := fun _ _ => Fails;
     graph_chats := fun _ =>
       Returns
         {| status := 200;
            text_body := Fails;
            json_value :=
              Returns
                (Some [ {| chat_id := Some "19:chat_eng_sync";
                           topic := None;
                           chatType := Some "oneOnOne";
                           webUrl := None;
                           lastMessagePreview :=
                             Some {| preview_id := "msg_123";
                                     body := Some {| content := Some "Alex: see the draft" |};
                                     from_user_displayName := Some "Alex Rivera";
                                     createdDateTime := None |} |} ]) |};
     generateContent := fun _ => Fails;
     rejects := fun _ => false;
     elapsed := fun _ => 1 |}.

Definition teams_user : User :=
  {| user_id := "u2";
     integrations :=
       Some {| google := None;
               microsoft := Some {| accessToken := Some "eyJ.token";
                                    refreshToken := None;
                                    lastSync := None;
                                    connected := true |} |} |}.

Definition seeded_item : WorkItem :=
  {| item_id := 7;
     item :=
       {| userId := "u2"; type := message;
          title := "Migration Sync - Architectural Review";
          source := "Microsoft Teams";
          timestamp := DateAt 900;
          preview := "Alex: We need to finalize the database schema.";
          isRead := false;
          priority := Some (JString (codes "high"));
          threadId := 3;
          metadata := [("microsoftId", MString "msg_123");
                       ("chatId", MString "chat_eng_sync")] |} |}.

Definition seeded_world : World :=
  {| users := [teams_user]; items := [seeded_item]; threads := [];
     nextId := 8; clock := 1000; trace := [] |}.

(** A connected user who has the import thread, at priority medium. *)
Definition threaded_world : World :=
  {| users := [connected_user]; items := [];
     threads := [external_thread "u1" 900 0];
     nextId := 1; clock := 1000; trace := [] |}.

Definition microsoft_lastSync (w : World) (u : string) : option nat :=
  match lookup_user u w with
  | Some user =>
      match integrations user with
      | Some ig =>
          match microsoft ig with
          | Some m => lastSync m
          | None => None
          end
      | None => None
      end
  | None => None
  end.

End Spec.

(* ===================================================================== *)
(** ** More of the behaviour of the sync engine *)
(* ===================================================================== *)

Module SyncSpec.

Import Js JSON Extract Model Store IntegrationService Spec.
Local Open Scope sync_scope.

(** *** The import thread *)

(** The threads of a user that the lookup of
    [getOrCreateExternalThread] can find. *)
Definition import_threads (u : string) (w : World) : list WorkThread :=
  filter (is_thread u "External Imports") (threads w).

Definition one_import_thread_each (w : World) : Prop :=
  forall u, length (import_threads u w) <= 1.

(** The id of the import thread of a user, as the lookup finds it. *)
Definition import_thread_id (u : string) (w : World) : option nat :=
  option_map thread_id (find (is_thread u "External Imports") (threads w)).

(** What a sync run leaves of a thread: everything but its priority and
    its last activity, and its items, to which it may have added. *)
Definition thread_kept (th th' : WorkThread) : Prop :=
  thread_id th' = thread_id th
  /\ thread_userId th' = thread_userId th
  /\ thread_title th' = thread_title th
  /\ description th' = description th
  /\ progress th' = progress th
  /\ relatedPeople th' = relatedPeople th
  /\ tags th' = tags th
  /\ exists more, itemIds th' = (itemIds th ++ more)%list.

Definition threads_kept (w w' : World) : Prop :=
  forall n th,
    nth_error (threads w) n = Some th ->
    exists th', nth_error (threads w') n = Some th' /\ thread_kept th th'.

(** *** Counting *)

(** A counting computation that returns has added to the count the
    number of items it has created. *)
Definition counts (m : nat -> M nat) : Prop :=
  forall n w n1 w1,
    m n w = (Ok n1, w1) ->
    exists new, items w1 = (items w ++ new)%list /\ n1 = n + length new.

(** *** Outages *)

(** The first fetch of the cycle of a provider fails. *)
Definition first_fetch_fails (S : Services) (p : Provider) (user : User)
    (tok : string) : Prop :=
  let auth := createOAuthClient tok (google_refreshToken user) in
  match p with
  | Gmail => gmail_messages_list S auth = Fails
  | Calendar => calendar_events_list S auth = Fails
  | Tasks => tasklists_list S auth = Fails
  | Teams => graph_chats S tok = Fails
  end.

(** The fields of a message that the classifier is shown. *)
Definition gmail_subject (details : MessageDetails) : string :=
  or_lit (header "Subject" (headers details)) "No Subject".

Definition gmail_from (details : MessageDetails) : string :=
  or_lit (header "From" (headers details)) "Unknown".

Definition gmail_snippet (details : MessageDetails) : string :=
  or_lit (snippet details) EmptyString.

(** A user connected to Microsoft, and a Graph endpoint that refuses the
    token. *)
Definition expired_token : Services :=
  {| gmail_messages_list := fun _ => Fails;
     gmail_messages_get := fun _ _ => Fails;
     calendar_events_list := fun _ => Fails;
     tasklists_list := fun _ => Fails;
     tasks_list := fun _ _ => Fails;
     graph_chats := fun _ =>
       Returns {| status := 401; text_body := Returns "Unauthorized";
                  json_value := Fails |};
     generateContent := fun _ => Fails;
     rejects := fun _ => false;
     elapsed := fun _ => 1 |}.

Definition newsletter_details : MessageDetails :=
  {| headers :=
       Some [ {| header_name := "From";
                 header_value := Some "deals@shop.example" |};
              {| header_name := "Subject";
                 header_value := Some "Official Dept. Discount newsletter" |} ];
     internalDate := Some "1767600000000";
     snippet := Some "Save 20% this week";
     gmail_threadId := Some "th1" |}.

Definition google_auth : OAuth2Client :=
  {| access_token := "ya29.token"; refresh_token := Some "1//refresh" |}.

(** The newsletter, already imported for the first user. *)
Definition imported_newsletter : WorkItem :=
  {| item_id := 4;
     item :=
       {| userId := "u1"; type := email;
          title := "Official Dept. Discount newsletter";
          source := "Gmail: deals@shop.example";
          timestamp := DateAt 900;
          preview := "Save 20% this week";
          isRead := false;
          priority := Some (JString (codes "medium"));
          threadId := 2;
          metadata := [("googleId", MString "m1")] |} |}.

Definition imported_world : World :=
  {| users := [connected_user]; items := [imported_newsletter]; threads := [];
     nextId := 5; clock := 1000; trace := [] |}.

(** *** Imports in order *)

(** The items are those of the events, one for one and in order. *)
Definition imports_of (u : string) (evs : list CalendarEvent)
    (new : list WorkItem) : Prop :=
  Forall2 (fun ev it => exists tid, item it = calendar_input u ev tid) evs new.

(** *** What a run asks of the outside, and what it creates *)

(** The requests to remote services in a trace, in order. *)
Definition requests_of (evs : list (nat * Event)) : list Request :=
  flat_map (fun e => match snd e with Remote r => [r] | _ => [] end) evs.

Definition requests (w : World) : list Request := requests_of (trace w).

(** An operation on the store. *)
Definition local (ev : Event) : Prop :=
  match ev with
  | Remote _ => False
  | _ => True
  end.

(** The requests of the sync of a provider: those of its own API, with
    the client or the token of the run; the email sync also asks the
    classifier. *)
Definition serves (p : Provider) (auth : OAuth2Client) (tok : string)
    (r : Request) : Prop :=
  match p, r with
  | Gmail, GmailMessagesList a => a = auth
  | Gmail, GmailMessagesGet a _ => a = auth
  | Gmail, GenerateContent _ => True
  | Calendar, CalendarEventsList a _ => a = auth
  | Tasks, TasklistsList a => a = auth
  | Tasks, TasksList a _ => a = auth
  | Teams, GraphChats t => t = tok
  | _, _ => False
  end.

(** The inputs the loop body of a provider builds. *)
Definition made_by (p : Provider) (u : string) (i : WorkItemInput) : Prop :=
  match p with
  | Gmail =>
      exists msg details analysis tid,
        i = gmail_input u msg details analysis tid
  | Calendar => exists ev tid, i = calendar_input u ev tid
  | Tasks => exists list task t tid, i = task_input u list task t tid
  | Teams =>
      exists chat lastMessage text t tid,
        i = teams_input u chat lastMessage text t tid
  end.

Definition item_type (p : Provider) : ItemType :=
  match p with
  | Gmail => email
  | Calendar => calendar
  | Tasks => task
  | Teams => message
  end.

Definition remote_key (p : Provider) : string :=
  match p with
  | Teams => "microsoftId"
  | _ => "googleId"
  end.

(** The events of a plan are among [P], the inputs it builds among
    [Q]. *)
Definition plan_fits (P : Event -> Prop) (Q : WorkItemInput -> Prop)
    (pl : Plan) : Prop :=
  match pl with
  | Abort evs _ => Forall P evs
  | Drop => True
  | Candidate evs _ v =>
      Forall P evs
      /\ match v with
         | Reject evs2 => Forall P evs2
         | Accept evs2 mk _ => Forall P evs2 /\ forall t tid, Q (mk t tid)
         end
  end.

(** The run of [u] with [override] in [w] has loaded a user and
    resolved a token that is not empty, and the request is one of the
    provider with that token. *)
Definition resolved_request (p : Provider) (u : string)
    (override : option string) (w : World) (r : Request) : Prop :=
  exists user tok,
    lookup_user u w = Some user
    /\ Js.or override (stored_token p user) = Some tok
    /\ tok <> EmptyString
    /\ serves p (createOAuthClient tok (google_refreshToken user)) tok r.

(** What every item of a provider has, whatever the remote data. *)
Definition well_formed (p : Provider) (u : string) (i : WorkItemInput)
  : Prop :=
  userId i = u
  /\ type i = item_type p
  /\ isRead i = false
  /\ title i <> EmptyString
  /\ (exists rid, meta_get (remote_key p) (metadata i) = MString rid)
  /\ (p <> Gmail -> priority i = Some (JString (codes "medium"))).

End SyncSpec.

(* ===================================================================== *)
(** ** Creating meetings *)
(* ===================================================================== *)

Module Meetings.

Import Js Model IntegrationService.

(** *** Values *)

(** The argument [eventDetails]; a description that the caller left
    out is [None]. *)
Record EventDetails := {
  title : string;
  description : option string;
  startTime : string;
  endTime : string;
  attendees : list string
}.

(** The [requestBody] of [calendar.events.insert]; the conference
    solution is always [hangoutsMeet]. *)
Record GoogleEvent := {
  summary : string;
  event_description : option string;
  start_dateTime : string;
  end_dateTime : string;
  attendee_emails : list string;
  requestId : string
}.

(** The body of the POST to [/me/events]; every attendee is
    [required], the time zone is UTC and the meeting is an online
    meeting of [teamsForBusiness]. *)
Record GraphEvent := {
  subject : string;
  body_content : string;
  graph_start : string;
  graph_end : string;
  attendee_addresses : list string
}.

Record OnlineMeeting := { joinUrl : option string }.

Record MeetingData := {
  webLink : option string;
  onlineMeeting : option OnlineMeeting
}.

Record TeamsMeeting := { meetingLink : string; joinUrl_of : string }.

(** A value that is thrown.  What a library call rejects with may
    have no [message]. *)
Inductive Exception :=
| Error (message : string)
| RangeError (message : string)
| TypeError (message : string)
| Rejection (message : option string).

Definition message_of (e : Exception) : option string :=
  match e with
  | Error m => Some m
  | RangeError m => Some m
  | TypeError m => Some m
  | Rejection m => m
  end.

(** The answer of an awaited call. *)
Inductive Answer (A : Type) :=
| Answered (a : A)
| Rejected (message : option string).
Arguments Answered {A} a.
Arguments Rejected {A} message.

(** The response of [fetch]: the status, and what reading the body as
    text and as JSON gives; a JSON body that is [null] is [None]. *)
Record MeetingReply := {
  reply_status : nat;
  reply_text : Answer string;
  reply_json : Answer (option MeetingData)
}.

(** [response.ok] *)
Definition response_ok (r : MeetingReply) : bool :=
  (200 <=? reply_status r)%nat && (reply_status r <=? 299)%nat.

(** What a call reaches outside the process. *)
Inductive Call :=
| FindById (u : string)
| EventsInsert (auth : OAuth2Client) (requestBody : GoogleEvent)
| PostEvent (authorization : string) (body : GraphEvent).

Definition is_request (c : Call) : bool :=
  match c with
  | FindById _ => false
  | _ => true
  end.

(** The engine and the two providers during one call. *)
Record Outside := {
  (** [new Date(s).toISOString()], [None] when the date is invalid *)
  toISOString : string -> option string;
  invalid_time : string;
  (** [Math.random().toString(36).substring(7)] *)
  random_id : string;
  events_insert : OAuth2Client -> GoogleEvent -> Answer (option string);
  fetch_events : string -> GraphEvent -> Answer MeetingReply;
  (** the message of the [TypeError] of a property read on [null] *)
  null_read : string -> string
}.

(** *** Computations: a result or an exception, and the calls made *)

Inductive Result (A : Type) :=
| Return (a : A)
| Raise (e : Exception).
Arguments Return {A} a.
Arguments Raise {A} e.

Definition Script (A : Type) := (Result A * list Call)%type.

Definition pure {A} (a : A) : Script A := (Return a, []).

Definition raise {A} (e : Exception) : Script A := (Raise e, []).

Definition and_then {A B} (m : Script A) (k : A -> Script B) : Script B :=
  match m with
  | (Return a, l) => (fst (k a), l ++ snd (k a))
  | (Raise e, l) => (Raise e, l)
  end.

(** [try { m } catch (error) { h error }] *)
Definition catch {A} (m : Script A) (h : Exception -> Script A) : Script A :=
  match m with
  | (Return a, l) => (Return a, l)
  | (Raise e, l) => (fst (h e), l ++ snd (h e))
  end.

(** An awaited value that may reject. *)
Definition await {A} (x : Answer A) : Script A :=
  match x with
  | Answered a => pure a
  | Rejected m => raise (Rejection m)
  end.

(** A call that is observed outside. *)
Definition perform {A} (c : Call) (x : Answer A) : Script A :=
  and_then (Return tt, [c]) (fun _ => await x).

Declare Scope script_scope.
Delimit Scope script_scope with script.
Notation "x <- m ;; k" := (and_then m (fun x => k))
  (at level 61, m at next level, right associativity) : script_scope.
Local Open Scope script_scope.

(** Modelled from the spec: [UserModel.findById], a point lookup by
    id. *)
Definition lookup (us : list User) (u : string) : option User :=
  find (fun x => String.eqb (user_id x) u) us.

Definition findById (us : list User) (u : string) : Script (option User) :=
  perform (FindById u) (Answered (lookup us u)).

(** [new Date(s).toISOString()] *)
Definition iso (O : Outside) (s : string) : Script string :=
  match toISOString O s with
  | Some t => pure t
  | None => raise (RangeError (invalid_time O))
  end.

(** [`${n}`] of a status. *)
Definition decimal (n : nat) : string :=
  NilZero.string_of_uint (Nat.to_uint n).

(** *** The two creators *)

Definition createCalendarEvent (O : Outside) (us : list User)
    (userId : string) (eventDetails : EventDetails) : Script string :=
  user <- findById us userId ;;
  match user with
  | None => raise (Error "User not found")
  | Some user =>
      match google_accessToken user with
      | None => raise (Error "Google integration not connected")
      | Some accessToken =>
          if String.eqb accessToken EmptyString
          then raise (Error "Google integration not connected")
          else
            let auth :=
              createOAuthClient accessToken (google_refreshToken user) in
            startIso <- iso O (startTime eventDetails) ;;
            endIso <- iso O (endTime eventDetails) ;;
            let event :=
              {| summary := title eventDetails;
                 event_description := description eventDetails;
                 start_dateTime := startIso;
                 end_dateTime := endIso;
                 attendee_emails := map (fun email => email)
                                      (attendees eventDetails);
                 requestId := random_id O |} in
            catch
              (htmlLink <- perform (EventsInsert auth event)
                             (events_insert O auth event) ;;
               pure (or_lit htmlLink EmptyString))
              (fun error =>
                 raise (Error ("Failed to create meeting: "
                               ++ template (message_of error))))
      end
  end.

Definition createTeamsMeeting (O : Outside) (us : list User)
    (userId : string) (eventDetails : EventDetails) : Script TeamsMeeting :=
  user <- findById us userId ;;
  match user with
  | None => raise (Error "User not found")
  | Some user =>
      match microsoft_accessToken user with
      | None => raise (Error "Microsoft integration not connected")
      | Some accessToken =>
          if String.eqb accessToken EmptyString
          then raise (Error "Microsoft integration not connected")
          else
            startIso <- iso O (startTime eventDetails) ;;
            endIso <- iso O (endTime eventDetails) ;;
            let event :=
              {| subject := title eventDetails;
                 body_content := or_lit (description eventDetails) EmptyString;
                 graph_start := startIso;
                 graph_end := endIso;
                 attendee_addresses := map (fun email => email)
                                         (attendees eventDetails) |} in
            let authorization := ("Bearer " ++ accessToken)%string in
            catch
              (response <- perform (PostEvent authorization event)
                             (fetch_events O authorization event) ;;
               if negb (response_ok response) then
                 errorText <- await (reply_text response) ;;
                 raise (Error ("Microsoft Graph API error: "
                               ++ decimal (reply_status response) ++ " "
                               ++ errorText))
               else
                 data <- await (reply_json response) ;;
                 match data with
                 | None => raise (TypeError (null_read O "webLink"))
                 | Some data =>
                     pure {| meetingLink := or_lit (webLink data) EmptyString;
                             joinUrl_of :=
                               or_lit
                                 (match onlineMeeting data with
                                  | Some m => joinUrl m
                                  | None => None
                                  end) EmptyString |}
                 end)
              (fun error =>
                 raise (Error ("Failed to create Teams meeting: "
                               ++ template (message_of error))))
      end
  end.

(** *** Fixtures *)

Definition both_connected : User :=
  {| user_id := "u1";
     integrations :=
       Some {| google := Some {| accessToken := Some "ya29.token";
                                 refreshToken := Some "1//refresh";
                                 lastSync := None;
                                 connected := true |};
               microsoft := Some {| accessToken := Some "eyJ.token";
                                    refreshToken := None;
                                    lastSync := None;
                                    connected := true |} |} |}.

Definition signed_up : User := {| user_id := "u3"; integrations := None |}.

Definition standup : EventDetails :=
  {| title := "Standup"; description := None;
     startTime := "2026-01-05T09:00:00Z"; endTime := "2026-01-05T09:15:00Z";
     attendees := ["alex@example.com"; "sam@example.com"] |}.

Definition no_end : EventDetails :=
  {| title := "Standup"; description := None;
     startTime := "2026-01-05T09:00:00Z"; endTime := "tomorrow-ish";
     attendees := [] |}.

(** An engine that accepts the dates that begin with a digit, and
    providers that refuse: Google by rejecting, Graph with a 403. *)
Definition refusing : Outside :=
  {| toISOString := fun s =>
       match s with
       | String c _ =>
           if ((48 <=? nat_of_ascii c) && (nat_of_ascii c <=? 57))%nat
           then Some s else None
       | EmptyString => None
       end;
     invalid_time := "Invalid time value";
     random_id := "k3x9q";
     events_insert := fun _ _ => Rejected (Some "Insufficient Permission");
     fetch_events := fun _ _ =>
       Answered {| reply_status := 403;
                   reply_text := Answered "Forbidden";
                   reply_json := Rejected None |};
     null_read := fun _ => "Cannot read properties of null" |}.

End Meetings.

(* ===================================================================== *)
(** ** The chat client of the model *)
(* ===================================================================== *)

Module Ollama.

Import Js Meetings.
Local Open Scope string_scope.

(** An entry of the history a chat is started with: the fields that
    [startChat] reads. *)
Record Part := { text : string }.

Record HistoryEntry := {
  h_role : option string;
  h_parts : option (list Part);
  h_content : option string
}.

(** An element of [formattedHistory]. *)
Record Message := { role : string; content : string }.

(** The body of the POST to [/api/generate], but for the name of the
    model. *)
Record Generate := { prompt : string; stop : list string }.

(** [s.includes(sub)] *)
Fixpoint includes (s sub : string) : bool :=
  String.prefix sub s
  || match s with
     | EmptyString => false
     | String _ rest => includes rest sub
     end.

Definition format (h : HistoryEntry) : Message :=
  {| role :=
       match h_role h with
       | Some r =>
           if String.eqb r "model" || String.eqb r "assistant"
           then "assistant" else "user"
       | None => "user"
       end;
     content :=
       match h_parts h with
       | Some (p :: _) => text p
       | _ => or_lit (h_content h) EmptyString
       end |}.

(** [startChat]: the history of the new chat. *)
Definition startChat (history : option (list HistoryEntry)) : list Message :=
  map format (match history with Some l => l | None => [] end).

Definition nl : string := String (ascii_of_nat 10) EmptyString.

Definition header (role : string) : string :=
  "<|start_header_id|>" ++ role ++ "<|end_header_id|>" ++ nl ++ nl.

(** What the callback of [forEach] appends for the message at
    [index]. *)
Definition render (index : nat) (msg : Message) : string :=
  let role :=
    if Nat.eqb index 0 && String.eqb (role msg) "user"
       && includes (content msg) "You are Monocle AI"
    then "system" else role msg in
  header role ++ content msg ++ "<|eot_id|>".

Fixpoint forEach (index : nat) (l : list Message) (fullPrompt : string)
  : string :=
  match l with
  | [] => fullPrompt
  | msg :: rest => forEach (Datatypes.S index) rest (fullPrompt ++ render index msg)
  end.

Definition fullPrompt (formattedHistory : list Message) : string :=
  forEach 0 formattedHistory "<|begin_of_text|>" ++ header "assistant".

(** [sendMessage] on a chat whose history is [formattedHistory]: the
    result, and the history it leaves. *)
Definition sendMessage (post : Generate -> Answer string) (message : string)
    (formattedHistory : list Message) : Result string * list Message :=
  let sent :=
    (formattedHistory ++ [{| role := "user"; content := message |}])%list in
  match post {| prompt := fullPrompt sent;
                stop := ["<|eot_id|>"; "<|end_of_text|>"] |} with
  | Answered responseText =>
      (Return responseText,
       (sent ++ [{| role := "assistant"; content := responseText |}])%list)
  | Rejected m =>
      (Raise (Error ("Ollama chat failed: " ++ template m)), sent)
  end.

(** The messages sent one after the other on one chat, whatever each
    send returns: the results, and the history at the end. *)
Fixpoint converse (post : Generate -> Answer string) (messages : list string)
    (formattedHistory : list Message)
  : list (Result string) * list Message :=
  match messages with
  | [] => ([], formattedHistory)
  | message :: rest =>
      let r := sendMessage post message formattedHistory in
      let rs := converse post rest (snd r) in
      (fst r :: fst rs, snd rs)
  end.

(** The number of results that are returned values. *)
Definition returned {A} (rs : list (Result A)) : nat :=
  length (filter (fun r => match r with Return _ => true | Raise _ => false end)
            rs).

Definition spoken (m : Message) : Prop :=
  role m = "user" \/ role m = "assistant".

(** A model that does not answer. *)
Definition unreachable : Generate -> Answer string :=
  fun _ => Rejected (Some "connect ECONNREFUSED").

Definition greeting : list Message :=
  [ {| role := "user"; content := "Hello. You are Monocle AI, an assistant." |};
    {| role := "assistant"; content := "Understood." |} ].

End Ollama.

(* ===================================================================== *)
(** ** Running computations *)
(* ===================================================================== *)

Module Run.

Import Js JSON Extract Model Store IntegrationService Spec.
Local Open Scope sync_scope.
Local Open Scope string_scope.

Lemma call_returns {A} S r (a : A) w :
  call S r (Returns a) w = (Ok a, tick S (Remote r) w).
Proof. reflexivity. Qed.

Lemma call_fails {A} S r w :
  call S r (@Fails A) w = (Throw (RemoteFailure r), tick S (Remote r) w).
Proof. reflexivity. Qed.

(** *** The regular expression match *)

Lemma through_last_close_none post :
  lacks "}" post = true -> through_last_close post = None.
Proof.
  induction post as [|c r IH]; simpl; [reflexivity|].
  rewrite andb_true_iff, negb_true_iff. intros [Hc Hr].
  rewrite (IH Hr), Hc. reflexivity.
Qed.

Lemma through_last_close_span mid post :
  lacks "}" post = true ->
  through_last_close (mid ++ String "}" post) = Some (mid ++ "}").
Proof.
  intros Hpost. induction mid as [|c r IH]; simpl.
  - rewrite (through_last_close_none _ Hpost). reflexivity.
  - rewrite IH. reflexivity.
Qed.

Lemma jsonMatch_skip pre rest :
  lacks "{" pre = true -> jsonMatch (pre ++ rest) = jsonMatch rest.
Proof.
  induction pre as [|c r IH]; simpl; [reflexivity|].
  rewrite andb_true_iff, negb_true_iff. intros [Hc Hr].
  rewrite Hc. auto.
Qed.

(** The match is the span from the first opening brace to the last
    closing brace. *)
Lemma jsonMatch_span pre mid post :
  lacks "{" pre = true -> lacks "}" post = true ->
  jsonMatch (pre ++ String "{" (mid ++ String "}" post))
  = Some (String "{" (mid ++ "}")).
Proof.
  intros Hpre Hpost. rewrite (jsonMatch_skip _ _ Hpre). simpl.
  rewrite (through_last_close_span _ _ Hpost). reflexivity.
Qed.

Lemma append_assoc (a b c : string) : (a ++ b) ++ c = a ++ (b ++ c).
Proof. induction a as [|x a IH]; simpl; [|rewrite IH]; reflexivity. Qed.

Lemma through_last_close_some s mid post :
  s = mid ++ String "}" post -> through_last_close s <> None.
Proof.
  revert s. induction mid as [|c mid IH]; intros s ->; simpl.
  - destruct (through_last_close post); discriminate.
  - specialize (IH _ eq_refl).
    destruct (through_last_close (mid ++ String "}" post)); [discriminate|].
    congruence.
Qed.

(** There is no match only when the text has no opening brace with a
    closing brace after it. *)
Lemma jsonMatch_none text :
  jsonMatch text = None ->
  forall pre mid post, text <> pre ++ String "{" (mid ++ String "}" post).
Proof.
  intros Hnone pre. revert text Hnone.
  induction pre as [|c pre IH]; intros text Hnone mid post ->; simpl in Hnone.
  - pose proof (through_last_close_some _ mid post eq_refl) as H.
    destruct (through_last_close (mid ++ String "}" post)); [discriminate|].
    congruence.
  - destruct (Ascii.eqb c "{").
    + pose proof (through_last_close_some
                    (pre ++ String "{" (mid ++ String "}" post))
                    (pre ++ String "{" mid) post) as H.
      destruct (through_last_close _); [discriminate|].
      apply H; [|reflexivity].
      rewrite append_assoc. reflexivity.
    + apply (IH _ Hnone mid post). reflexivity.
Qed.

(** *** The classifier *)

Lemma classify_run S subject from snippet w :
  classifyAndPrioritizeEmail S subject from snippet w
  = let p := prompt subject from snippet in
    let w1 := tick S (Remote (GenerateContent p)) w in
    match generateContent S p with
    | Fails => (Ok fallback, w1)
    | Returns None => (Ok fallback, w1)
    | Returns (Some text) =>
        match jsonMatch text with
        | Some m =>
            match JSON.parse m with
            | Some v => (Ok v, w1)
            | None => (Ok fallback, w1)
            end
        | None => (Ok fallback, w1)
        end
    end.
Proof.
  unfold classifyAndPrioritizeEmail, try_catch, bind, call, emit, decode.
  cbv zeta.
  destruct (generateContent S (prompt subject from snippet)) as [|[text|]];
    simpl; try reflexivity.
  destruct (jsonMatch text) as [m|]; simpl; [|reflexivity].
  destruct (JSON.parse m); reflexivity.
Qed.



(** C6, as the code has it. When the response text has an opening
    brace and a closing brace after it, the classifier decodes the
    span from the first opening brace to the last closing brace: the
    text before the first and after the last does not matter, and a
    span that does not decode gives the fallback. *)
Theorem classifier_decodes_the_span S subject from snippet w pre mid post :
  lacks "{" pre = true ->
  lacks "}" post = true ->
  generateContent S (prompt subject from snippet)
  = Returns (Some (pre ++ String "{" (mid ++ String "}" post))) ->
  fst (classifyAndPrioritizeEmail S subject from snippet w)
  = Ok (decode_span mid).
Proof.
  intros Hpre Hpost Hgen. rewrite classify_run. cbv zeta.
  rewrite Hgen, (jsonMatch_span _ _ _ Hpre Hpost). unfold decode_span.
  destruct (JSON.parse _); reflexivity.
Qed.

Lemma classifier_decodes_the_span_witness :
  let S := answering (dq "Here you go: {'isWork': true, 'priority': 'high'} Thanks!")
             no_services in
  lacks "{" "Here you go: " = true
  /\ lacks "}" " Thanks!" = true
  /\ fst (classifyAndPrioritizeEmail S "Outage" "ops" "db down" empty_world)
     = Ok (decode_span (dq "'isWork': true, 'priority': 'high'")).
Proof.
  cbv zeta. split; [reflexivity|]. split; [reflexivity|].
  apply (classifier_decodes_the_span _ "Outage" "ops" "db down" empty_world
           "Here you go: " (dq "'isWork': true, 'priority': 'high'")
           " Thanks!"); reflexivity.
Defined.

(** C6, as stated, fails: a response with a complete object followed
    by text that has a closing brace is not decoded from its first
    balanced substring; the span to the last closing brace does not
    decode and the judgment is the fallback. *)
Lemma first_balanced_is_not_what_is_parsed : ~ parses_first_balanced.
Proof.
  intros H.
  specialize (H (answering (dq "{'isWork': false, 'priority': 'low'} (see {notes})")
                   no_services)
                "Sale" "shop" "50% off"
                (dq "{'isWork': false, 'priority': 'low'} (see {notes})")
                empty_world eq_refl).
  vm_compute in H.
  assert (Hne : Some (dq "{'isWork': false, 'priority': 'low'}") <> None)
    by discriminate.
  specialize (H Hne). discriminate H.
Qed.

(** *** The entry points *)

Lemma sync_run S p u override w :
  sync S p u override w
  = let w1 := tick S (UserFindById u) w in
    match lookup_user u w with
    | None => (Ok 0, w1)
    | Some user =>
        match Js.or override (stored_token p user) with
        | None => (Ok 0, w1)
        | Some accessToken =>
            if String.eqb accessToken EmptyString then (Ok 0, w1)
            else try_catch (cycle S p u user accessToken) (fun _ => ret 0) w1
        end
    end.
Proof.
  destruct p; cbv zeta; simpl;
    unfold syncGmail, syncCalendar, syncTasks, syncTeams, findById, bind,
      emit, lookup_user; simpl;
    (destruct (find _ (users w)) as [user|]; [|reflexivity]);
    (destruct (Js.or override _) as [tok|]; [|reflexivity]);
    destruct (String.eqb tok EmptyString); reflexivity.
Qed.

Lemma remote_requests_tick S ev w :
  remote_requests (tick S ev w)
  = (remote_requests w ++ filter is_remote [(clock w, ev)])%list.
Proof. unfold remote_requests; simpl. apply filter_app. Qed.

Lemma or_falsy a b :
  Js.truthy a = false -> Js.truthy b = false ->
  match Js.or a b with
  | Some t => String.eqb t EmptyString = true
  | None => True
  end.
Proof.
  unfold Js.or. intros Ha Hb. rewrite Ha.
  destruct b as [t|]; simpl in *; [|exact I].
  now apply negb_false_iff in Hb.
Qed.

(** C7. When no access token is available for the provider, neither
    an override from the caller nor a stored token, every entry point
    returns 0 and issues no request to a remote service: all it has
    done is look the user up. *)
Theorem no_credentials_no_remote_call S p u override w :
  no_token p u override w ->
  sync S p u override w = (Ok 0, tick S (UserFindById u) w)
  /\ remote_requests (snd (sync S p u override w)) = remote_requests w.
Proof.
  intros [Ho Hs].
  assert (E : sync S p u override w = (Ok 0, tick S (UserFindById u) w)).
  { rewrite sync_run. cbv zeta.
    destruct (lookup_user u w) as [user|]; [|reflexivity].
    pose proof (or_falsy override _ Ho (Hs user eq_refl)) as H.
    destruct (Js.or override (stored_token p user)) as [t|]; [|reflexivity].
    rewrite H. reflexivity. }
  split; [exact E|].
  rewrite E. simpl. rewrite remote_requests_tick. simpl. apply app_nil_r.
Qed.

Lemma no_credentials_no_remote_call_witness :
  lookup_user "u1" connected_world = Some connected_user
  /\ no_token Teams "u1" (Some EmptyString) connected_world
  /\ sync one_chat Teams "u1" (Some EmptyString) connected_world
     = (Ok 0, tick one_chat (UserFindById "u1") connected_world)
  /\ remote_requests
       (snd (sync one_chat Teams "u1" (Some EmptyString) connected_world))
     = [].
Proof.
  assert (H : no_token Teams "u1" (Some EmptyString) connected_world).
  { split; [reflexivity|]. intros user Hu. injection Hu as <-. reflexivity. }
  split; [reflexivity|]. split; [exact H|].
  exact (no_credentials_no_remote_call one_chat Teams "u1"
           (Some EmptyString) connected_world H).
Defined.

(** C10. [syncTeams] drops a chat that has no last message preview, or
    no body in it, or no content in the body: the loop body leaves the
    world as it is, so no dedup lookup is made and no item created, and
    the count is unchanged; the loop over the chats runs as it would
    without that chat. *)
Theorem teams_drops_chat_without_content S u chat count w :
  lacks_content chat ->
  syncTeams_body S u chat count w = (Ok count, w)
  /\ forall pre post,
       for_of (syncTeams_body S u) (pre ++ chat :: post)%list count w
       = for_of (syncTeams_body S u) (pre ++ post)%list count w.
Proof.
  intros H.
  assert (E : last_message chat = None).
  { unfold last_message.
    destruct H as [H|m H Hb|m b H Hb Hc]; rewrite H; try reflexivity.
    - rewrite Hb; reflexivity.
    - rewrite Hb, Hc; reflexivity. }
  assert (B : forall n w', syncTeams_body S u chat n w' = (Ok n, w')).
  { intros n w'. unfold syncTeams_body. rewrite E. reflexivity. }
  split; [apply B|].
  intros pre post. revert count w.
  induction pre as [|c pre IH]; intros count w; simpl.
  - unfold bind. rewrite B. reflexivity.
  - unfold bind. destruct (syncTeams_body S u c count w) as [[n|e] w'];
      [apply IH|reflexivity].
Qed.

Lemma teams_drops_chat_without_content_witness :
  lacks_content chat_without_preview
  /\ syncTeams_body no_services "u1" chat_without_preview 3 empty_world
     = (Ok 3, empty_world).
Proof.
  assert (H : lacks_content chat_without_preview)
    by (apply no_preview; reflexivity).
  split; [exact H|].
  exact (proj1 (teams_drops_chat_without_content no_services "u1"
                  chat_without_preview 3 empty_world H)).
Defined.

(** *** Every loop body runs its plan *)

Lemma classify_judgment S subject from snippet w :
  classifyAndPrioritizeEmail S subject from snippet w
  = (Ok (judgment S subject from snippet),
     tick S (Remote (GenerateContent (prompt subject from snippet))) w).
Proof.
  rewrite classify_run. cbv zeta. unfold judgment.
  destruct (generateContent S _) as [|[text|]]; try reflexivity.
  destruct (jsonMatch text) as [m|]; [|reflexivity].
  destruct (JSON.parse m); reflexivity.
Qed.

Lemma calendar_body_plan S u ev count w :
  syncCalendar_body S u ev count w
  = execute S u "googleId" (calendar_plan u ev) count w.
Proof.
  unfold syncCalendar_body, execute, calendar_plan, findOne_item, bind, emit.
  simpl. destruct (find _ (items w)); reflexivity.
Qed.

Lemma task_body_plan S u list task count w :
  syncTasks_task S u list task count w
  = execute S u "googleId" (task_plan u list task) count w.
Proof.
  unfold syncTasks_task, execute, task_plan, findOne_item, bind, emit.
  simpl. destruct (find _ (items w)); reflexivity.
Qed.

Lemma teams_body_plan S u chat count w :
  syncTeams_body S u chat count w
  = execute S u "microsoftId" (teams_plan u chat) count w.
Proof.
  unfold syncTeams_body, execute, teams_plan.
  destruct (last_message chat) as [[m text]|]; [|reflexivity].
  unfold findOne_item, bind, emit. simpl.
  destruct (find _ (items w)); reflexivity.
Qed.

Lemma gmail_body_plan S u auth msg count w :
  syncGmail_body S u auth msg count w
  = execute S u "googleId" (gmail_plan S u auth msg) count w.
Proof.
  unfold syncGmail_body, gmail_plan.
  destruct (gmail_messages_get S auth (msg_id msg)) as [|details] eqn:Hget.
  - unfold bind at 1. rewrite call_fails. reflexivity.
  - unfold bind at 1. rewrite call_returns. cbv zeta.
    unfold execute, findOne_item, bind at 1 2, emit. simpl.
    destruct (find _ (items w)); [reflexivity|].
    unfold bind at 1. rewrite classify_judgment.
    destruct (negb (JSON.truthy _)); reflexivity.
Qed.

Lemma materialize_run S u mk p count w :
  materialize S u mk p count w
  = attach S mk p count (fst (resolve_thread S u w)) (snd (resolve_thread S u w)).
Proof.
  unfold materialize, getOrCreateExternalThread, resolve_thread, attach,
    findOne_thread, save_thread, createItem, findByIdAndUpdate, bind, emit,
    now, ret. simpl.
  destruct (find _ (threads w)) as [th|]; simpl.
  - destruct (rejects S _); reflexivity.
  - destruct (rejects S _); reflexivity.
Qed.

Lemma calendar_plan_ok u ev : plan_ok u "googleId" (calendar_plan u ev).
Proof.
  constructor; try reflexivity.
  - intros t tid k [<-|[<-|[]]]; reflexivity.
  - left; split; reflexivity.
Qed.

Lemma task_plan_ok u list task : plan_ok u "googleId" (task_plan u list task).
Proof.
  constructor; try reflexivity.
  - intros t tid k [<-|[<-|[]]]; reflexivity.
  - intros t t' tid. unfold validation_view, task_input; simpl.
    destruct (due task) as [d|]; [destruct (String.eqb d EmptyString)|];
      reflexivity.
  - left; split; reflexivity.
Qed.

Lemma teams_plan_ok u chat : plan_ok u "microsoftId" (teams_plan u chat).
Proof.
  unfold teams_plan. destruct (last_message chat) as [[m text]|]; [|exact I].
  constructor; try reflexivity.
  - intros t tid k [<-|[<-|[]]]; reflexivity.
  - intros t t' tid. unfold validation_view, teams_input; simpl.
    destruct (createdDateTime m) as [d|]; [destruct (String.eqb d EmptyString)|];
      reflexivity.
  - left; split; reflexivity.
Qed.

Lemma gmail_plan_ok S u auth msg : plan_ok u "googleId" (gmail_plan S u auth msg).
Proof.
  unfold gmail_plan.
  destruct (gmail_messages_get S auth (msg_id msg)) as [|details]; [exact I|].
  cbv zeta. destruct (negb (JSON.truthy _)); [exact I|].
  constructor; try reflexivity.
  - intros t tid k [<-|[<-|[]]]; reflexivity.
  - unfold gmail_priority_update.
    destruct (is_string _ "high") eqn:E; [right|left]; auto.
Qed.

(** *** What the elementary operations leave alone *)

Lemma ticks_items S evs w : items (ticks S evs w) = items w.
Proof. revert w; induction evs as [|ev r IH]; intros w; simpl; [|rewrite IH]; reflexivity. Qed.

Lemma ticks_threads S evs w : threads (ticks S evs w) = threads w.
Proof. revert w; induction evs as [|ev r IH]; intros w; simpl; [|rewrite IH]; reflexivity. Qed.

Lemma ticks_nextId S evs w : nextId (ticks S evs w) = nextId w.
Proof. revert w; induction evs as [|ev r IH]; intros w; simpl; [|rewrite IH]; reflexivity. Qed.

Lemma find_snoc {A} (f : A -> bool) l x :
  find f (l ++ [x])%list
  = match find f l with
    | Some y => Some y
    | None => if f x then Some x else None
    end.
Proof.
  induction l as [|a l IH]; simpl; [reflexivity|].
  destruct (f a); [reflexivity|exact IH].
Qed.

Lemma is_thread_external u t id :
  is_thread u "External Imports" (external_thread u t id) = true.
Proof. unfold is_thread; simpl. rewrite String.eqb_refl; reflexivity. Qed.

Lemma resolve_thread_items S u w :
  items (snd (resolve_thread S u w)) = items w.
Proof. unfold resolve_thread; destruct (find _ (threads w)); reflexivity. Qed.

(** After [getOrCreateExternalThread] the import thread of the user
    is in the store, under the id returned. *)
Lemma resolve_thread_found S u w :
  exists th,
    find (is_thread u "External Imports") (threads (snd (resolve_thread S u w)))
    = Some th
    /\ thread_id th = fst (resolve_thread S u w).
Proof.
  unfold resolve_thread.
  destruct (find _ (threads w)) as [th|] eqn:E; simpl.
  - exists th; auto.
  - rewrite find_snoc, E, is_thread_external. eexists; split; reflexivity.
Qed.

(** *** Invariants of a sync run

    A property of the world that the elementary steps keep is kept by
    every loop body, every cycle and every entry point.  The steps are:
    an event; the creation of the import thread; the insert of an item
    that the dedup lookup did not find, with the update of its thread;
    a write to the user documents. *)
Section Invariant.

Variable S : Services.
Variable I : World -> Prop.

Hypothesis I_tick : forall ev w, I w -> I (tick S ev w).

Hypothesis I_thread :
  forall u t w,
    I w -> find (is_thread u "External Imports") (threads w) = None ->
    I (add_thread (external_thread u t (nextId w)) w).

Hypothesis I_attach :
  forall u key rid mk p count tid th w,
    In key remote_keys -> import_ok u key rid mk p ->
    find (has_remote_id u key rid) (items w) = None ->
    find (is_thread u "External Imports") (threads w) = Some th ->
    thread_id th = tid ->
    I w -> I (snd (attach S mk p count tid w)).

Lemma ret_keeps {A} (a : A) : keeps I (ret a).
Proof. intros w H; exact H. Qed.

Lemma throw_keeps {A} e : keeps I (@throw A e).
Proof. intros w H; exact H. Qed.

Lemma now_keeps : keeps I now.
Proof. intros w H; exact H. Qed.

Lemma bind_keeps {A B} (m : M A) (k : A -> M B) :
  keeps I m -> (forall a, keeps I (k a)) -> keeps I (bind m k).
Proof.
  intros Hm Hk w H. unfold bind. specialize (Hm w H).
  destruct (m w) as [[a|e] w']; simpl in *; [apply Hk|]; assumption.
Qed.

Lemma try_catch_keeps {A} (m : M A) h :
  keeps I m -> (forall e, keeps I (h e)) -> keeps I (try_catch m h).
Proof.
  intros Hm Hh w H. unfold try_catch. specialize (Hm w H).
  destruct (m w) as [[a|e] w']; simpl in *; [|apply Hh]; assumption.
Qed.

Lemma for_of_keeps {C} (body : C -> nat -> M nat) cs :
  (forall c n, In c cs -> keeps I (body c n)) ->
  forall n, keeps I (for_of body cs n).
Proof.
  induction cs as [|c cs IH]; intros Hb n; simpl.
  - apply ret_keeps.
  - apply bind_keeps; [apply Hb; left; reflexivity|].
    intros a. apply IH. intros c' n' Hin. apply Hb. right; exact Hin.
Qed.

Lemma ticks_keeps evs w : I w -> I (ticks S evs w).
Proof. revert w; induction evs as [|ev r IH]; intros w H; simpl; auto. Qed.

Lemma emit_keeps ev : keeps I (emit S ev).
Proof. intros w H; simpl; auto. Qed.

Lemma call_keeps {A} r (x : Response A) : keeps I (call S r x).
Proof.
  unfold call. apply bind_keeps; [apply emit_keeps|].
  intros _. destruct x; [apply throw_keeps|apply ret_keeps].
Qed.

Lemma reading_keeps {A} r (x : Response A) : keeps I (reading r x).
Proof. destruct x; [apply throw_keeps|apply ret_keeps]. Qed.

Lemma resolve_thread_keeps u w : I w -> I (snd (resolve_thread S u w)).
Proof.
  intros H. unfold resolve_thread.
  destruct (find _ (threads w)) as [th|] eqn:E; simpl; auto.
  apply I_tick.
  apply (I_thread u _ (tick S (ThreadFindOne u "External Imports") w));
    auto.
Qed.

Lemma materialize_keeps u key rid mk p count w :
  In key remote_keys -> import_ok u key rid mk p ->
  find (has_remote_id u key rid) (items w) = None ->
  I w -> I (snd (materialize S u mk p count w)).
Proof.
  intros Hk Hok Hfind H. rewrite materialize_run.
  destruct (resolve_thread_found S u w) as (th & Hth & Hid).
  apply (I_attach u key rid mk p count _ th); auto.
  - rewrite resolve_thread_items; exact Hfind.
  - apply resolve_thread_keeps; exact H.
Qed.

Lemma execute_keeps u key pl count :
  In key remote_keys -> plan_ok u key pl -> keeps I (execute S u key pl count).
Proof.
  intros Hk Hok w H. destruct pl as [evs e| |evs rid v]; simpl.
  - apply ticks_keeps; exact H.
  - exact H.
  - destruct (find _ (items w)) eqn:E; simpl.
    + apply ticks_keeps; exact H.
    + destruct v as [evs2|evs2 mk p]; simpl.
      * do 2 apply ticks_keeps; exact H.
      * apply (materialize_keeps u key rid); auto.
        -- rewrite !ticks_items; exact E.
        -- do 2 apply ticks_keeps; exact H.
Qed.

Lemma googleId_key : In "googleId" remote_keys.
Proof. left; reflexivity. Qed.

Lemma microsoftId_key : In "microsoftId" remote_keys.
Proof. right; left; reflexivity. Qed.

Lemma gmail_body_keeps u auth msg count : keeps I (syncGmail_body S u auth msg count).
Proof.
  intros w H. rewrite gmail_body_plan.
  apply execute_keeps; auto using googleId_key, gmail_plan_ok.
Qed.

Lemma calendar_body_keeps u ev count : keeps I (syncCalendar_body S u ev count).
Proof.
  intros w H. rewrite calendar_body_plan.
  apply execute_keeps; auto using googleId_key, calendar_plan_ok.
Qed.

Lemma task_body_keeps u list task count :
  keeps I (syncTasks_task S u list task count).
Proof.
  intros w H. rewrite task_body_plan.
  apply execute_keeps; auto using googleId_key, task_plan_ok.
Qed.

Lemma teams_body_keeps u chat count : keeps I (syncTeams_body S u chat count).
Proof.
  intros w H. rewrite teams_body_plan.
  apply execute_keeps; auto using microsoftId_key, teams_plan_ok.
Qed.

Lemma calendar_cycle_keeps u auth : keeps I (syncCalendar_cycle S u auth).
Proof.
  unfold syncCalendar_cycle.
  apply bind_keeps; [apply now_keeps|intros t].
  apply bind_keeps; [apply call_keeps|intros res].
  apply bind_keeps; [|intros n; apply ret_keeps].
  apply for_of_keeps. intros; apply calendar_body_keeps.
Qed.

Lemma tasks_cycle_keeps u auth : keeps I (syncTasks_cycle S u auth).
Proof.
  unfold syncTasks_cycle.
  apply bind_keeps; [apply call_keeps|intros res].
  apply bind_keeps; [|intros n; apply ret_keeps].
  apply for_of_keeps. intros list n _. unfold syncTasks_list.
  apply bind_keeps; [apply call_keeps|intros res2].
  apply for_of_keeps. intros; apply task_body_keeps.
Qed.

(** The two cycles that stamp [lastSync] also write a user. *)
Hypothesis I_users : forall us w, I w -> I (put_users us w).

Lemma save_user_keeps user : keeps I (save_user S user).
Proof. intros w H; simpl. apply I_tick, I_users, H. Qed.

Lemma updateOne_keeps u t : keeps I (updateOne_lastSync S u t).
Proof. intros w H; simpl. apply I_tick, I_users, H. Qed.

Lemma gmail_cycle_keeps u user auth : keeps I (syncGmail_cycle S u user auth).
Proof.
  unfold syncGmail_cycle.
  apply bind_keeps; [apply call_keeps|intros res].
  apply bind_keeps; [apply for_of_keeps; intros; apply gmail_body_keeps|].
  intros n. apply bind_keeps; [|intros _; apply ret_keeps].
  unfold stamp_google_lastSync.
  destruct (integrations user) as [ig|]; [|apply ret_keeps].
  destruct (google ig); [|apply ret_keeps].
  apply bind_keeps; [apply now_keeps|intros t; apply save_user_keeps].
Qed.

Lemma teams_cycle_keeps u user tok : keeps I (syncTeams_cycle S u user tok).
Proof.
  unfold syncTeams_cycle. cbv zeta.
  apply bind_keeps; [apply call_keeps|intros response].
  destruct (negb (reply_ok response)).
  - destruct (Nat.eqb _ 401); [apply ret_keeps|].
    apply bind_keeps; [apply reading_keeps|intros; apply throw_keeps].
  - apply bind_keeps; [apply reading_keeps|intros data].
    apply bind_keeps; [apply for_of_keeps; intros; apply teams_body_keeps|].
    intros n. apply bind_keeps; [|intros _; apply ret_keeps].
    unfold stamp_microsoft_lastSync.
    destruct (integrations user) as [ig|]; [|apply ret_keeps].
    destruct (microsoft ig); [|apply ret_keeps].
    apply bind_keeps; [apply now_keeps|intros t; apply updateOne_keeps].
Qed.

Lemma cycle_keeps p u user tok : keeps I (cycle S p u user tok).
Proof.
  destruct p; simpl.
  - apply gmail_cycle_keeps.
  - apply calendar_cycle_keeps.
  - apply tasks_cycle_keeps.
  - apply teams_cycle_keeps.
Qed.

Lemma sync_keeps p u override : keeps I (sync S p u override).
Proof.
  intros w H. rewrite sync_run. cbv zeta.
  pose proof (I_tick (UserFindById u) w H) as H1.
  destruct (lookup_user u w) as [user|]; [|exact H1].
  destruct (Js.or override _) as [tok|]; [|exact H1].
  destruct (String.eqb tok EmptyString); [exact H1|].
  apply try_catch_keeps; auto.
  - apply cycle_keeps.
  - intros e; apply ret_keeps.
Qed.

End Invariant.

(** *** Errors and partial progress *)

Lemma items_kept_refl w : items_kept w w.
Proof. exists []. symmetry; apply app_nil_r. Qed.

Lemma attach_items S mk p count tid w :
  items (snd (attach S mk p count tid w)) = items w
  \/ exists it, items (snd (attach S mk p count tid w)) = (items w ++ [it])%list
                /\ item_id it = nextId w
                /\ item it = mk (clock w) tid.
Proof.
  unfold attach. destruct (rejects S _); simpl; [left; reflexivity|].
  right. eexists; repeat split.
Qed.

(** No step of a run removes an item. *)
Lemma sync_keeps_items S p u override w :
  items_kept w (snd (sync S p u override w)).
Proof.
  apply (sync_keeps S (items_kept w)); try (intros; assumption).
  - intros u' key rid mk q count tid th w1 _ _ _ _ _ [new Hnew].
    unfold items_kept.
    destruct (attach_items S mk q count tid w1) as [E|(it & E & _)]; rewrite E.
    + exists new; exact Hnew.
    + exists (new ++ [it])%list. rewrite Hnew, app_assoc. reflexivity.
  - apply items_kept_refl.
Qed.

(** A loop that throws at a candidate throws in the world that the
    candidates before it have left, with what they have created. *)
Lemma for_of_abort {C} (body : C -> nat -> M nat) pre c post n w k w1 e w2 :
  for_of body pre n w = (Ok k, w1) ->
  body c k w1 = (Throw e, w2) ->
  for_of body (pre ++ c :: post)%list n w = (Throw e, w2).
Proof.
  revert n w. induction pre as [|a pre IH]; intros n w Hpre Hc; simpl in *.
  - injection Hpre as <- <-. unfold bind. rewrite Hc. reflexivity.
  - unfold bind in *. destruct (body a n w) as [[m|e0] wa]; [|discriminate].
    apply IH; assumption.
Qed.

(** C5. An entry point never throws.  When its cycle throws (a failed
    fetch, an error in the loop), it returns 0 in the world as the error
    left it: the items created before the error are there, and the items
    that were there before the run are there too.  A remote status that
    is not a success, which only [syncTeams] looks at, gives 0 as
    well.  (The lookup of the user, which comes before the [try] block,
    is a point lookup of the store and does not fail.) *)
Theorem sync_never_throws S p u override w :
  (exists n w', sync S p u override w = (Ok n, w'))
  /\ (forall user tok e w1,
        lookup_user u w = Some user ->
        Js.or override (stored_token p user) = Some tok ->
        tok <> EmptyString ->
        cycle S p u user tok (tick S (UserFindById u) w) = (Throw e, w1) ->
        sync S p u override w = (Ok 0, w1) /\ items_kept w w1)
  /\ (forall user tok reply,
        p = Teams ->
        lookup_user u w = Some user ->
        Js.or override (stored_token p user) = Some tok ->
        graph_chats S tok = Returns reply ->
        reply_ok reply = false ->
        fst (sync S p u override w) = Ok 0).
Proof.
  split; [|split].
  - rewrite sync_run. cbv zeta.
    destruct (lookup_user u w) as [user|]; [|eauto].
    destruct (Js.or override _) as [tok|]; [|eauto].
    destruct (String.eqb tok EmptyString); [eauto|].
    unfold try_catch.
    destruct (cycle S p u user tok _) as [[n|e] w']; unfold ret; eauto.
  - intros user tok e w1 Hu Htok Hne Hc.
    assert (E : sync S p u override w = (Ok 0, w1)).
    { rewrite sync_run. cbv zeta. rewrite Hu, Htok.
      destruct (String.eqb_spec tok EmptyString) as [->|_]; [congruence|].
      unfold try_catch. rewrite Hc. reflexivity. }
    split; [exact E|].
    pose proof (sync_keeps_items S p u override w) as H.
    rewrite E in H. exact H.
  - intros user tok reply -> Hu Htok Hreply Hok.
    rewrite sync_run. cbv zeta. rewrite Hu, Htok.
    destruct (String.eqb tok EmptyString); [reflexivity|].
    unfold try_catch, cycle, syncTeams_cycle. cbv zeta.
    unfold bind at 1. rewrite Hreply, call_returns, Hok. simpl negb. cbv iota.
    destruct (Nat.eqb (status reply) 401); [reflexivity|].
    unfold bind, reading. destruct (text_body reply); reflexivity.
Qed.

Lemma sync_never_throws_witness :
  exists w1,
    sync flaky_tasks Tasks "u1" None connected_world = (Ok 0, w1)
    /\ items_kept connected_world w1
    /\ length (items w1) = 1.
Proof.
  destruct (sync_never_throws flaky_tasks Tasks "u1" None connected_world)
    as [_ [H _]].
  eexists.
  destruct (H connected_user "ya29.token"
              (RemoteFailure
                 (TasksList (createOAuthClient "ya29.token" (Some "1//refresh"))
                    "l2"))
              _ eq_refl eq_refl ltac:(discriminate) eq_refl) as [E K].
  split; [exact E|]. split; [exact K|]. reflexivity.
Defined.

(** *** The stamp of the last sync *)

Lemma attach_users S mk p count tid w :
  users (snd (attach S mk p count tid w)) = users w.
Proof. unfold attach. destruct (rejects S _); reflexivity. Qed.

(** [syncCalendar] and [syncTasks] never write a user document. *)
Lemma calendar_and_tasks_leave_users S u override w :
  users (snd (syncCalendar S u override w)) = users w
  /\ users (snd (syncTasks S u override w)) = users w.
Proof.
  assert (K : forall p user tok w1,
             p = Calendar \/ p = Tasks ->
             users w1 = users w -> users (snd (cycle S p u user tok w1)) = users w).
  { intros p user tok w1 Hp H1.
    assert (At : forall u' key rid mk q count tid th w2,
               In key remote_keys -> import_ok u' key rid mk q ->
               find (has_remote_id u' key rid) (items w2) = None ->
               find (is_thread u' "External Imports") (threads w2) = Some th ->
               thread_id th = tid ->
               users w2 = users w ->
               users (snd (attach S mk q count tid w2)) = users w).
    { intros. rewrite attach_users. assumption. }
    destruct Hp as [-> | ->]; simpl.
    - apply (calendar_cycle_keeps S (fun x => users x = users w));
        try (intros; assumption). exact At.
    - apply (tasks_cycle_keeps S (fun x => users x = users w));
        try (intros; assumption). exact At. }
  split.
  - change (syncCalendar S u override w) with (sync S Calendar u override w).
    rewrite sync_run. cbv zeta.
    destruct (lookup_user u w) as [user|]; [|reflexivity].
    destruct (Js.or override _) as [tok|]; [|reflexivity].
    destruct (String.eqb tok EmptyString); [reflexivity|].
    unfold try_catch.
    pose proof (K Calendar user tok (tick S (UserFindById u) w)
                  (or_introl eq_refl) eq_refl) as H.
    destruct (cycle S Calendar u user tok _) as [[n|e] w']; exact H.
  - change (syncTasks S u override w) with (sync S Tasks u override w).
    rewrite sync_run. cbv zeta.
    destruct (lookup_user u w) as [user|]; [|reflexivity].
    destruct (Js.or override _) as [tok|]; [|reflexivity].
    destruct (String.eqb tok EmptyString); [reflexivity|].
    unfold try_catch.
    pose proof (K Tasks user tok (tick S (UserFindById u) w)
                  (or_intror eq_refl) eq_refl) as H.
    destruct (cycle S Tasks u user tok _) as [[n|e] w']; exact H.
Qed.

(** C3, at an input where the code departs from it. A calendar sync
    that fetches one new event and imports it without any error returns
    1 and leaves [lastSync] of the Google integration as it was, unset,
    and so does a tasks sync that completes without error; the Gmail
    sync of the same user, in the same world, stamps it. *)
Theorem calendar_success_leaves_lastSync :
  fst (syncCalendar one_event "u1" None connected_world) = Ok 1
  /\ google_lastSync (snd (syncCalendar one_event "u1" None connected_world)) "u1"
     = None
  /\ fst (syncTasks one_event "u1" None connected_world) = Ok 0
  /\ google_lastSync (snd (syncTasks one_event "u1" None connected_world)) "u1"
     = None
  /\ fst (syncGmail one_event "u1" None connected_world) = Ok 0
  /\ google_lastSync (snd (syncGmail one_event "u1" None connected_world)) "u1"
     = Some 1002.
Proof. repeat split; vm_compute; reflexivity. Qed.

(** *** Uniqueness of the remote identifiers *)

Lemma remote_ids_snoc key l it :
  remote_ids key (l ++ [it])%list
  = (remote_ids key l
     ++ match remote_id key it with Some k => [k] | None => [] end)%list.
Proof.
  induction l as [|a l IH]; simpl.
  - destruct (remote_id key it); reflexivity.
  - rewrite IH. destruct (remote_id key a); reflexivity.
Qed.

Lemma has_remote_id_iff u key rid it :
  has_remote_id u key rid it = true <-> remote_id key it = Some (u, rid).
Proof.
  unfold has_remote_id, remote_id.
  destruct (meta_get key (metadata (item it))) as [|s|v].
  - rewrite andb_false_r. split; discriminate.
  - rewrite andb_true_iff, !String.eqb_eq. split.
    + intros [-> ->]; reflexivity.
    + intros H; injection H; auto.
  - rewrite andb_false_r. split; discriminate.
Qed.

(** What the dedup lookup does not find is not among the keys. *)
Lemma not_found_not_in u key rid l :
  find (has_remote_id u key rid) l = None -> ~ In (u, rid) (remote_ids key l).
Proof.
  induction l as [|a l IH]; simpl; [tauto|].
  destruct (has_remote_id u key rid a) eqn:E; [discriminate|].
  intros Hf Hin. specialize (IH Hf).
  destruct (remote_id key a) as [k|] eqn:Ek; [|tauto].
  destruct Hin as [->|Hin]; [|tauto].
  apply has_remote_id_iff in Ek. congruence.
Qed.

Lemma NoDup_snoc {A} (l : list A) x :
  NoDup l -> ~ In x l -> NoDup (l ++ [x])%list.
Proof.
  intros Hl Hx. induction Hl as [|a l Ha Hl IH]; simpl.
  - constructor; [tauto|constructor].
  - constructor.
    + rewrite in_app_iff. simpl. intros [H|[H|[]]]; [tauto|].
      subst. apply Hx. left; reflexivity.
    + apply IH. intros H; apply Hx; right; exact H.
Qed.

Lemma attach_keeps_unique S u key rid mk p count tid w :
  In key remote_keys -> import_ok u key rid mk p ->
  find (has_remote_id u key rid) (items w) = None ->
  unique_remote_ids w ->
  unique_remote_ids (snd (attach S mk p count tid w)).
Proof.
  intros Hk Hok Hfind Hu k Hin.
  destruct (attach_items S mk p count tid w) as [E|(it & E & _ & Hit)];
    rewrite E; [apply Hu; exact Hin|].
  rewrite remote_ids_snoc.
  assert (Hr : remote_id k it
               = if String.eqb k key then Some (u, rid) else None).
  { unfold remote_id. rewrite Hit.
    rewrite (import_key _ _ _ _ _ Hok _ _ _ Hin), (import_user _ _ _ _ _ Hok).
    destruct (String.eqb k key); reflexivity. }
  rewrite Hr. destruct (String.eqb_spec k key) as [->|Hne].
  - apply NoDup_snoc; [apply Hu; exact Hin|].
    apply not_found_not_in; exact Hfind.
  - rewrite app_nil_r. apply Hu; exact Hin.
Qed.

Lemma sync_keeps_unique S p u override w :
  unique_remote_ids w -> unique_remote_ids (snd (sync S p u override w)).
Proof.
  apply (sync_keeps S unique_remote_ids); try (intros; assumption).
  intros u' key rid mk q count tid th w1 Hk Hok Hf _ _ H.
  apply (attach_keeps_unique S u' key rid); assumption.
Qed.

(** C2. Whatever sync invocations run one after the other, for whatever
    users and providers and whatever the services answer, a store in
    which no two items share a user and a [googleId], nor a user and a
    [microsoftId], is still such a store afterwards. *)
Theorem remote_ids_stay_unique invs w :
  unique_remote_ids w -> unique_remote_ids (run_all invs w).
Proof.
  revert w. induction invs as [|i invs IH]; intros w H; simpl.
  - exact H.
  - apply IH. apply sync_keeps_unique. exact H.
Qed.

Lemma remote_ids_stay_unique_witness :
  unique_remote_ids connected_world
  /\ unique_remote_ids
       (run_all
          [ {| inv_services := one_event; inv_provider := Calendar;
               inv_user := "u1"; inv_override := None |};
            {| inv_services := flaky_tasks; inv_provider := Tasks;
               inv_user := "u1"; inv_override := None |};
            {| inv_services := one_event; inv_provider := Calendar;
               inv_user := "u1"; inv_override := Some "ya29.other" |} ]
          connected_world).
Proof.
  assert (H : unique_remote_ids connected_world).
  { intros key _. simpl. constructor. }
  split; [exact H|].
  apply (remote_ids_stay_unique _ connected_world H).
Defined.

(** *** Thread priority only rises *)

Lemma nth_error_update_first {A} (f : A -> bool) (g : A -> A) l n x :
  nth_error l n = Some x ->
  nth_error (update_first f g l) n = Some x
  \/ (f x = true /\ nth_error (update_first f g l) n = Some (g x)).
Proof.
  revert n. induction l as [|a l IH]; intros [|n]; simpl; try discriminate.
  - intros H; injection H as ->.
    destruct (f x) eqn:E; simpl; auto.
  - intros H. destruct (f a); simpl; auto.
Qed.

Lemma nth_error_snoc_old {A} (l : list A) x n y :
  nth_error l n = Some y -> nth_error (l ++ [x])%list n = Some y.
Proof.
  intros H. rewrite nth_error_app1; [exact H|].
  apply nth_error_Some. congruence.
Qed.

Lemma escalated_by_more new it th :
  escalated_by new th -> escalated_by (new ++ [it])%list th.
Proof.
  intros (x & Hin & H). exists x. split; [|exact H].
  apply in_or_app; left; exact Hin.
Qed.

Lemma priority_monotone_refl w : priority_monotone w w.
Proof.
  exists []. split; [symmetry; apply app_nil_r|].
  intros n th H. exists th. repeat split; auto.
Qed.

Lemma attach_keeps_priority S w0 u key rid mk p count tid w :
  import_ok u key rid mk p ->
  priority_monotone w0 w ->
  priority_monotone w0 (snd (attach S mk p count tid w)).
Proof.
  intros Hok (new & Hitems & Hth). unfold attach.
  destruct (rejects S _); simpl; [exists new; split; assumption|].
  set (it := {| item_id := nextId w; item := mk (clock w) tid |}).
  exists (new ++ [it])%list.
  split; [simpl; rewrite Hitems, app_assoc; reflexivity|].
  intros n th Hn. destruct (Hth n th Hn) as (th1 & H1 & Hid & Hrank & Hp).
  simpl. unfold attached.
  destruct (nth_error_update_first (fun x => Nat.eqb (thread_id x) tid)
              (apply_update (nextId w) (clock w + elapsed S (ItemCreate (nextId w))) p)
              _ _ _ H1) as [H2|[Hf H2]].
  - exists th1. repeat split; auto.
    destruct Hp as [Hp|[Hp He]]; [left; exact Hp|right].
    split; [exact Hp|apply escalated_by_more; exact He].
  - eexists. split; [exact H2|]. simpl. split; [exact Hid|].
    destruct (import_priority _ _ _ _ _ Hok) as [[-> _]|[-> Hhigh]].
    + split; [exact Hrank|].
      destruct Hp as [Hp|[Hp He]]; [left; exact Hp|right].
      split; [exact Hp|apply escalated_by_more; exact He].
    + split; [destruct (thread_priority th); simpl; lia|].
      right. split; [reflexivity|].
      exists it. split; [apply in_or_app; right; left; reflexivity|].
      simpl. rewrite (import_thread _ _ _ _ _ Hok).
      apply Nat.eqb_eq in Hf. split; [congruence|apply Hhigh].
Qed.

Lemma find_in {A} (f : A -> bool) l x :
  In x l -> f x = true -> exists y, find f l = Some y.
Proof.
  induction l as [|a l IH]; simpl; [intros []|].
  intros [->|Hin] Hf.
  - rewrite Hf. eauto.
  - destruct (f a); eauto.
Qed.

Lemma find_update_first_or {A} (f q : A -> bool) (g : A -> A) l x :
  (forall y, f (g y) = f y) ->
  find f l = Some x ->
  find f (update_first q g l) = Some x
  \/ find f (update_first q g l) = Some (g x).
Proof.
  intros Hg. induction l as [|a l IH]; simpl; [discriminate|].
  destruct (q a); simpl.
  - rewrite Hg. destruct (f a); [|auto].
    intros H; injection H as ->. auto.
  - destruct (f a); auto.
Qed.

Lemma find_update_first_same {A} (f : A -> bool) (g : A -> A) l x :
  (forall y, f (g y) = f y) ->
  find f l = Some x ->
  find f (update_first f g l) = Some (g x).
Proof.
  intros Hg. induction l as [|a l IH]; simpl; [discriminate|].
  destruct (f a) eqn:E; simpl.
  - intros H; injection H as ->. rewrite Hg, E. reflexivity.
  - rewrite E. exact IH.
Qed.

Lemma escalates_refl w : escalates w w.
Proof.
  exists []. split; [symmetry; apply app_nil_r|]. intros it [].
Qed.

Lemma attach_keeps_escalation S w0 u key rid mk p count tid th w :
  import_ok u key rid mk p ->
  find (is_thread u "External Imports") (threads w) = Some th ->
  thread_id th = tid ->
  escalates w0 w ->
  escalates w0 (snd (attach S mk p count tid w)).
Proof.
  intros Hok Hth Hid (new & Hitems & Hnew). unfold attach.
  destruct (rejects S _); simpl; [exists new; split; assumption|].
  set (it := {| item_id := nextId w; item := mk (clock w) tid |}).
  set (g := apply_update (nextId w)
              (clock w + elapsed S (ItemCreate (nextId w))) p).
  exists (new ++ [it])%list.
  split; [simpl; rewrite Hitems, app_assoc; reflexivity|].
  assert (Hg : forall id y,
             Nat.eqb (thread_id (g y)) id = Nat.eqb (thread_id y) id).
  { reflexivity. }
  assert (Hup : forall y,
             thread_priority y = high \/ p = Some high ->
             thread_priority (g y) = high).
  { intros y Hy. unfold g, apply_update; simpl.
    destruct Hy as [Hy|Hq]; [|rewrite Hq; reflexivity].
    destruct (import_priority _ _ _ _ _ Hok) as [[Hq _]|[Hq _]];
      rewrite Hq; [exact Hy|reflexivity]. }
  intros x Hin Hhigh. unfold thread_of, attached. simpl.
  apply in_app_or in Hin. destruct Hin as [Hin|[<-|[]]].
  - destruct (Hnew x Hin Hhigh) as (tx & Hfind & Hp).
    destruct (find_update_first_or
                (fun t => Nat.eqb (thread_id t) (threadId (item x)))
                (fun t => Nat.eqb (thread_id t) tid) g _ _
                (Hg (threadId (item x))) Hfind) as [E|E].
    + exists tx. split; [exact E|exact Hp].
    + exists (g tx). split; [exact E|]. apply Hup. left; exact Hp.
  - destruct (find_in (fun t => Nat.eqb (thread_id t) tid) (threads w) th)
      as (t0 & Hfind).
    { apply (find_some _ _ Hth). }
    { apply Nat.eqb_eq; exact Hid. }
    exists (g t0). split.
    + simpl. rewrite (import_thread _ _ _ _ _ Hok).
      exact (find_update_first_same _ g _ _ (Hg tid) Hfind).
    + apply Hup. right.
      destruct (import_priority _ _ _ _ _ Hok) as [[_ Hlow]|[Hq _]];
        [|exact Hq].
      simpl in Hhigh. rewrite Hlow in Hhigh. discriminate.
Qed.

(** C9. No sync cycle of any provider lowers the priority of a thread:
    after the run every thread has the priority it had, or has priority
    [high] and the run has created an item of priority [high] in it;
    and every item of priority [high] that the run has created has set
    its thread to [high]: after the run the thread that the id of the
    item addresses has priority [high]. *)
Theorem thread_priority_only_escalates S p u override w :
  priority_monotone w (snd (sync S p u override w))
  /\ escalates w (snd (sync S p u override w)).
Proof.
  split.
  - apply (sync_keeps S (priority_monotone w)).
    + intros ev w1 H; exact H.
    + intros u' t w1 (new & Hitems & Hth) _. exists new.
      split; [exact Hitems|].
      intros n th Hn. destruct (Hth n th Hn) as (th1 & H1 & Hrest).
      exists th1. split; [|exact Hrest].
      simpl. apply nth_error_snoc_old; exact H1.
    + intros u' key rid mk q count tid th w1 _ Hok _ _ _ H.
      apply (attach_keeps_priority S w u' key rid); assumption.
    + intros us w1 H; exact H.
    + apply priority_monotone_refl.
  - apply (sync_keeps S (escalates w)).
    + intros ev w1 H; exact H.
    + intros u' t w1 (new & Hitems & Hnew) _. exists new.
      split; [exact Hitems|].
      intros it Hin Hhigh. destruct (Hnew it Hin Hhigh) as (th & Hfind & Hp).
      exists th. split; [|exact Hp].
      unfold thread_of in *. simpl. rewrite find_snoc, Hfind. reflexivity.
    + intros u' key rid mk q count tid th w1 _ Hok _ Hth Hid H.
      apply (attach_keeps_escalation S w u' key rid mk q count tid th);
        assumption.
    + intros us w1 H; exact H.
    + apply escalates_refl.
Qed.

Lemma thread_priority_only_escalates_witness :
  let S := answering (dq "{'isWork': true, 'priority': 'high'}") one_message in
  let w' := snd (sync S Gmail "u1" None threaded_world) in
  option_map thread_priority (thread_of 0 threaded_world) = Some medium
  /\ exists it th,
       items w' = [it]
       /\ is_string (priority (item it)) "high" = true
       /\ threadId (item it) = 0
       /\ thread_of 0 w' = Some th
       /\ thread_priority th = high.
Proof.
  cbv zeta. split; [reflexivity|].
  destruct (proj2 (thread_priority_only_escalates
                     (answering (dq "{'isWork': true, 'priority': 'high'}")
                        one_message)
                     Gmail "u1" None threaded_world))
    as (new & Hitems & Hnew).
  destruct (items (snd (sync _ Gmail "u1" None threaded_world)))
    as [|it rest] eqn:E; [vm_compute in E; discriminate|].
  simpl in Hitems. subst new.
  assert (Hit : is_string (priority (item it)) "high" = true
                /\ threadId (item it) = 0 /\ rest = []).
  { vm_compute in E. injection E as <- <-. repeat split. }
  destruct Hit as (Hhigh & Htid & ->).
  destruct (Hnew it (or_introl eq_refl) Hhigh) as (th & Hfind & Hp).
  rewrite Htid in Hfind.
  exists it, th. repeat split; assumption.
Defined.

(** *** Set insertion and the update of one thread *)

Lemma existsb_eqb_In x l : existsb (Nat.eqb x) l = true <-> In x l.
Proof.
  rewrite existsb_exists. split.
  - intros (y & Hin & E). apply Nat.eqb_eq in E. subst; exact Hin.
  - intros H. exists x. split; [exact H|apply Nat.eqb_refl].
Qed.

Lemma addToSet_other i l j :
  j <> i ->
  count_occ Nat.eq_dec (addToSet i l) j = count_occ Nat.eq_dec l j.
Proof.
  intros Hne. unfold addToSet. destruct (existsb _ l); [reflexivity|].
  rewrite count_occ_app. simpl.
  destruct (Nat.eq_dec i j); [congruence|lia].
Qed.

Lemma addToSet_fresh i l :
  ~ In i l -> count_occ Nat.eq_dec (addToSet i l) i = 1.
Proof.
  intros Hni. unfold addToSet.
  destruct (existsb _ l) eqn:E; [apply existsb_eqb_In in E; tauto|].
  rewrite count_occ_app. simpl.
  destruct (Nat.eq_dec i i); [|congruence].
  apply (count_occ_not_In Nat.eq_dec) in Hni. lia.
Qed.

(** Set semantics: an id that is listed is not inserted again. *)
Lemma addToSet_present i l :
  count_occ Nat.eq_dec l i = 1 -> addToSet i l = l.
Proof.
  intros H. unfold addToSet.
  assert (Hin : In i l) by (apply (count_occ_In Nat.eq_dec); lia).
  apply existsb_eqb_In in Hin. rewrite Hin. reflexivity.
Qed.

Lemma addToSet_In i l j : In j (addToSet i l) -> In j l \/ j = i.
Proof.
  unfold addToSet. destruct (existsb _ l); [auto|].
  rewrite in_app_iff. simpl. intuition.
Qed.

Lemma attached_ids tid i t p ts :
  map thread_id (attached tid i t p ts) = map thread_id ts.
Proof.
  unfold attached. induction ts as [|a l IH]; simpl; [reflexivity|].
  destruct (Nat.eqb (thread_id a) tid); simpl; [reflexivity|].
  rewrite IH; reflexivity.
Qed.

Lemma attached_In tid i t p ts x :
  In x (attached tid i t p ts) ->
  In x ts \/ exists y, In y ts /\ thread_id y = tid /\ x = apply_update i t p y.
Proof.
  unfold attached. induction ts as [|a l IH]; simpl; [tauto|].
  destruct (Nat.eqb (thread_id a) tid) eqn:E; simpl.
  - intros [<-|H]; [|auto]. right. exists a.
    apply Nat.eqb_eq in E. auto.
  - intros [<-|H]; [auto|].
    destruct (IH H) as [H'|(y & Hy & Hr)]; [auto|].
    right. exists y; auto.
Qed.

(** A thread of the store stays as it is, unless it is the one
    updated. *)
Lemma attached_keeps tid i t p ts x :
  NoDup (map thread_id ts) -> In x ts ->
  (thread_id x <> tid /\ In x (attached tid i t p ts))
  \/ (thread_id x = tid /\ In (apply_update i t p x) (attached tid i t p ts)).
Proof.
  unfold attached. induction ts as [|a l IH]; simpl; [tauto|].
  intros Hnd Hin. inversion Hnd as [|? ? Ha Hl]; subst.
  destruct (Nat.eqb_spec (thread_id a) tid) as [E|E].
  - destruct Hin as [->|Hin].
    + right. split; [exact E|left; reflexivity].
    + left. split; [|right; exact Hin].
      intros Hx. apply Ha. rewrite E, <- Hx. apply in_map; exact Hin.
  - destruct Hin as [->|Hin].
    + left. split; [exact E|left; reflexivity].
    + destruct (IH Hl Hin) as [[H1 H2]|[H1 H2]]; [left|right];
        (split; [exact H1|right; exact H2]).
Qed.

(** *** Well-formed stores *)

Lemma wf_tick S ev w : well_formed w -> well_formed (tick S ev w).
Proof.
  intros [Hi Ht Hs Hn Hc]. constructor; simpl; auto.
  intros t e Hin. apply in_app_or in Hin. destruct Hin as [Hin|[E|[]]].
  - specialize (Hc t e Hin). lia.
  - injection E as <- _. lia.
Qed.

Lemma wf_put_users us w : well_formed w -> well_formed (put_users us w).
Proof. intros [Hi Ht Hs Hn Hc]. constructor; simpl; auto. Qed.

Lemma wf_add_thread u t w :
  well_formed w -> well_formed (add_thread (external_thread u t (nextId w)) w).
Proof.
  intros [Hi Ht Hs Hn Hc]. constructor; simpl; auto.
  - intros it Hin. specialize (Hi it Hin). lia.
  - intros th Hin. apply in_app_or in Hin. destruct Hin as [Hin|[<-|[]]].
    + specialize (Ht th Hin). lia.
    + simpl. lia.
  - intros th i Hin Hi'. apply in_app_or in Hin. destruct Hin as [Hin|[<-|[]]].
    + specialize (Hs th i Hin Hi'). lia.
    + destruct Hi'.
  - rewrite map_app. simpl. apply NoDup_snoc; [exact Hn|].
    intros Hin. apply in_map_iff in Hin. destruct Hin as (th & E & Hin).
    specialize (Ht th Hin). lia.
Qed.

Lemma wf_add_item it w :
  item_id it = nextId w -> well_formed w -> well_formed (add_item it w).
Proof.
  intros E [Hi Ht Hs Hn Hc]. constructor; simpl; auto.
  - intros x Hin. apply in_app_or in Hin. destruct Hin as [Hin|[<-|[]]].
    + specialize (Hi x Hin). lia.
    + lia.
  - intros th Hin. specialize (Ht th Hin). lia.
  - intros th i Hin Hi'. specialize (Hs th i Hin Hi'). lia.
Qed.

Lemma wf_attached tid i t p w :
  i < nextId w -> well_formed w ->
  well_formed (put_threads (attached tid i t p (threads w)) w).
Proof.
  intros Hlt [Hi Ht Hs Hn Hc]. constructor; simpl; auto.
  - intros th Hin. apply attached_In in Hin.
    destruct Hin as [Hin|(y & Hy & _ & ->)]; [auto|]. simpl. auto.
  - intros th j Hin Hj. apply attached_In in Hin.
    destruct Hin as [Hin|(y & Hy & _ & ->)]; [eauto|]. simpl in Hj.
    apply addToSet_In in Hj. destruct Hj as [Hj| ->]; [eauto|exact Hlt].
  - rewrite attached_ids. exact Hn.
Qed.

(** *** Items in their import thread *)

Lemma in_import_thread_tick S ev w it :
  in_import_thread w it -> in_import_thread (tick S ev w) it.
Proof.
  intros (th & t & H1 & H2 & H3 & H4 & H5 & H6 & H7).
  exists th, t. repeat split; auto. simpl. apply in_or_app; left; exact H6.
Qed.

Lemma in_import_thread_add_thread th' w it :
  in_import_thread w it -> in_import_thread (add_thread th' w) it.
Proof.
  intros (th & t & H1 & H2 & H3 & H4 & H5 & H6 & H7).
  exists th, t. repeat split; auto. simpl. apply in_or_app; left; exact H1.
Qed.

Lemma in_import_thread_add_item x w it :
  in_import_thread w it -> in_import_thread (add_item x w) it.
Proof.
  intros (th & t & H1 & H2 & H3 & H4 & H5 & H6 & H7).
  exists th, t. repeat split; auto.
Qed.

Lemma in_import_thread_put_users us w it :
  in_import_thread w it -> in_import_thread (put_users us w) it.
Proof.
  intros (th & t & H1 & H2 & H3 & H4 & H5 & H6 & H7).
  exists th, t. repeat split; auto.
Qed.

(** The update of a thread for another item leaves an item in its
    import thread. *)
Lemma in_import_thread_attached tid i p w it :
  well_formed w -> item_id it <> i ->
  in_import_thread w it ->
  in_import_thread (put_threads (attached tid i (clock w) p (threads w)) w) it.
Proof.
  intros Hwf Hne (th & t & H1 & H2 & H3 & H4 & H5 & H6 & H7).
  destruct (attached_keeps tid i (clock w) p (threads w) th
              (wf_thread_ids _ Hwf) H1) as [[_ Hin]|[_ Hin]].
  - exists th, t. repeat split; auto.
  - exists (apply_update i (clock w) p th), t. simpl. repeat split; auto.
    + rewrite addToSet_other; auto.
    + apply (wf_trace _ Hwf) in H6. exact H6.
Qed.

(** The update of the thread for the item just created lists it. *)
Lemma in_import_thread_new S u tid (input : WorkItemInput) p w th :
  well_formed w ->
  find (is_thread u "External Imports") (threads w) = Some th ->
  thread_id th = tid ->
  userId input = u -> threadId input = tid ->
  let it := {| item_id := nextId w; item := input |} in
  let w1 := tick S (ItemCreate (nextId w)) (add_item it w) in
  in_import_thread
    (put_threads (attached tid (nextId w) (clock w1) p (threads w1)) w1) it.
Proof.
  intros Hwf Hfind Hid Hu Ht it w1.
  apply find_some in Hfind. destruct Hfind as [Hin Hth].
  unfold is_thread in Hth. apply andb_true_iff in Hth.
  destruct Hth as [Hth1 Hth2]. apply String.eqb_eq in Hth1, Hth2.
  destruct (attached_keeps tid (nextId w) (clock w1) p (threads w) th
              (wf_thread_ids _ Hwf) Hin) as [[Hne _]|[_ Hin']]; [congruence|].
  exists (apply_update (nextId w) (clock w1) p th), (clock w).
  simpl. repeat split; auto; try congruence.
  - apply addToSet_fresh. intros Hi.
    pose proof (wf_itemIds _ Hwf th _ Hin Hi). lia.
  - apply in_or_app; right; left; reflexivity.
  - lia.
Qed.

Lemma attach_keeps_threads S w0 u key rid mk p count tid th w :
  import_ok u key rid mk p ->
  find (is_thread u "External Imports") (threads w) = Some th ->
  thread_id th = tid ->
  (well_formed w /\
   exists new, items w = (items w0 ++ new)%list
               /\ forall it, In it new -> in_import_thread w it) ->
  well_formed (snd (attach S mk p count tid w)) /\
  exists new, items (snd (attach S mk p count tid w)) = (items w0 ++ new)%list
              /\ forall it, In it new ->
                            in_import_thread (snd (attach S mk p count tid w)) it.
Proof.
  intros Hok Hfind Hid (Hwf & new & Hitems & Hnew). unfold attach.
  destruct (rejects S _); simpl snd.
  - split; [apply wf_tick; exact Hwf|].
    exists new. split; [exact Hitems|].
    intros it Hin. apply in_import_thread_tick, Hnew, Hin.
  - set (it := {| item_id := nextId w; item := mk (clock w) tid |}).
    set (w1 := tick S (ItemCreate (nextId w)) (add_item it w)).
    assert (Hwf1 : well_formed w1)
      by (apply wf_tick, wf_add_item; [reflexivity|exact Hwf]).
    split.
    + apply wf_tick.
      apply (wf_attached tid (nextId w) (clock w1) p w1); [simpl; lia|exact Hwf1].
    + exists (new ++ [it])%list.
      split; [simpl; rewrite Hitems, app_assoc; reflexivity|].
      intros x Hx. apply in_import_thread_tick.
      apply in_app_or in Hx. destruct Hx as [Hx|[<-|[]]].
      * apply (in_import_thread_attached tid (nextId w) p w1 x Hwf1).
        -- assert (Hlt : item_id x < nextId w).
           { apply (wf_items _ Hwf). rewrite Hitems.
             apply in_or_app; right; exact Hx. }
           lia.
        -- apply in_import_thread_tick, in_import_thread_add_item, Hnew, Hx.
      * apply (in_import_thread_new S u tid (mk (clock w) tid) p w th Hwf Hfind Hid).
        -- apply (import_user _ _ _ _ _ Hok).
        -- apply (import_thread _ _ _ _ _ Hok).
Qed.

(** A second run of the update does not list the item twice. *)
Lemma replay_lists_once S w it :
  well_formed w -> in_import_thread w it -> listed_once_after_replay S w it.
Proof.
  intros Hwf (th & t & H1 & H2 & H3 & H4 & H5 & H6 & H7) t2 p2.
  destruct (attached_keeps (threadId (item it)) (item_id it) t2 p2 (threads w)
              th (wf_thread_ids _ Hwf) H1) as [[Hne _]|[_ Hin]]; [congruence|].
  exists (apply_update (item_id it) t2 p2 th). simpl.
  split; [exact Hin|]. split; [exact H2|].
  rewrite (addToSet_present _ _ H5). exact H5.
Qed.

(** C8. In a well-formed store, every item that a sync cycle has
    created is listed in the External Imports thread of its user exactly
    once, and the thread's [lastActivity] is no earlier than the time the
    item was created; running the update of the thread once more for the
    item still leaves it listed once. *)
Theorem created_items_are_listed_once S p u override w :
  well_formed w ->
  exists new,
    items (snd (sync S p u override w)) = (items w ++ new)%list
    /\ forall it, In it new ->
         in_import_thread (snd (sync S p u override w)) it
         /\ listed_once_after_replay S (snd (sync S p u override w)) it.
Proof.
  intros Hwf.
  assert (H : well_formed (snd (sync S p u override w)) /\
              exists new,
                items (snd (sync S p u override w)) = (items w ++ new)%list
                /\ forall it, In it new ->
                     in_import_thread (snd (sync S p u override w)) it).
  { apply (sync_keeps S
             (fun x => well_formed x /\
                       exists new, items x = (items w ++ new)%list
                                   /\ forall it, In it new -> in_import_thread x it)).
    - intros ev w1 (Hw & new & Hi & Hn). split; [apply wf_tick; exact Hw|].
      exists new. split; [exact Hi|].
      intros it Hin. apply in_import_thread_tick, Hn, Hin.
    - intros u' t w1 (Hw & new & Hi & Hn) _.
      split; [apply wf_add_thread; exact Hw|].
      exists new. split; [exact Hi|].
      intros it Hin. apply in_import_thread_add_thread, Hn, Hin.
    - intros u' key rid mk q count tid th w1 _ Hok _ Hth Hid Hinv.
      apply (attach_keeps_threads S w u' key rid mk q count tid th); assumption.
    - intros us w1 (Hw & new & Hi & Hn). split; [apply wf_put_users; exact Hw|].
      exists new. split; [exact Hi|].
      intros it Hin. apply in_import_thread_put_users, Hn, Hin.
    - split; [exact Hwf|]. exists []. split; [symmetry; apply app_nil_r|].
      intros it []. }
  destruct H as (Hwf' & new & Hitems & Hnew).
  exists new. split; [exact Hitems|].
  intros it Hin. split; [apply Hnew; exact Hin|].
  apply replay_lists_once; [exact Hwf'|apply Hnew; exact Hin].
Qed.

Lemma created_items_are_listed_once_witness :
  well_formed connected_world
  /\ exists new,
       items (snd (sync one_event Calendar "u1" None connected_world))
       = (items connected_world ++ new)%list
       /\ forall it, In it new ->
            in_import_thread
              (snd (sync one_event Calendar "u1" None connected_world)) it
            /\ listed_once_after_replay one_event
                 (snd (sync one_event Calendar "u1" None connected_world)) it.
Proof.
  assert (H : well_formed connected_world).
  { constructor; simpl; try tauto. constructor. }
  split; [exact H|].
  exact (created_items_are_listed_once one_event Calendar "u1" None
           connected_world H).
Defined.

(** *** Running a sync again *)

Lemma same_db_refl w : same_db w w.
Proof. repeat split. Qed.

Lemma same_db_trans w1 w2 w3 : same_db w1 w2 -> same_db w2 w3 -> same_db w1 w3.
Proof. intros (A & B & C) (A' & B' & C'). repeat split; congruence. Qed.

Lemma same_db_tick S ev w : same_db w (tick S ev w).
Proof. repeat split. Qed.

Lemma same_db_ticks S evs w : same_db w (ticks S evs w).
Proof.
  repeat split; [rewrite ticks_items|rewrite ticks_threads|rewrite ticks_nextId];
    reflexivity.
Qed.

Lemma find_incl {A} (f : A -> bool) l l' x :
  find f l = Some x -> incl l l' -> exists y, find f l' = Some y.
Proof.
  intros H Hincl. apply find_some in H. destruct H as [Hin Hf].
  destruct (find f l') as [y|] eqn:E; [eauto|].
  pose proof (find_none f l' E x (Hincl x Hin)). congruence.
Qed.

(** An import that succeeds leaves an item under the remote id. *)
Lemma materialize_ok_found S u key rid mk p n w n1 w1 :
  In key remote_keys -> import_ok u key rid mk p ->
  materialize S u mk p n w = (Ok n1, w1) ->
  exists it, In it (items w1) /\ has_remote_id u key rid it = true.
Proof.
  intros Hk Hok. rewrite materialize_run. unfold attach.
  destruct (rejects S _); [discriminate|].
  intros H. injection H as _ <-. eexists. split.
  - simpl. apply in_or_app; right; left; reflexivity.
  - unfold has_remote_id. simpl.
    rewrite (import_user _ _ _ _ _ Hok), (import_key _ _ _ _ _ Hok _ _ _ Hk).
    rewrite !String.eqb_refl. reflexivity.
Qed.

(** An import that the store refused is refused again. *)
Lemma materialize_rethrows S u key rid mk p :
  import_ok u key rid mk p -> rethrows (materialize S u mk p).
Proof.
  intros Hok n w e w1. rewrite materialize_run.
  destruct (resolve_thread_found S u w) as (th & Hth & Hid).
  destruct (resolve_thread S u w) as [tid w2]. simpl in *.
  unfold attach.
  destruct (rejects S (validation_view (mk (clock w2) tid))) eqn:Hrej;
    [|discriminate].
  intros H. injection H as _ <-. intros k w' (Hi & Ht & Hn).
  rewrite materialize_run. unfold resolve_thread, attach.
  simpl in Ht. rewrite <- Ht, Hth. simpl.
  rewrite Hid.
  rewrite (import_view _ _ _ _ _ Hok _ (clock w2) tid), Hrej.
  do 2 eexists. split; [reflexivity|]. repeat split.
Qed.

Lemma execute_grows S u key pl :
  In key remote_keys -> plan_ok u key pl -> grows (execute S u key pl).
Proof.
  intros Hk Hok n w.
  assert (H : items_kept w (snd (execute S u key pl n w))).
  { apply (execute_keeps S (items_kept w)); auto; try (intros; assumption).
    - intros u' key' rid mk q count tid th w1 _ _ _ _ _ [new Hnew].
      unfold items_kept.
      destruct (attach_items S mk q count tid w1) as [E|(it & E & _)]; rewrite E.
      + exists new; exact Hnew.
      + exists (new ++ [it])%list. rewrite Hnew, app_assoc. reflexivity.
    - apply items_kept_refl. }
  destruct H as [new ->]. apply incl_appl, incl_refl.
Qed.

Lemma execute_settles S u key pl :
  In key remote_keys -> plan_ok u key pl -> settles (execute S u key pl).
Proof.
  intros Hk Hok n w n1 w1 Hrun k w' Hincl.
  destruct pl as [evs e| |evs rid v]; simpl; simpl in Hrun.
  - discriminate.
  - eexists. split; [reflexivity|apply same_db_refl].
  - destruct (find (has_remote_id u key rid) (items w')) as [y|] eqn:Hy.
    { eexists. split; [reflexivity|apply same_db_ticks]. }
    destruct (find _ (items w)) as [x|] eqn:Hfind.
    + injection Hrun as _ <-. rewrite ticks_items in Hincl.
      destruct (find_incl _ _ _ _ Hfind Hincl) as [y' Hy']. congruence.
    + destruct v as [evs2|evs2 mk p].
      * eexists. split; [reflexivity|].
        eapply same_db_trans; apply same_db_ticks.
      * simpl in Hok.
        destruct (materialize_ok_found S u key rid mk p _ _ _ _ Hk Hok Hrun)
          as (it & Hit & Hkey).
        pose proof (find_none _ _ Hy it (Hincl it Hit)). congruence.
Qed.

Lemma execute_rethrows S u key pl :
  plan_ok u key pl -> rethrows (execute S u key pl).
Proof.
  intros Hok n w e w1 Hrun k w' Hsame.
  destruct pl as [evs e0| |evs rid v]; simpl; simpl in Hrun.
  - do 2 eexists. split; [reflexivity|apply same_db_ticks].
  - discriminate.
  - destruct (find _ (items w)) as [x|] eqn:Hfind; [discriminate|].
    destruct v as [evs2|evs2 mk p]; [discriminate|]. simpl in Hok.
    assert (Hi : items w' = items w).
    { destruct Hsame as (Hi & _). rewrite <- Hi.
      rewrite materialize_run in Hrun. unfold attach in Hrun.
      destruct (rejects S _); [|discriminate].
      injection Hrun as _ <-. simpl.
      rewrite resolve_thread_items, !ticks_items. reflexivity. }
    rewrite Hi, Hfind.
    destruct (materialize_rethrows S u key rid mk p Hok _ _ _ _ Hrun k
                (ticks S evs2 (ticks S (evs ++ [ItemFindOne u key rid]) w')))
      as (e' & w'' & Hm & Hs).
    + eapply same_db_trans; [exact Hsame|].
      eapply same_db_trans; apply same_db_ticks.
    + exists e', w''. split; [exact Hm|].
      eapply same_db_trans; [|exact Hs].
      eapply same_db_trans; apply same_db_ticks.
Qed.

(** *** Loops that run again *)

Lemma for_of_grows {C} (body : C -> nat -> M nat) cs :
  (forall c, grows (body c)) -> grows (for_of body cs).
Proof.
  intros Hg. induction cs as [|c cs IH]; intros n w; simpl.
  - apply incl_refl.
  - unfold bind. pose proof (Hg c n w) as H.
    destruct (body c n w) as [[a|e] wa]; simpl in *; [|exact H].
    eapply incl_tran; [exact H|apply IH].
Qed.

Lemma for_of_settles {C} (body : C -> nat -> M nat) cs :
  (forall c, settles (body c)) -> (forall c, grows (body c)) ->
  settles (for_of body cs).
Proof.
  intros Hs Hg. induction cs as [|c cs IH]; intros n w n1 w1 Hrun k w' Hincl;
    simpl in *.
  - eexists. split; [reflexivity|apply same_db_refl].
  - unfold bind in Hrun.
    destruct (body c n w) as [[a|e] wa] eqn:Hb; [|discriminate].
    assert (Ha : incl (items wa) (items w')).
    { eapply incl_tran; [|exact Hincl].
      pose proof (for_of_grows body cs Hg a wa) as G. rewrite Hrun in G.
      exact G. }
    destruct (Hs c n w a wa Hb k w' Ha) as (w2 & Hb2 & Hsame).
    destruct (IH a wa n1 w1 Hrun k w2) as (w3 & Hl & Hsame3).
    + destruct Hsame as (Hi & _). rewrite <- Hi. exact Hincl.
    + exists w3. split; [|eapply same_db_trans; eassumption].
      unfold bind. rewrite Hb2. exact Hl.
Qed.

Lemma for_of_rethrows {C} (body : C -> nat -> M nat) cs :
  (forall c, settles (body c)) -> (forall c, rethrows (body c)) ->
  (forall c, grows (body c)) ->
  rethrows (for_of body cs).
Proof.
  intros Hs Hr Hg. induction cs as [|c cs IH]; intros n w e w1 Hrun k w' Hsame;
    simpl in *.
  - discriminate.
  - unfold bind in Hrun.
    destruct (body c n w) as [[a|e0] wa] eqn:Hb.
    + assert (Ha : incl (items wa) (items w')).
      { destruct Hsame as (Hi & _). rewrite <- Hi.
        pose proof (for_of_grows body cs Hg a wa) as G. rewrite Hrun in G.
        exact G. }
      destruct (Hs c n w a wa Hb k w' Ha) as (w2 & Hb2 & Hsame2).
      destruct (IH a wa e w1 Hrun k w2) as (e' & w3 & Hl & Hsame3).
      * eapply same_db_trans; eassumption.
      * exists e', w3. split; [|eapply same_db_trans; eassumption].
        unfold bind. rewrite Hb2. exact Hl.
    + injection Hrun as <- <-.
      destruct (Hr c n w e0 wa Hb k w' Hsame) as (e' & w2 & Hb2 & Hsame2).
      exists e', w2. split; [|exact Hsame2].
      unfold bind. rewrite Hb2. reflexivity.
Qed.

(** A remote call in front of a counting computation. *)
Lemma after_call_grows {A} S r (x : Response A) (m : A -> nat -> M nat) :
  (forall a, grows (m a)) -> grows (fun n => bind (call S r x) (fun a => m a n)).
Proof.
  intros Hg n w. destruct x as [|a].
  - unfold bind. rewrite call_fails. apply incl_refl.
  - unfold bind. rewrite call_returns. apply (Hg a n (tick S (Remote r) w)).
Qed.

Lemma after_call_settles {A} S r (x : Response A) (m : A -> nat -> M nat) :
  (forall a, settles (m a)) ->
  settles (fun n => bind (call S r x) (fun a => m a n)).
Proof.
  intros Hs n w n1 w1 Hrun k w' Hincl. destruct x as [|a].
  - unfold bind in Hrun. rewrite call_fails in Hrun. discriminate.
  - unfold bind in *. rewrite call_returns in *.
    destruct (Hs a n _ n1 w1 Hrun k (tick S (Remote r) w') Hincl)
      as (w2 & H2 & Hsame).
    exists w2. split; [exact H2|].
    eapply same_db_trans; [apply (same_db_tick S (Remote r))|exact Hsame].
Qed.

Lemma after_call_rethrows {A} S r (x : Response A) (m : A -> nat -> M nat) :
  (forall a, rethrows (m a)) ->
  rethrows (fun n => bind (call S r x) (fun a => m a n)).
Proof.
  intros Hr n w e w1 Hrun k w' Hsame. destruct x as [|a].
  - unfold bind. rewrite call_fails.
    do 2 eexists. split; [reflexivity|apply same_db_tick].
  - unfold bind in *. rewrite call_returns in *.
    destruct (Hr a n _ e w1 Hrun k (tick S (Remote r) w')) as (e' & w2 & H2 & Hs2).
    + eapply same_db_trans; [exact Hsame|apply same_db_tick].
    + exists e', w2. split; [exact H2|].
      eapply same_db_trans; [apply (same_db_tick S (Remote r))|exact Hs2].
Qed.

(** The loop bodies of the four providers. *)
Lemma gmail_body_reruns S u auth msg :
  settles (syncGmail_body S u auth msg)
  /\ rethrows (syncGmail_body S u auth msg)
  /\ grows (syncGmail_body S u auth msg).
Proof.
  pose proof (gmail_plan_ok S u auth msg) as Hok.
  repeat split.
  - intros n w n1 w1. rewrite gmail_body_plan. intros H k w'.
    rewrite gmail_body_plan. revert H k w'.
    apply execute_settles; [left; reflexivity|exact Hok].
  - intros n w e w1. rewrite gmail_body_plan. intros H k w'.
    rewrite gmail_body_plan. revert H k w'.
    apply execute_rethrows; exact Hok.
  - intros n w. rewrite gmail_body_plan.
    apply execute_grows; [left; reflexivity|exact Hok].
Qed.

Lemma calendar_body_reruns S u ev :
  settles (syncCalendar_body S u ev)
  /\ rethrows (syncCalendar_body S u ev)
  /\ grows (syncCalendar_body S u ev).
Proof.
  pose proof (calendar_plan_ok u ev) as Hok.
  repeat split.
  - intros n w n1 w1. rewrite calendar_body_plan. intros H k w'.
    rewrite calendar_body_plan. revert H k w'.
    apply execute_settles; [left; reflexivity|exact Hok].
  - intros n w e w1. rewrite calendar_body_plan. intros H k w'.
    rewrite calendar_body_plan. revert H k w'.
    apply execute_rethrows; exact Hok.
  - intros n w. rewrite calendar_body_plan.
    apply execute_grows; [left; reflexivity|exact Hok].
Qed.

Lemma task_body_reruns S u list task :
  settles (syncTasks_task S u list task)
  /\ rethrows (syncTasks_task S u list task)
  /\ grows (syncTasks_task S u list task).
Proof.
  pose proof (task_plan_ok u list task) as Hok.
  repeat split.
  - intros n w n1 w1. rewrite task_body_plan. intros H k w'.
    rewrite task_body_plan. revert H k w'.
    apply execute_settles; [left; reflexivity|exact Hok].
  - intros n w e w1. rewrite task_body_plan. intros H k w'.
    rewrite task_body_plan. revert H k w'.
    apply execute_rethrows; exact Hok.
  - intros n w. rewrite task_body_plan.
    apply execute_grows; [left; reflexivity|exact Hok].
Qed.

Lemma teams_body_reruns S u chat :
  settles (syncTeams_body S u chat)
  /\ rethrows (syncTeams_body S u chat)
  /\ grows (syncTeams_body S u chat).
Proof.
  pose proof (teams_plan_ok u chat) as Hok.
  repeat split.
  - intros n w n1 w1. rewrite teams_body_plan. intros H k w'.
    rewrite teams_body_plan. revert H k w'.
    apply execute_settles; [right; left; reflexivity|exact Hok].
  - intros n w e w1. rewrite teams_body_plan. intros H k w'.
    rewrite teams_body_plan. revert H k w'.
    apply execute_rethrows; exact Hok.
  - intros n w. rewrite teams_body_plan.
    apply execute_grows; [right; left; reflexivity|exact Hok].
Qed.

Lemma tasks_list_reruns S u auth list :
  settles (syncTasks_list S u auth list)
  /\ rethrows (syncTasks_list S u auth list)
  /\ grows (syncTasks_list S u auth list).
Proof.
  unfold syncTasks_list. repeat split.
  - apply (after_call_settles S _ _
             (fun res => for_of (syncTasks_task S u list) (list_or_empty res))).
    intros res. apply for_of_settles; intros; apply task_body_reruns.
  - apply (after_call_rethrows S _ _
             (fun res => for_of (syncTasks_task S u list) (list_or_empty res))).
    intros res. apply for_of_rethrows; intros; apply task_body_reruns.
  - apply (after_call_grows S _ _
             (fun res => for_of (syncTasks_task S u list) (list_or_empty res))).
    intros res. apply for_of_grows; intros; apply task_body_reruns.
Qed.

(** *** Cycles that run again *)

Lemma rerun_ret0 : rerun_is_idle (ret 0) (ret 0).
Proof.
  intros w r w1 _ w' _. exists (Ok 0), w'.
  split; [reflexivity|]. split; [apply same_db_refl|left; reflexivity].
Qed.

Lemma rerun_throw (m : M nat) e : rerun_is_idle m (throw e).
Proof.
  intros w r w1 _ w' _. exists (Throw e), w'.
  split; [reflexivity|]. split; [apply same_db_refl|right; eauto].
Qed.

Lemma rerun_after_call {A} S r r' (x : Response A) (m m' : A -> M nat) :
  (forall a, rerun_is_idle (m a) (m' a)) ->
  rerun_is_idle (bind (call S r x) m) (bind (call S r' x) m').
Proof.
  intros H w res w1 Hrun w' Hsame. destruct x as [|a].
  - unfold bind. rewrite call_fails.
    do 2 eexists. split; [reflexivity|]. split; [apply same_db_tick|right; eauto].
  - unfold bind in *. rewrite call_returns in *.
    destruct (H a _ _ _ Hrun (tick S (Remote r') w')) as (r2 & w2 & H2 & Hs & Hr).
    + eapply same_db_trans; [exact Hsame|apply same_db_tick].
    + exists r2, w2. split; [exact H2|]. split; [|exact Hr].
      eapply same_db_trans; [apply (same_db_tick S (Remote r'))|exact Hs].
Qed.

Lemma rerun_after_reading {A} r (x : Response A) (m m' : A -> M nat) :
  (forall a, rerun_is_idle (m a) (m' a)) ->
  rerun_is_idle (bind (reading r x) m) (bind (reading r x) m').
Proof.
  intros H w res w1 Hrun w' Hsame. destruct x as [|a].
  - exists (Throw (RemoteFailure r)), w'.
    split; [reflexivity|]. split; [apply same_db_refl|right; eauto].
  - apply (H a w res w1 Hrun w' Hsame).
Qed.

Lemma rerun_after_now (m m' : nat -> M nat) :
  (forall t t', rerun_is_idle (m t) (m' t')) ->
  rerun_is_idle (bind now m) (bind now m').
Proof.
  intros H w res w1 Hrun w' Hsame.
  apply (H (clock w) (clock w') w res w1 Hrun w' Hsame).
Qed.

(** A loop, and after it steps that leave items and threads alone. *)
Lemma rerun_loop (loop : nat -> M nat) (fin fin' : nat -> M nat) :
  settles loop -> rethrows loop ->
  (forall n w, exists w2, fin n w = (Ok n, w2) /\ same_db w w2) ->
  (forall n w, exists w2, fin' n w = (Ok n, w2) /\ same_db w w2) ->
  rerun_is_idle (bind (loop 0) fin) (bind (loop 0) fin').
Proof.
  intros Hs Hr Hf Hf' w res w1 Hrun w' Hsame. unfold bind in *.
  destruct (loop 0 w) as [[n|e] wa] eqn:Hl.
  - destruct (Hf n wa) as (w2 & E & Hs2). rewrite E in Hrun.
    injection Hrun as _ <-.
    destruct (Hs 0 w n wa Hl 0 w') as (w3 & Hl3 & Hs3).
    { destruct Hs2 as (Hi & _). destruct Hsame as (Hi' & _).
      rewrite Hi, Hi'. apply incl_refl. }
    rewrite Hl3. destruct (Hf' 0 w3) as (w4 & E4 & Hs4). rewrite E4.
    exists (Ok 0), w4. split; [reflexivity|].
    split; [eapply same_db_trans; eassumption|left; reflexivity].
  - injection Hrun as _ <-.
    destruct (Hr 0 w e wa Hl 0 w' Hsame) as (e' & w3 & Hl3 & Hs3).
    rewrite Hl3. exists (Throw e'), w3.
    split; [reflexivity|]. split; [exact Hs3|right; eauto].
Qed.

Lemma ret_count_idle n w : exists w2, @ret nat n w = (Ok n, w2) /\ same_db w w2.
Proof. exists w. split; [reflexivity|apply same_db_refl]. Qed.

Lemma stamp_google_idle S user n w :
  exists w2,
    bind (stamp_google_lastSync S user) (fun _ => @ret nat n) w = (Ok n, w2)
    /\ same_db w w2.
Proof.
  unfold stamp_google_lastSync.
  destruct (integrations user) as [ig|];
    [destruct (google ig)|]; eexists; (split; [reflexivity|repeat split]).
Qed.

Lemma stamp_microsoft_idle S u user n w :
  exists w2,
    bind (stamp_microsoft_lastSync S u user) (fun _ => @ret nat n) w = (Ok n, w2)
    /\ same_db w w2.
Proof.
  unfold stamp_microsoft_lastSync.
  destruct (integrations user) as [ig|];
    [destruct (microsoft ig)|]; eexists; (split; [reflexivity|repeat split]).
Qed.

Lemma gmail_cycle_rerun S u user user' auth :
  rerun_is_idle (syncGmail_cycle S u user auth) (syncGmail_cycle S u user' auth).
Proof.
  unfold syncGmail_cycle. apply rerun_after_call. intros res.
  apply (rerun_loop (for_of (syncGmail_body S u auth) (list_or_empty res))).
  - apply for_of_settles; intros; apply gmail_body_reruns.
  - apply for_of_rethrows; intros; apply gmail_body_reruns.
  - intros n w. apply stamp_google_idle.
  - intros n w. apply stamp_google_idle.
Qed.

Lemma calendar_cycle_rerun S u auth :
  rerun_is_idle (syncCalendar_cycle S u auth) (syncCalendar_cycle S u auth).
Proof.
  unfold syncCalendar_cycle. apply rerun_after_now. intros t t'.
  apply rerun_after_call. intros res.
  apply (rerun_loop (for_of (syncCalendar_body S u) (list_or_empty res))).
  - apply for_of_settles; intros; apply calendar_body_reruns.
  - apply for_of_rethrows; intros; apply calendar_body_reruns.
  - apply ret_count_idle.
  - apply ret_count_idle.
Qed.

Lemma tasks_cycle_rerun S u auth :
  rerun_is_idle (syncTasks_cycle S u auth) (syncTasks_cycle S u auth).
Proof.
  unfold syncTasks_cycle. apply rerun_after_call. intros res.
  apply (rerun_loop (for_of (syncTasks_list S u auth) (list_or_empty res))).
  - apply for_of_settles; intros; apply tasks_list_reruns.
  - apply for_of_rethrows; intros; apply tasks_list_reruns.
  - apply ret_count_idle.
  - apply ret_count_idle.
Qed.

Lemma teams_cycle_rerun S u user user' tok :
  rerun_is_idle (syncTeams_cycle S u user tok) (syncTeams_cycle S u user' tok).
Proof.
  unfold syncTeams_cycle. cbv zeta. apply rerun_after_call. intros response.
  destruct (negb (reply_ok response)).
  - destruct (Nat.eqb (status response) 401); [apply rerun_ret0|].
    apply rerun_after_reading. intros errorText. apply rerun_throw.
  - apply rerun_after_reading. intros data.
    apply (rerun_loop (for_of (syncTeams_body S u) (list_or_empty data))).
    + apply for_of_settles; intros; apply teams_body_reruns.
    + apply for_of_rethrows; intros; apply teams_body_reruns.
    + intros n w. apply stamp_microsoft_idle.
    + intros n w. apply stamp_microsoft_idle.
Qed.

Lemma cycle_rerun S p u user user' tok :
  google_refreshToken user = google_refreshToken user' ->
  rerun_is_idle (cycle S p u user tok) (cycle S p u user' tok).
Proof.
  intros E. destruct p; simpl; try rewrite <- E.
  - apply gmail_cycle_rerun.
  - apply calendar_cycle_rerun.
  - apply tasks_cycle_rerun.
  - apply teams_cycle_rerun.
Qed.

(** *** The user document across a run *)

Lemma find_update_first {A} (f : A -> bool) (g : A -> A) l x :
  find f l = Some x -> f (g x) = true ->
  find f (update_first f g l) = Some (g x).
Proof.
  induction l as [|a l IH]; simpl; [discriminate|].
  destruct (f a) eqn:E.
  - intros H Hg. injection H as ->. simpl. rewrite Hg. reflexivity.
  - intros H Hg. simpl. rewrite E. auto.
Qed.

Lemma same_tokens_refl a : same_tokens a a.
Proof. repeat split. Qed.

Lemma same_tokens_stamp_google t a : same_tokens a (stamp_google t a).
Proof.
  unfold same_tokens, google_accessToken, google_refreshToken,
    microsoft_accessToken, stamp_google. simpl.
  destruct (integrations a) as [ig|]; [|repeat split]. simpl.
  destruct (google ig); repeat split.
Qed.

Lemma same_tokens_stamp_microsoft t a b :
  same_tokens a b -> same_tokens a (stamp_microsoft t b).
Proof.
  unfold same_tokens, google_accessToken, google_refreshToken,
    microsoft_accessToken, stamp_microsoft. simpl.
  intros (H1 & H2 & H3). rewrite H1, H2, H3.
  destruct (integrations b) as [ig|]; [|repeat split]. simpl.
  destruct (microsoft ig); repeat split.
Qed.

Lemma stamp_google_keeps_user S u user :
  user_id user = u ->
  keeps (has_user_like u user) (stamp_google_lastSync S user).
Proof.
  intros Hid w (user' & Hl & Hs). unfold stamp_google_lastSync.
  destruct (integrations user) as [ig|]; [|exists user'; auto].
  destruct (google ig); [|exists user'; auto].
  exists (stamp_google (clock w) user).
  split; [|apply same_tokens_stamp_google].
  unfold lookup_user in *. simpl. rewrite Hid.
  apply (find_update_first _ (fun _ => stamp_google (clock w) user) _ user' Hl).
  simpl. rewrite Hid. apply String.eqb_refl.
Qed.

Lemma stamp_microsoft_keeps_user S u user user0 :
  keeps (has_user_like u user0) (stamp_microsoft_lastSync S u user).
Proof.
  intros w (user' & Hl & Hs). unfold stamp_microsoft_lastSync.
  destruct (integrations user) as [ig|]; [|exists user'; auto].
  destruct (microsoft ig); [|exists user'; auto].
  exists (stamp_microsoft (clock w) user').
  split; [|apply same_tokens_stamp_microsoft; exact Hs].
  unfold lookup_user in *. simpl.
  apply (find_update_first _ (stamp_microsoft (clock w)) _ user' Hl).
  simpl. apply find_some in Hl. apply Hl.
Qed.

(** A cycle leaves the user in the store, with the credentials it
    had. *)
Lemma cycle_keeps_user S p u user tok :
  user_id user = u ->
  keeps (has_user_like u user) (cycle S p u user tok).
Proof.
  intros Hid.
  assert (It : forall ev w, has_user_like u user w ->
                            has_user_like u user (tick S ev w))
    by (intros ev w H; exact H).
  assert (Ith : forall u' t w,
             has_user_like u user w ->
             find (is_thread u' "External Imports") (threads w) = None ->
             has_user_like u user (add_thread (external_thread u' t (nextId w)) w))
    by (intros u' t w H _; exact H).
  assert (Iat : forall u' key rid mk q count tid th w,
             In key remote_keys -> import_ok u' key rid mk q ->
             find (has_remote_id u' key rid) (items w) = None ->
             find (is_thread u' "External Imports") (threads w) = Some th ->
             thread_id th = tid ->
             has_user_like u user w ->
             has_user_like u user (snd (attach S mk q count tid w))).
  { intros u' key rid mk q count tid th w _ _ _ _ _ (user' & Hl & Hs).
    exists user'. split; [|exact Hs].
    unfold lookup_user in *. rewrite attach_users. exact Hl. }
  destruct p; simpl.
  - unfold syncGmail_cycle.
    apply bind_keeps; [apply (call_keeps S); exact It|intros res].
    apply bind_keeps.
    + apply for_of_keeps. intros msg n _.
      apply (gmail_body_keeps S _ It Ith Iat).
    + intros n. apply bind_keeps; [|intros _; apply ret_keeps].
      apply stamp_google_keeps_user; exact Hid.
  - apply (calendar_cycle_keeps S _ It Ith Iat).
  - apply (tasks_cycle_keeps S _ It Ith Iat).
  - unfold syncTeams_cycle. cbv zeta.
    apply bind_keeps; [apply (call_keeps S); exact It|intros response].
    destruct (negb (reply_ok response)).
    + destruct (Nat.eqb _ 401); [apply ret_keeps|].
      apply bind_keeps; [apply reading_keeps|intros; apply throw_keeps].
    + apply bind_keeps; [apply reading_keeps|intros data].
      apply bind_keeps.
      * apply for_of_keeps. intros chat n _.
        apply (teams_body_keeps S _ It Ith Iat).
      * intros n. apply bind_keeps; [|intros _; apply ret_keeps].
        apply stamp_microsoft_keeps_user.
Qed.

Lemma same_tokens_stored p a b :
  same_tokens a b -> stored_token p a = stored_token p b.
Proof. intros (H1 & H2 & H3). destruct p; simpl; assumption. Qed.

(** C1, as the code has it. When an entry point is called a second time
    with the same arguments, and the remote services, the classifier
    among them, and the validation of the store answer the second call
    as they answered the first, the second call returns 0 and creates no
    item. *)
Theorem second_run_creates_nothing S p u override w :
  let w1 := snd (sync S p u override w) in
  fst (sync S p u override w1) = Ok 0
  /\ items (snd (sync S p u override w1)) = items w1.
Proof.
  cbv zeta. rewrite (sync_run S p u override w). cbv zeta.
  destruct (lookup_user u w) as [user|] eqn:Hu.
  2:{ simpl snd. rewrite sync_run. cbv zeta.
      change (lookup_user u (tick S (UserFindById u) w)) with (lookup_user u w).
      rewrite Hu. split; reflexivity. }
  destruct (Js.or override (stored_token p user)) as [tok|] eqn:Htok.
  2:{ simpl snd. rewrite sync_run. cbv zeta.
      change (lookup_user u (tick S (UserFindById u) w)) with (lookup_user u w).
      rewrite Hu, Htok. split; reflexivity. }
  destruct (String.eqb tok EmptyString) eqn:Hempty.
  { simpl snd. rewrite sync_run. cbv zeta.
    change (lookup_user u (tick S (UserFindById u) w)) with (lookup_user u w).
    rewrite Hu, Htok, Hempty. split; reflexivity. }
  assert (Hid : user_id user = u).
  { unfold lookup_user in Hu. apply find_some in Hu.
    apply String.eqb_eq, Hu. }
  pose proof (cycle_keeps_user S p u user tok Hid (tick S (UserFindById u) w))
    as Hkeep.
  destruct (cycle S p u user tok (tick S (UserFindById u) w)) as [r wc] eqn:Hc.
  assert (E : snd (try_catch (cycle S p u user tok) (fun _ => ret 0)
                     (tick S (UserFindById u) w)) = wc).
  { unfold try_catch. rewrite Hc. destruct r; reflexivity. }
  rewrite E. clear E.
  destruct Hkeep as (user' & Hl' & Hs').
  { exists user. split; [exact Hu|apply same_tokens_refl]. }
  simpl in Hl'.
  rewrite sync_run. cbv zeta. rewrite Hl'.
  rewrite <- (same_tokens_stored p user user' Hs'), Htok, Hempty.
  destruct (cycle_rerun S p u user user' tok (proj1 (proj2 Hs'))
              _ _ _ Hc (tick S (UserFindById u) wc)
              (same_db_tick S _ wc)) as (r' & w2 & H2 & Hs2 & Hr).
  unfold try_catch. rewrite H2.
  assert (Hi : items w2 = items wc).
  { destruct Hs2 as (Hi & _). rewrite <- Hi. reflexivity. }
  destruct Hr as [->|[e ->]]; split; auto.
Qed.

(** C1, as stated, fails: with the candidates unchanged, an email that
    the classifier judged not to be work on the first run and judges to
    be work on the second is imported by the second run. *)
Lemma second_run_may_import_a_reclassified_email :
  ~ idempotent_on_unchanged_candidates.
Proof.
  intros H.
  specialize (H (answering (dq "{'isWork': false, 'priority': 'low'}") one_message)
                (answering (dq "{'isWork': true, 'priority': 'high'}") one_message)
                Gmail "u1" None connected_world).
  destruct H as [H _].
  - repeat split.
  - vm_compute in H. discriminate H.
Qed.

(** *** The scenarios of the specification *)

(** A newsletter that the classifier judges not to be work: nothing is
    created and the run returns 0. *)
Example newsletter_is_skipped :
  let S := answering (dq "{'isWork': false, 'priority': 'low', 'reason': 'newsletter'}")
             one_message in
  fst (syncGmail S "u1" None connected_world) = Ok 0
  /\ items (snd (syncGmail S "u1" None connected_world)) = [].
Proof. split; vm_compute; reflexivity. Qed.

(** A chat whose last message is the remote id of an item of the user:
    nothing is created and the run returns 0; the run is a full success
    and stamps the Microsoft integration. *)
Example known_chat_is_skipped :
  fst (syncTeams one_chat "u2" None seeded_world) = Ok 0
  /\ items (snd (syncTeams one_chat "u2" None seeded_world)) = [seeded_item]
  /\ microsoft_lastSync (snd (syncTeams one_chat "u2" None seeded_world)) "u2"
     = Some 1003.
Proof. repeat split; vm_compute; reflexivity. Qed.

(** Two runs of the calendar sync on the same event: one item, one
    thread that lists it. *)
Example calendar_twice :
  let w1 := snd (syncCalendar one_event "u1" None connected_world) in
  let w2 := snd (syncCalendar one_event "u1" None w1) in
  fst (syncCalendar one_event "u1" None w1) = Ok 0
  /\ map item_id (items w2) = [1]
  /\ map itemIds (threads w2) = [[1]].
Proof. repeat split; vm_compute; reflexivity. Qed.

(** *** The sibling entry points do stamp *)

Lemma gmail_loop_leaves_users S u auth msgs n w :
  users (snd (for_of (syncGmail_body S u auth) msgs n w)) = users w.
Proof.
  apply (for_of_keeps (fun x => users x = users w)); [|reflexivity].
  intros msg k _.
  apply (gmail_body_keeps S (fun x => users x = users w));
    try (intros; assumption).
  intros. rewrite attach_users. assumption.
Qed.

Lemma teams_loop_leaves_users S u chats n w :
  users (snd (for_of (syncTeams_body S u) chats n w)) = users w.
Proof.
  apply (for_of_keeps (fun x => users x = users w)); [|reflexivity].
  intros chat k _.
  apply (teams_body_keeps S (fun x => users x = users w));
    try (intros; assumption).
  intros. rewrite attach_users. assumption.
Qed.

(** A Gmail cycle that completes stamps [lastSync] of the Google
    integration of the user, and changes nothing else in the document. *)
Lemma gmail_success_stamps S u user auth w n w' ig g :
  lookup_user u w = Some user ->
  integrations user = Some ig -> google ig = Some g ->
  syncGmail_cycle S u user auth w = (Ok n, w') ->
  exists t, lookup_user u w' = Some (stamp_google t user).
Proof.
  intros Hu Hig Hg. unfold syncGmail_cycle, bind at 1.
  destruct (gmail_messages_list S auth) as [|res];
    [rewrite call_fails; discriminate|rewrite call_returns].
  unfold bind at 1.
  pose proof (gmail_loop_leaves_users S u auth (list_or_empty res) 0
                (tick S (Remote (GmailMessagesList auth)) w)) as Hus.
  destruct (for_of _ _ 0 _) as [[k|e] wa]; [|discriminate].
  simpl in Hus. unfold stamp_google_lastSync. rewrite Hig, Hg.
  unfold bind, now, save_user, ret. intros H. injection H as _ <-.
  exists (clock wa). unfold lookup_user in *. simpl. rewrite Hus.
  assert (Hid : String.eqb (user_id user) u = true)
    by (apply find_some in Hu; apply Hu).
  apply String.eqb_eq in Hid. rewrite Hid.
  apply (find_update_first _ (fun _ => stamp_google (clock wa) user) _ user Hu).
  simpl. rewrite Hid. apply String.eqb_refl.
Qed.

(** So does a Teams cycle that runs its loop to the end, for the
    Microsoft integration. *)
Lemma teams_success_stamps S u user tok w n w' ig m reply :
  lookup_user u w = Some user ->
  integrations user = Some ig -> microsoft ig = Some m ->
  graph_chats S tok = Returns reply -> reply_ok reply = true ->
  syncTeams_cycle S u user tok w = (Ok n, w') ->
  exists t, lookup_user u w' = Some (stamp_microsoft t user).
Proof.
  intros Hu Hig Hm Hreply Hok. unfold syncTeams_cycle. cbv zeta.
  unfold bind at 1. rewrite Hreply, call_returns, Hok.
  change (negb true) with false. cbv iota.
  unfold bind at 1, reading.
  destruct (json_value reply) as [|data]; [simpl; discriminate|].
  unfold ret at 1. unfold bind at 1.
  pose proof (teams_loop_leaves_users S u (list_or_empty data) 0
                (tick S (Remote (GraphChats tok)) w)) as Hus.
  destruct (for_of _ _ 0 _) as [[k|e] wa]; [|discriminate].
  simpl in Hus. unfold stamp_microsoft_lastSync. rewrite Hig, Hm.
  unfold bind, now, updateOne_lastSync, ret. intros H. injection H as _ <-.
  exists (clock wa). unfold lookup_user in *. simpl. rewrite Hus.
  apply (find_update_first _ (stamp_microsoft (clock wa)) _ user Hu).
  simpl. apply find_some in Hu. apply Hu.
Qed.

End Run.

(* ===================================================================== *)
(** ** More facts about the sync engine *)
(* ===================================================================== *)

Module SyncFacts.

Import Js JSON Extract Model Store IntegrationService Spec SyncSpec Run.
Local Open Scope sync_scope.
Local Open Scope string_scope.

(** *** The import thread *)

Lemma find_none_filter {A} (f : A -> bool) l :
  find f l = None -> filter f l = [].
Proof.
  induction l as [|a l IH]; simpl; [reflexivity|].
  destruct (f a); [discriminate|exact IH].
Qed.

Lemma filter_update_first {A} (f p : A -> bool) (g : A -> A) l :
  (forall x, f (g x) = f x) ->
  length (filter f (update_first p g l)) = length (filter f l).
Proof.
  intros Hg. induction l as [|a l IH]; simpl; [reflexivity|].
  destruct (p a); simpl.
  - rewrite Hg. destruct (f a); reflexivity.
  - destruct (f a); simpl; rewrite IH; reflexivity.
Qed.

Lemma attach_threads S mk p count tid w :
  threads (snd (attach S mk p count tid w)) = threads w
  \/ exists i t,
       threads (snd (attach S mk p count tid w))
       = attached tid i t p (threads w).
Proof.
  unfold attach. destruct (rejects S _); simpl; [left; reflexivity|].
  right. do 2 eexists. reflexivity.
Qed.

Lemma is_thread_apply_update u i t p th :
  is_thread u "External Imports" (apply_update i t p th)
  = is_thread u "External Imports" th.
Proof. reflexivity. Qed.

Lemma sync_keeps_one_import_thread S p u override w :
  one_import_thread_each w ->
  one_import_thread_each (snd (sync S p u override w)).
Proof.
  apply (sync_keeps S one_import_thread_each); try (intros; assumption).
  - intros u' t w1 H Hnone u2. unfold import_threads. simpl.
    rewrite filter_app, length_app. simpl.
    unfold is_thread at 2. simpl.
    destruct (String.eqb_spec u' u2) as [->|Hne]; simpl.
    + rewrite (find_none_filter _ _ Hnone). simpl. lia.
    + specialize (H u2). unfold import_threads in H. simpl. lia.
  - intros u' key rid mk q count tid th w1 _ _ _ _ _ H u2.
    unfold import_threads.
    destruct (attach_threads S mk q count tid w1) as [E|(i & t & E)]; rewrite E.
    + apply H.
    + unfold attached. rewrite filter_update_first; [apply H|].
      intros x. apply is_thread_apply_update.
Qed.

(** X1. Whatever sync invocations run one after the other, a store in which
    no user has two External Imports threads is still such a store
    afterwards: the thread is created only when the lookup finds
    none. *)
Theorem import_thread_stays_unique invs w :
  one_import_thread_each w -> one_import_thread_each (run_all invs w).
Proof.
  revert w. induction invs as [|i invs IH]; intros w H; simpl.
  - exact H.
  - apply IH, sync_keeps_one_import_thread, H.
Qed.

Lemma import_thread_stays_unique_witness :
  one_import_thread_each connected_world
  /\ one_import_thread_each
       (run_all
          [ {| inv_services := one_event; inv_provider := Calendar;
               inv_user := "u1"; inv_override := None |};
            {| inv_services := flaky_tasks; inv_provider := Tasks;
               inv_user := "u1"; inv_override := None |} ]
          connected_world).
Proof.
  assert (H : one_import_thread_each connected_world).
  { intros u. simpl. lia. }
  split; [exact H|].
  apply (import_thread_stays_unique _ connected_world H).
Defined.

Lemma find_update_first_kept {A} (f p : A -> bool) (g : A -> A) l x :
  (forall y, f (g y) = f y) ->
  find f l = Some x ->
  find f (update_first p g l) = Some x
  \/ find f (update_first p g l) = Some (g x).
Proof.
  intros Hg. induction l as [|a l IH]; simpl; [discriminate|].
  destruct (p a); simpl.
  - rewrite Hg. destruct (f a); [|auto].
    intros H; injection H as ->. auto.
  - destruct (f a); auto.
Qed.

Lemma sync_keeps_import_thread_id S p u2 override u tid w :
  import_thread_id u w = Some tid ->
  import_thread_id u (snd (sync S p u2 override w)) = Some tid.
Proof.
  apply (sync_keeps S (fun x => import_thread_id u x = Some tid));
    try (intros; assumption).
  - intros u' t w1 H _. unfold import_thread_id in *. simpl.
    rewrite find_snoc.
    destruct (find (is_thread u "External Imports") (threads w1));
      [exact H|discriminate].
  - intros u' key rid mk q count tid' th w1 _ _ _ _ _ H.
    unfold import_thread_id in *.
    destruct (attach_threads S mk q count tid' w1) as [E|(i & t & E)];
      rewrite E; [exact H|].
    destruct (find (is_thread u "External Imports") (threads w1)) as [x|] eqn:Hx;
      [|discriminate].
    unfold attached.
    destruct (find_update_first_kept (is_thread u "External Imports")
                (fun th0 => Nat.eqb (thread_id th0) tid')
                (apply_update i t q) _ x (is_thread_apply_update u i t q) Hx)
      as [E'|E']; rewrite E'; exact H.
Qed.

(** X2. Once a user has an External Imports thread, it stays the one the
    lookup finds, under the same id, through every later sync run of
    any user and provider; [getOrCreateExternalThread] then returns that
    id and creates no thread. *)
Theorem import_thread_is_reused invs u tid w :
  import_thread_id u w = Some tid ->
  import_thread_id u (run_all invs w) = Some tid
  /\ forall S,
       fst (getOrCreateExternalThread S u (run_all invs w)) = Ok tid
       /\ threads (snd (getOrCreateExternalThread S u (run_all invs w)))
          = threads (run_all invs w).
Proof.
  intros H.
  assert (K : import_thread_id u (run_all invs w) = Some tid).
  { revert w H. induction invs as [|i invs IH]; intros w H; simpl.
    - exact H.
    - apply IH, sync_keeps_import_thread_id, H. }
  split; [exact K|].
  intros S. unfold import_thread_id in K.
  unfold getOrCreateExternalThread, findOne_thread, bind, emit. simpl.
  destruct (find _ (threads (run_all invs w))) as [th|]; [|discriminate].
  simpl in K. injection K as ->. split; reflexivity.
Qed.

(** *** Threads are updated in place *)

Lemma thread_kept_refl th : thread_kept th th.
Proof.
  repeat split. exists []. symmetry; apply app_nil_r.
Qed.

Lemma thread_kept_trans a b c :
  thread_kept a b -> thread_kept b c -> thread_kept a c.
Proof.
  intros (A1 & A2 & A3 & A4 & A5 & A6 & A7 & m1 & A8)
         (B1 & B2 & B3 & B4 & B5 & B6 & B7 & m2 & B8).
  repeat split; try congruence.
  exists (m1 ++ m2)%list. rewrite B8, A8, app_assoc. reflexivity.
Qed.

Lemma thread_kept_apply_update i t p th :
  thread_kept th (apply_update i t p th).
Proof.
  repeat split. simpl. unfold addToSet.
  destruct (existsb _ (itemIds th)).
  - exists []. symmetry; apply app_nil_r.
  - exists [i]. reflexivity.
Qed.

Lemma threads_kept_refl w : threads_kept w w.
Proof. intros n th H. exists th. split; [exact H|apply thread_kept_refl]. Qed.

Lemma threads_kept_trans w1 w2 w3 :
  threads_kept w1 w2 -> threads_kept w2 w3 -> threads_kept w1 w3.
Proof.
  intros H12 H23 n th Hn.
  destruct (H12 n th Hn) as (th2 & Hn2 & K2).
  destruct (H23 n th2 Hn2) as (th3 & Hn3 & K3).
  exists th3. split; [exact Hn3|eapply thread_kept_trans; eassumption].
Qed.

Lemma sync_keeps_threads S p u override w :
  threads_kept w (snd (sync S p u override w)).
Proof.
  apply (sync_keeps S (threads_kept w)); try (intros; assumption).
  - intros u' t w1 H _ n th Hn.
    destruct (H n th Hn) as (th1 & H1 & K). exists th1. split; [|exact K].
    simpl. apply nth_error_snoc_old, H1.
  - intros u' key rid mk q count tid th0 w1 _ _ _ _ _ H n th Hn.
    destruct (H n th Hn) as (th1 & H1 & K).
    destruct (attach_threads S mk q count tid w1) as [E|(i & t & E)]; rewrite E.
    + exists th1. auto.
    + unfold attached.
      destruct (nth_error_update_first
                  (fun x => Nat.eqb (thread_id x) tid) (apply_update i t q)
                  _ _ _ H1) as [H2|[_ H2]].
      * exists th1. auto.
      * eexists. split; [exact H2|].
        eapply thread_kept_trans; [exact K|apply thread_kept_apply_update].
  - apply threads_kept_refl.
Qed.

(** X3. Sync never removes or recreates a thread, and computes nothing of a
    thread but its priority and last activity: through any sequence of
    sync invocations every thread stays at its place with its id, user,
    title, description, progress, people and tags, and its item ids are
    only added to, at the end. *)
Theorem threads_are_updated_in_place invs w :
  threads_kept w (run_all invs w).
Proof.
  revert w. induction invs as [|i invs IH]; intros w; simpl.
  - apply threads_kept_refl.
  - eapply threads_kept_trans; [apply sync_keeps_threads|apply IH].
Qed.

Lemma import_thread_is_reused_witness :
  let w := snd (sync one_event Calendar "u1" None connected_world) in
  import_thread_id "u1" w = Some 0
  /\ import_thread_id "u1"
       (run_all [ {| inv_services := flaky_tasks; inv_provider := Tasks;
                     inv_user := "u1"; inv_override := None |} ] w)
     = Some 0.
Proof.
  cbv zeta.
  assert (H : import_thread_id "u1"
                (snd (sync one_event Calendar "u1" None connected_world))
              = Some 0) by reflexivity.
  split; [exact H|].
  exact (proj1 (import_thread_is_reused _ "u1" 0 _ H)).
Defined.

(** *** The count that is returned *)

Lemma materialize_counts S u mk p : counts (materialize S u mk p).
Proof.
  intros n w n1 w1. rewrite materialize_run. unfold attach.
  destruct (rejects S _); [discriminate|].
  intros H. injection H as <- <-. simpl.
  rewrite resolve_thread_items. eexists. split; [reflexivity|]. simpl. lia.
Qed.

Lemma execute_counts S u key pl : counts (execute S u key pl).
Proof.
  intros n w n1 w1.
  assert (Z : forall evs, (Ok n, ticks S evs w) = (Ok n1, w1) ->
                exists new, items w1 = (items w ++ new)%list
                            /\ n1 = n + length new).
  { intros evs H. injection H as <- <-. exists [].
    rewrite ticks_items, app_nil_r. split; [reflexivity|simpl; lia]. }
  destruct pl as [evs e| |evs rid v]; simpl.
  - discriminate.
  - apply (Z []).
  - destruct (find _ (items w)); [apply Z|].
    destruct v as [evs2|evs2 mk p].
    + intros H. injection H as <- <-. exists [].
      rewrite !ticks_items, app_nil_r. split; [reflexivity|simpl; lia].
    + intros H. apply materialize_counts in H.
      rewrite !ticks_items in H. exact H.
Qed.

Lemma for_of_counts {C} (body : C -> nat -> M nat) cs :
  (forall c, counts (body c)) -> counts (for_of body cs).
Proof.
  intros Hb. induction cs as [|c cs IH]; intros n w n1 w1; simpl.
  - intros H. injection H as <- <-. exists [].
    rewrite app_nil_r. split; [reflexivity|simpl; lia].
  - unfold bind. destruct (body c n w) as [[a|e] wa] eqn:E; [|discriminate].
    intros H. destruct (Hb c n w a wa E) as (new1 & H1 & ->).
    destruct (IH _ _ _ _ H) as (new2 & H2 & ->).
    exists (new1 ++ new2)%list.
    rewrite H2, H1, app_assoc, length_app. split; [reflexivity|lia].
Qed.

Lemma after_call_counts {A} S r (x : Response A) (m : A -> nat -> M nat) :
  (forall a, counts (m a)) -> counts (fun n => bind (call S r x) (fun a => m a n)).
Proof.
  intros Hm n w n1 w1. unfold bind. destruct x as [|a].
  - rewrite call_fails. discriminate.
  - rewrite call_returns. intros H. apply Hm in H. exact H.
Qed.

Lemma body_counts S u :
  (forall auth msg, counts (syncGmail_body S u auth msg))
  /\ (forall ev, counts (syncCalendar_body S u ev))
  /\ (forall list task, counts (syncTasks_task S u list task))
  /\ (forall chat, counts (syncTeams_body S u chat)).
Proof.
  repeat split; intros;
    intros n w n1 w1;
    [rewrite gmail_body_plan|rewrite calendar_body_plan
     |rewrite task_body_plan|rewrite teams_body_plan];
    apply execute_counts.
Qed.

(** A cycle that returns has returned the number of items it has
    created. *)
Lemma cycle_counts S p u user tok w n w' :
  cycle S p u user tok w = (Ok n, w') ->
  exists new, items w' = (items w ++ new)%list /\ length new = n.
Proof.
  destruct (body_counts S u) as (Hg & Hc & Ht & Hm).
  destruct p; simpl.
  - unfold syncGmail_cycle, bind at 1.
    destruct (gmail_messages_list S _) as [|res];
      [rewrite call_fails; discriminate|rewrite call_returns].
    unfold bind at 1.
    destruct (for_of _ _ 0 _) as [[k|e] wa] eqn:E; [|discriminate].
    apply (for_of_counts _ _ (Hg _)) in E. destruct E as (new & Hi & ->).
    destruct (stamp_google_idle S user (0 + length new) wa) as (w2 & E2 & Hs).
    rewrite E2. intros H. injection H as <- <-.
    exists new. destruct Hs as (<- & _). split; [exact Hi|reflexivity].
  - unfold syncCalendar_cycle, bind at 1, now. unfold bind at 1.
    destruct (calendar_events_list S _) as [|res];
      [rewrite call_fails; discriminate|rewrite call_returns].
    unfold bind.
    destruct (for_of _ _ 0 _) as [[k|e] wa] eqn:E; [|discriminate].
    apply (for_of_counts _ _ Hc) in E. destruct E as (new & Hi & ->).
    intros H. injection H as <- <-. exists new. split; [exact Hi|reflexivity].
  - unfold syncTasks_cycle, bind at 1.
    destruct (tasklists_list S _) as [|res];
      [rewrite call_fails; discriminate|rewrite call_returns].
    unfold bind at 1.
    destruct (for_of _ _ 0 _) as [[k|e] wa] eqn:E; [|discriminate].
    apply (for_of_counts (syncTasks_list S u _)) in E.
    + destruct E as (new & Hi & ->).
      intros H. injection H as <- <-. exists new. split; [exact Hi|reflexivity].
    + intros list. unfold syncTasks_list.
      apply (after_call_counts S _ _
               (fun res0 => for_of (syncTasks_task S u list) (list_or_empty res0))).
      intros res0. apply for_of_counts. apply Ht.
  - unfold syncTeams_cycle. cbv zeta. unfold bind at 1.
    destruct (graph_chats S tok) as [|reply];
      [rewrite call_fails; discriminate|rewrite call_returns].
    destruct (negb (reply_ok reply)).
    + destruct (Nat.eqb (status reply) 401).
      * intros H. injection H as <- <-. exists []. rewrite app_nil_r. auto.
      * unfold bind, reading. destruct (text_body reply); discriminate.
    + unfold bind at 1, reading.
      destruct (json_value reply) as [|data]; [simpl; discriminate|].
      unfold ret at 1. unfold bind at 1.
      destruct (for_of _ _ 0 _) as [[k|e] wa] eqn:E; [|discriminate].
      apply (for_of_counts _ _ Hm) in E. destruct E as (new & Hi & ->).
      destruct (stamp_microsoft_idle S u user (0 + length new) wa) as (w2 & E2 & Hs).
      rewrite E2. intros H. injection H as <- <-.
      exists new. destruct Hs as (<- & _). split; [exact Hi|reflexivity].
Qed.

(** X4. The number an entry point returns is the number of items the run
    has created, unless its cycle threw: then it is 0, whatever the run
    had created before the error. *)
Theorem count_is_items_created S p u override w :
  exists new,
    items (snd (sync S p u override w)) = (items w ++ new)%list
    /\ (fst (sync S p u override w) = Ok (length new)
        \/ (fst (sync S p u override w) = Ok 0
            /\ exists user tok e,
                 cycle S p u user tok (tick S (UserFindById u) w)
                 = (Throw e, snd (sync S p u override w)))).
Proof.
  pose proof (sync_keeps_items S p u override w) as K.
  rewrite sync_run in *. cbv zeta in *.
  assert (Z : items_kept w (tick S (UserFindById u) w) ->
              exists new,
                items (tick S (UserFindById u) w) = (items w ++ new)%list
                /\ (@Ok nat 0 = Ok (length new) \/ False)).
  { intros _. exists []. simpl. rewrite app_nil_r. auto. }
  destruct (lookup_user u w) as [user|];
    [|destruct (Z K) as (new & H1 & [H2|[]]); exists new; auto].
  destruct (Js.or override _) as [tok|];
    [|destruct (Z K) as (new & H1 & [H2|[]]); exists new; auto].
  destruct (String.eqb tok EmptyString);
    [destruct (Z K) as (new & H1 & [H2|[]]); exists new; auto|].
  unfold try_catch in *.
  destruct (cycle S p u user tok _) as [[n|e] w'] eqn:E; simpl in *.
  - apply cycle_counts in E. destruct E as (new & Hi & <-).
    exists new. auto.
  - destruct K as [new Hnew]. exists new. split; [exact Hnew|].
    right. split; [reflexivity|]. exists user, tok, e. exact E.
Qed.

(** *** The stamp of the last sync is for full success *)

Lemma calendar_cycle_users S u auth w :
  users (snd (syncCalendar_cycle S u auth w)) = users w.
Proof.
  apply (calendar_cycle_keeps S (fun x => users x = users w));
    try (intros; assumption); [|reflexivity].
  intros. rewrite attach_users. assumption.
Qed.

Lemma tasks_cycle_users S u auth w :
  users (snd (syncTasks_cycle S u auth w)) = users w.
Proof.
  apply (tasks_cycle_keeps S (fun x => users x = users w));
    try (intros; assumption); [|reflexivity].
  intros. rewrite attach_users. assumption.
Qed.

(** X5. A cycle that throws has not written any user document, so
    [lastSync] is as it was; the same holds when the Graph endpoint
    answers [syncTeams] with a status that is not a success, the 401 of
    an expired token included. *)
Theorem failed_cycle_leaves_users S p u user tok w :
  (forall e w1, cycle S p u user tok w = (Throw e, w1) -> users w1 = users w)
  /\ (forall reply,
        p = Teams -> graph_chats S tok = Returns reply ->
        reply_ok reply = false ->
        users (snd (cycle S p u user tok w)) = users w).
Proof.
  split.
  - intros e w1. destruct p; simpl.
    + unfold syncGmail_cycle, bind at 1.
      destruct (gmail_messages_list S _) as [|res].
      * rewrite call_fails. intros H. injection H as _ <-. reflexivity.
      * rewrite call_returns. unfold bind at 1.
        pose proof (gmail_loop_leaves_users S u
                      (createOAuthClient tok (google_refreshToken user))
                      (list_or_empty res) 0
                      (tick S (Remote (GmailMessagesList
                                         (createOAuthClient tok
                                            (google_refreshToken user)))) w))
          as Hus.
        destruct (for_of _ _ 0 _) as [[k|e0] wa].
        -- destruct (stamp_google_idle S user k wa) as (w2 & E2 & _).
           rewrite E2. discriminate.
        -- intros H. injection H as _ <-. exact Hus.
    + intros H. pose proof (calendar_cycle_users S u
                              (createOAuthClient tok (google_refreshToken user))
                              w) as K.
      rewrite H in K. exact K.
    + intros H. pose proof (tasks_cycle_users S u
                              (createOAuthClient tok (google_refreshToken user))
                              w) as K.
      rewrite H in K. exact K.
    + unfold syncTeams_cycle. cbv zeta. unfold bind at 1.
      destruct (graph_chats S tok) as [|reply].
      * rewrite call_fails. intros H. injection H as _ <-. reflexivity.
      * rewrite call_returns. destruct (negb (reply_ok reply)).
        -- destruct (Nat.eqb (status reply) 401); [discriminate|].
           unfold bind, reading.
           destruct (text_body reply); intros H; injection H as _ <-;
             reflexivity.
        -- unfold bind at 1, reading.
           destruct (json_value reply) as [|data].
           ++ intros H. injection H as _ <-. reflexivity.
           ++ unfold ret at 1. unfold bind at 1.
              pose proof (teams_loop_leaves_users S u (list_or_empty data) 0
                            (tick S (Remote (GraphChats tok)) w)) as Hus.
              destruct (for_of _ _ 0 _) as [[k|e0] wa].
              ** destruct (stamp_microsoft_idle S u user k wa) as (w2 & E2 & _).
                 rewrite E2. discriminate.
              ** intros H. injection H as _ <-. exact Hus.
  - intros reply -> Hreply Hok. simpl.
    unfold syncTeams_cycle. cbv zeta. unfold bind at 1.
    rewrite Hreply, call_returns, Hok. change (negb false) with true. cbv iota.
    destruct (Nat.eqb (status reply) 401); [reflexivity|].
    unfold bind, reading. destruct (text_body reply); reflexivity.
Qed.

Lemma failed_cycle_leaves_users_witness :
  users (snd (cycle expired_token Teams "u2" teams_user "eyJ.token" seeded_world))
  = users seeded_world.
Proof.
  exact (proj2 (failed_cycle_leaves_users expired_token Teams "u2" teams_user
                  "eyJ.token" seeded_world)
           _ eq_refl eq_refl eq_refl).
Defined.

(** *** An outage of the provider *)

(** X6. When the first fetch of a cycle fails, the entry point returns 0
    and has written nothing: users, items and threads are as they were,
    and one remote request has been made. *)
Theorem outage_writes_nothing S p u override w user tok :
  lookup_user u w = Some user ->
  Js.or override (stored_token p user) = Some tok ->
  tok <> EmptyString ->
  first_fetch_fails S p user tok ->
  fst (sync S p u override w) = Ok 0
  /\ users (snd (sync S p u override w)) = users w
  /\ items (snd (sync S p u override w)) = items w
  /\ threads (snd (sync S p u override w)) = threads w
  /\ length (remote_requests (snd (sync S p u override w)))
     = Datatypes.S (length (remote_requests w)).
Proof.
  intros Hu Htok Hne Hfail. rewrite sync_run. cbv zeta. rewrite Hu, Htok.
  destruct (String.eqb_spec tok EmptyString) as [->|_]; [congruence|].
  assert (L : forall r,
             length (remote_requests
                       (tick S (Remote r) (tick S (UserFindById u) w)))
             = Datatypes.S (length (remote_requests w))).
  { intros r. rewrite !remote_requests_tick, !length_app. simpl. lia. }
  unfold try_catch, first_fetch_fails in *.
  destruct p; simpl in *.
  - unfold syncGmail_cycle, bind at 1. rewrite Hfail, call_fails.
    repeat split. apply L.
  - unfold syncCalendar_cycle, bind at 1, now. unfold bind at 1.
    rewrite Hfail, call_fails. repeat split. apply L.
  - unfold syncTasks_cycle, bind at 1. rewrite Hfail, call_fails.
    repeat split. apply L.
  - unfold syncTeams_cycle. cbv zeta. unfold bind at 1.
    rewrite Hfail, call_fails. repeat split. apply L.
Qed.

Lemma outage_writes_nothing_witness :
  fst (sync no_services Gmail "u1" None connected_world) = Ok 0
  /\ items (snd (sync no_services Gmail "u1" None connected_world))
     = items connected_world.
Proof.
  destruct (outage_writes_nothing no_services Gmail "u1" None connected_world
              connected_user "ya29.token" eq_refl eq_refl
              ltac:(discriminate) eq_refl) as (H1 & _ & H3 & _).
  split; [exact H1|exact H3].
Defined.

(** *** Messages that are skipped *)

(** X7. A message that is already imported is skipped after its fetch and
    the dedup lookup: the classifier is not asked, and nothing is
    written. *)
Theorem known_message_is_not_classified S u auth msg count w details it :
  gmail_messages_get S auth (msg_id msg) = Returns details ->
  find (has_remote_id u "googleId" (msg_id msg)) (items w) = Some it ->
  syncGmail_body S u auth msg count w
  = (Ok count,
     ticks S [Remote (GmailMessagesGet auth (msg_id msg));
              ItemFindOne u "googleId" (msg_id msg)] w).
Proof.
  intros Hget Hfind. rewrite gmail_body_plan. unfold gmail_plan.
  rewrite Hget. cbv zeta. unfold execute. rewrite Hfind. reflexivity.
Qed.

(** X8. A new message that the classifier judges not to be work is skipped
    after the classification: no item is created, and the import thread
    is not even looked up. *)
Theorem non_work_message_writes_nothing S u auth msg count w details :
  gmail_messages_get S auth (msg_id msg) = Returns details ->
  find (has_remote_id u "googleId" (msg_id msg)) (items w) = None ->
  JSON.truthy
    (get (judgment S (gmail_subject details) (gmail_from details)
            (gmail_snippet details)) "isWork") = false ->
  syncGmail_body S u auth msg count w
  = (Ok count,
     ticks S [Remote (GmailMessagesGet auth (msg_id msg));
              ItemFindOne u "googleId" (msg_id msg);
              Remote (GenerateContent
                        (prompt (gmail_subject details) (gmail_from details)
                           (gmail_snippet details)))] w).
Proof.
  intros Hget Hfind Hwork. rewrite gmail_body_plan. unfold gmail_plan.
  rewrite Hget. cbv zeta. unfold execute. rewrite Hfind.
  unfold gmail_subject, gmail_from, gmail_snippet in Hwork.
  rewrite Hwork. reflexivity.
Qed.

Lemma known_message_is_not_classified_witness :
  syncGmail_body one_message "u1" google_auth {| msg_id := "m1" |} 0
    imported_world
  = (Ok 0,
     ticks one_message
       [Remote (GmailMessagesGet google_auth "m1");
        ItemFindOne "u1" "googleId" "m1"] imported_world).
Proof.
  exact (known_message_is_not_classified one_message "u1" google_auth
           {| msg_id := "m1" |} 0 imported_world newsletter_details
           imported_newsletter eq_refl eq_refl).
Defined.

Lemma non_work_message_writes_nothing_witness :
  let S := answering (dq "{'isWork': false, 'priority': 'low'}") one_message in
  items (snd (syncGmail_body S "u1" google_auth {| msg_id := "m1" |} 0
                connected_world)) = []
  /\ threads (snd (syncGmail_body S "u1" google_auth {| msg_id := "m1" |} 0
                     connected_world)) = [].
Proof.
  cbv zeta.
  rewrite (non_work_message_writes_nothing
             (answering (dq "{'isWork': false, 'priority': 'low'}") one_message)
             "u1" google_auth {| msg_id := "m1" |} 0 connected_world
             newsletter_details eq_refl eq_refl eq_refl).
  split; reflexivity.
Defined.

(** *** A classifier that is down *)

Lemma judgment_fallback S subject from snippet :
  classification_fails S (prompt subject from snippet) ->
  judgment S subject from snippet = fallback.
Proof.
  unfold judgment.
  intros [H|H|text H Hm|text m H Hm Hp]; rewrite H; try reflexivity.
  - rewrite Hm. reflexivity.
  - rewrite Hm, Hp. reflexivity.
Qed.

(** X9. A new message is imported even when its classification fails, as
    work of priority medium and without a reason: with a store that
    accepts the item, the body counts one more and the item created is
    the email, under the id of the message. *)
Theorem unclassified_message_is_imported S u auth msg count w details :
  gmail_messages_get S auth (msg_id msg) = Returns details ->
  find (has_remote_id u "googleId" (msg_id msg)) (items w) = None ->
  classification_fails S
    (prompt (gmail_subject details) (gmail_from details)
       (gmail_snippet details)) ->
  (forall i, rejects S i = false) ->
  exists it,
    fst (syncGmail_body S u auth msg count w) = Ok (Datatypes.S count)
    /\ items (snd (syncGmail_body S u auth msg count w))
       = (items w ++ [it])%list
    /\ type (item it) = email
    /\ title (item it) = gmail_subject details
    /\ priority (item it) = Some (JString (codes "medium"))
    /\ meta_get "googleId" (metadata (item it)) = MString (msg_id msg)
    /\ meta_get "aiReason" (metadata (item it)) = MUndefined.
Proof.
  intros Hget Hfind Hfail Hacc. apply judgment_fallback in Hfail.
  unfold gmail_subject, gmail_from, gmail_snippet in Hfail.
  rewrite gmail_body_plan. unfold gmail_plan. rewrite Hget. cbv zeta.
  rewrite Hfail. unfold execute. rewrite Hfind.
  change (negb (JSON.truthy (get fallback "isWork"))) with false. cbv iota.
  rewrite materialize_run. unfold attach. rewrite Hacc.
  eexists. split; [reflexivity|]. cbn [snd fst].
  split.
  { cbn [items tick put_threads add_item]. rewrite resolve_thread_items, !ticks_items.
    reflexivity. }
  cbn. repeat split; reflexivity.
Qed.

Lemma unclassified_message_is_imported_witness :
  exists it,
    items (snd (syncGmail_body one_message "u1" google_auth
                  {| msg_id := "m1" |} 0 connected_world)) = [it]
    /\ priority (item it) = Some (JString (codes "medium")).
Proof.
  destruct (unclassified_message_is_imported one_message "u1" google_auth
              {| msg_id := "m1" |} 0 connected_world newsletter_details
              eq_refl eq_refl (generation_throws one_message _ eq_refl)
              (fun _ => eq_refl))
    as (it & _ & Hi & _ & _ & Hp & _).
  exists it. split; [exact Hi|exact Hp].
Defined.

(** *** Upcoming events that are new *)

Lemma calendar_body_fresh S u ev count w :
  find (has_remote_id u "googleId" (event_id ev)) (items w) = None ->
  (forall i, rejects S i = false) ->
  exists it tid w1,
    syncCalendar_body S u ev count w = (Ok (Datatypes.S count), w1)
    /\ items w1 = (items w ++ [it])%list
    /\ item it = calendar_input u ev tid.
Proof.
  intros Hfresh Hacc. rewrite calendar_body_plan.
  unfold execute, calendar_plan. rewrite Hfresh, materialize_run.
  unfold attach. rewrite Hacc. eexists _, _, _.
  split; [reflexivity|]. cbn [items tick put_threads add_item].
  rewrite resolve_thread_items, !ticks_items. split; reflexivity.
Qed.

Lemma other_event_stays_fresh u ev ev' it tid l :
  event_id ev <> event_id ev' ->
  item it = calendar_input u ev tid ->
  find (has_remote_id u "googleId" (event_id ev')) l = None ->
  find (has_remote_id u "googleId" (event_id ev')) (l ++ [it])%list = None.
Proof.
  intros Hne Hit Hl. rewrite find_snoc, Hl.
  unfold has_remote_id. rewrite Hit. cbn.
  destruct (String.eqb_spec (event_id ev) (event_id ev')); [contradiction|].
  rewrite andb_false_r. reflexivity.
Qed.

Lemma calendar_loop_fresh S u evs :
  (forall i, rejects S i = false) ->
  NoDup (map event_id evs) ->
  forall count w,
    (forall ev, In ev evs ->
       find (has_remote_id u "googleId" (event_id ev)) (items w) = None) ->
    exists new w1,
      for_of (syncCalendar_body S u) evs count w
      = (Ok (count + length evs), w1)
      /\ items w1 = (items w ++ new)%list
      /\ imports_of u evs new.
Proof.
  intros Hacc. induction evs as [|ev evs IH]; intros Hnd count w Hfresh.
  - exists [], w. simpl. rewrite Nat.add_0_r, app_nil_r.
    repeat split. constructor.
  - simpl in Hnd. inversion Hnd as [|x l Hnotin Hnd']; subst.
    destruct (calendar_body_fresh S u ev count w (Hfresh ev (or_introl eq_refl))
                Hacc) as (it & tid & w1 & Hrun & Hitems & Hit).
    destruct (IH Hnd' (Datatypes.S count) w1) as (new & w2 & Hloop & Hitems2 & Himp).
    { intros ev' Hin. rewrite Hitems.
      apply (other_event_stays_fresh u ev ev' it tid); [|exact Hit|].
      - intros Heq. apply Hnotin. rewrite Heq. apply in_map. exact Hin.
      - apply Hfresh. right. exact Hin. }
    exists (it :: new), w2. simpl. unfold bind. rewrite Hrun, Hloop.
    split; [f_equal; f_equal; lia|]. split.
    + rewrite Hitems2, Hitems, <- app_assoc. reflexivity.
    + constructor; [exists tid; exact Hit|exact Himp].
Qed.

(** X10. When the upcoming events that Google lists have distinct ids, none
    of them is imported yet and the store accepts the items, the cycle
    of [syncCalendar] imports them all: it counts every event, and the
    items it appends are those of the events, one for one and in the
    order of the list. *)
Theorem fresh_events_are_all_imported S u auth w res :
  calendar_events_list S auth = Returns res ->
  NoDup (map event_id (list_or_empty res)) ->
  (forall ev, In ev (list_or_empty res) ->
     find (has_remote_id u "googleId" (event_id ev)) (items w) = None) ->
  (forall i, rejects S i = false) ->
  exists new,
    fst (syncCalendar_cycle S u auth w) = Ok (length (list_or_empty res))
    /\ items (snd (syncCalendar_cycle S u auth w)) = (items w ++ new)%list
    /\ imports_of u (list_or_empty res) new.
Proof.
  intros Hlist Hnd Hfresh Hacc.
  destruct (calendar_loop_fresh S u (list_or_empty res) Hacc Hnd 0
              (tick S (Remote (CalendarEventsList auth (clock w))) w))
    as (new & w1 & Hloop & Hitems & Himp).
  { exact Hfresh. }
  assert (E : syncCalendar_cycle S u auth w
              = (Ok (length (list_or_empty res)), w1)).
  { unfold syncCalendar_cycle, bind at 1, now. unfold bind at 1.
    rewrite Hlist, call_returns. unfold bind at 1. rewrite Hloop.
    reflexivity. }
  rewrite E. exists new.
  split; [reflexivity|]. split; [exact Hitems|exact Himp].
Qed.

Lemma fresh_events_are_all_imported_witness :
  exists new,
    fst (syncCalendar_cycle one_event "u1" google_auth connected_world) = Ok 1
    /\ items (snd (syncCalendar_cycle one_event "u1" google_auth
                     connected_world)) = new
    /\ length new = 1.
Proof.
  destruct (fresh_events_are_all_imported one_event "u1" google_auth
              connected_world _ eq_refl)
    as (new & Hn & Hi & Himp).
  - simpl. constructor; [intros []|constructor].
  - intros ev _. reflexivity.
  - intros i. reflexivity.
  - exists new. split; [exact Hn|]. split; [exact Hi|].
    inversion Himp as [|? ? ? ? _ Hrest]; subst.
    inversion Hrest; subst. reflexivity.
Defined.

(** *** Steps of a sync run, by event and by input

    A property of the world that is kept by the events among [P], by
    the inserts of the inputs among [Q] and by the writes to threads
    and users is kept by a run whose requests are among [P] and whose
    inputs are among [Q]. *)
Section Steps.

Variable S : Services.
Variable I : World -> Prop.
Variable P : Event -> Prop.
Variable Q : WorkItemInput -> Prop.

Hypothesis I_ev : forall ev w, P ev -> I w -> I (tick S ev w).
Hypothesis P_local : forall ev, local ev -> P ev.
Hypothesis I_thread : forall t w, I w -> I (add_thread t w).
Hypothesis I_threads : forall ts w, I w -> I (put_threads ts w).
Hypothesis I_item : forall it w, Q (item it) -> I w -> I (add_item it w).
Hypothesis I_users : forall us w, I w -> I (put_users us w).

Lemma ticks_steps evs w : Forall P evs -> I w -> I (ticks S evs w).
Proof.
  revert w; induction evs as [|ev r IH]; intros w Hp H; simpl; [exact H|].
  inversion Hp; subst. apply IH; [assumption|]. apply I_ev; assumption.
Qed.

Lemma call_steps {A} r (x : Response A) :
  P (Remote r) -> keeps I (call S r x).
Proof.
  intros Hp w H. destruct x; [rewrite call_fails|rewrite call_returns];
    simpl; apply I_ev; assumption.
Qed.

Lemma resolve_thread_steps u w : I w -> I (snd (resolve_thread S u w)).
Proof.
  intros H. unfold resolve_thread.
  destruct (find _ (threads w)); simpl.
  - apply I_ev; [apply P_local; exact Logic.I|exact H].
  - apply I_ev; [apply P_local; exact Logic.I|].
    apply I_thread, I_ev; [apply P_local; exact Logic.I|exact H].
Qed.

Lemma attach_steps mk p count tid w :
  (forall t tid, Q (mk t tid)) -> I w -> I (snd (attach S mk p count tid w)).
Proof.
  intros Hq H. unfold attach. destruct (rejects S _); simpl.
  - apply I_ev; [apply P_local; exact Logic.I|exact H].
  - apply I_ev; [apply P_local; exact Logic.I|]. apply I_threads.
    apply I_ev; [apply P_local; exact Logic.I|]. apply I_item; [|exact H].
    apply Hq.
Qed.

Lemma execute_steps u key pl count :
  plan_fits P Q pl -> keeps I (execute S u key pl count).
Proof.
  intros Hfit w H. destruct pl as [evs e| |evs rid v]; simpl in *.
  - apply ticks_steps; assumption.
  - exact H.
  - destruct Hfit as [Hevs Hv].
    assert (H1 : I (ticks S (evs ++ [ItemFindOne u key rid]) w)).
    { apply ticks_steps; [|exact H]. apply Forall_app. split; [exact Hevs|].
      constructor; [apply P_local; exact Logic.I|constructor]. }
    destruct (find _ (items w)); simpl; [exact H1|].
    destruct v as [evs2|evs2 mk p]; simpl.
    + apply ticks_steps; assumption.
    + destruct Hv as [Hevs2 Hq]. rewrite materialize_run.
      apply attach_steps; [exact Hq|]. apply resolve_thread_steps.
      apply ticks_steps; assumption.
Qed.

Lemma gmail_plan_fits u auth msg :
  (forall r, serves Gmail auth EmptyString r -> P (Remote r)) ->
  (forall i, made_by Gmail u i -> Q i) ->
  plan_fits P Q (gmail_plan S u auth msg).
Proof.
  intros Hp Hq. unfold gmail_plan.
  assert (Hget : Forall P [Remote (GmailMessagesGet auth (msg_id msg))]).
  { constructor; [apply Hp; reflexivity|constructor]. }
  destruct (gmail_messages_get S auth (msg_id msg)) as [|details];
    [exact Hget|].
  cbv zeta. split; [exact Hget|].
  assert (Hask : forall x, Forall P [Remote (GenerateContent x)]).
  { intros x. constructor; [apply Hp; exact Logic.I|constructor]. }
  destruct (negb (JSON.truthy _)); [apply Hask|].
  split; [apply Hask|]. intros _ tid. apply Hq. simpl. eauto.
Qed.

Lemma store_plan_fits p u pl :
  (forall i, made_by p u i -> Q i) ->
  (exists ev, p = Calendar /\ pl = calendar_plan u ev)
  \/ (exists list task, p = Tasks /\ pl = task_plan u list task)
  \/ (exists chat, p = Teams /\ pl = teams_plan u chat) ->
  plan_fits P Q pl.
Proof.
  intros Hq [(ev & -> & ->)|[(list & task & -> & ->)|(chat & -> & ->)]].
  - simpl. repeat split; try constructor. intros _ tid. apply Hq. simpl. eauto.
  - simpl. repeat split; try constructor. intros t tid. apply Hq. simpl. eauto.
  - unfold teams_plan. destruct (last_message chat) as [[m text]|];
      [|exact Logic.I].
    simpl. repeat split; try constructor. intros t tid. apply Hq. simpl.
    eauto 6.
Qed.

Lemma save_user_steps user : keeps I (save_user S user).
Proof.
  intros w H; simpl. apply I_ev; [apply P_local; exact Logic.I|].
  apply I_users, H.
Qed.

Lemma updateOne_steps u t : keeps I (updateOne_lastSync S u t).
Proof.
  intros w H; simpl. apply I_ev; [apply P_local; exact Logic.I|].
  apply I_users, H.
Qed.

Lemma cycle_steps p u user tok :
  (forall r,
     serves p (createOAuthClient tok (google_refreshToken user)) tok r ->
     P (Remote r)) ->
  (forall i, made_by p u i -> Q i) ->
  keeps I (cycle S p u user tok).
Proof.
  intros Hp Hq. destruct p; simpl.
  - unfold syncGmail_cycle.
    apply bind_keeps; [apply call_steps, Hp; reflexivity|intros res].
    apply bind_keeps.
    { apply for_of_keeps. intros msg n _ w H. rewrite gmail_body_plan.
      apply execute_steps; [|exact H]. apply gmail_plan_fits; [|exact Hq].
      intros r Hr. apply Hp. destruct r; simpl in *; auto. }
    intros n. apply bind_keeps; [|intros _; apply ret_keeps].
    unfold stamp_google_lastSync.
    destruct (integrations user) as [ig|]; [|apply ret_keeps].
    destruct (google ig); [|apply ret_keeps].
    apply bind_keeps; [apply now_keeps|intros t; apply save_user_steps].
  - unfold syncCalendar_cycle.
    apply bind_keeps; [apply now_keeps|intros t].
    apply bind_keeps; [apply call_steps, Hp; reflexivity|intros res].
    apply bind_keeps; [|intros n; apply ret_keeps].
    apply for_of_keeps. intros ev n _ w H. rewrite calendar_body_plan.
    apply execute_steps; [|exact H].
    apply (store_plan_fits Calendar u); eauto.
  - unfold syncTasks_cycle.
    apply bind_keeps; [apply call_steps, Hp; reflexivity|intros res].
    apply bind_keeps; [|intros n; apply ret_keeps].
    apply for_of_keeps. intros list n _. unfold syncTasks_list.
    apply bind_keeps; [apply call_steps, Hp; reflexivity|intros res2].
    apply for_of_keeps. intros task n' _ w H. rewrite task_body_plan.
    apply execute_steps; [|exact H].
    apply (store_plan_fits Tasks u); eauto 6.
  - unfold syncTeams_cycle. cbv zeta.
    apply bind_keeps; [apply call_steps, Hp; reflexivity|intros response].
    destruct (negb (reply_ok response)).
    + destruct (Nat.eqb _ 401); [apply ret_keeps|].
      apply bind_keeps; [apply reading_keeps|intros; apply throw_keeps].
    + apply bind_keeps; [apply reading_keeps|intros data].
      apply bind_keeps.
      { apply for_of_keeps. intros chat n _ w H. rewrite teams_body_plan.
        apply execute_steps; [|exact H].
        apply (store_plan_fits Teams u); eauto 6. }
      intros n. apply bind_keeps; [|intros _; apply ret_keeps].
      unfold stamp_microsoft_lastSync.
      destruct (integrations user) as [ig|]; [|apply ret_keeps].
      destruct (microsoft ig); [|apply ret_keeps].
      apply bind_keeps; [apply now_keeps|intros t; apply updateOne_steps].
Qed.

Lemma sync_steps p u override w :
  (forall r, resolved_request p u override w r -> P (Remote r)) ->
  (forall i, made_by p u i -> Q i) ->
  I w -> I (snd (sync S p u override w)).
Proof.
  intros Hp Hq H. rewrite sync_run. cbv zeta.
  assert (H1 : I (tick S (UserFindById u) w)).
  { apply I_ev; [apply P_local; exact Logic.I|exact H]. }
  destruct (lookup_user u w) as [user|] eqn:Hu; [|exact H1].
  destruct (Js.or override _) as [tok|] eqn:Htok; [|exact H1].
  destruct (String.eqb_spec tok EmptyString) as [|Hne]; [exact H1|].
  apply try_catch_keeps; [|intros e; apply ret_keeps|exact H1].
  apply cycle_steps; [|exact Hq].
  intros r Hr. apply Hp. exists user, tok. auto.
Qed.

End Steps.

(** *** Whom a run talks to *)

Lemma requests_tick S ev w :
  requests (tick S ev w)
  = (requests w ++ match ev with Remote r => [r] | _ => [] end)%list.
Proof.
  unfold requests, requests_of. simpl. rewrite flat_map_app. simpl.
  rewrite app_nil_r. reflexivity.
Qed.

(** X11. A sync run makes requests only to the API of its provider, all
    with the client or the token of the run, which is the token of the
    caller when there is one and the stored token otherwise, and is not
    empty; the classifier is asked by the email sync only. *)
Theorem requests_carry_the_resolved_token S p u override w :
  exists new,
    requests (snd (sync S p u override w)) = (requests w ++ new)%list
    /\ Forall (resolved_request p u override w) new.
Proof.
  apply (sync_steps S
           (fun x => exists new,
                requests x = (requests w ++ new)%list
                /\ Forall (resolved_request p u override w) new)
           (fun ev => match ev with
                      | Remote r => resolved_request p u override w r
                      | _ => True
                      end)
           (fun _ => True)).
  - intros ev x Hev (new & Hn & Hall). rewrite requests_tick, Hn, <- app_assoc.
    eexists; split; [reflexivity|]. apply Forall_app. split; [exact Hall|].
    destruct ev; constructor; [exact Hev|constructor].
  - intros [] H; try exact Logic.I. destruct H.
  - intros t x H; exact H.
  - intros ts x H; exact H.
  - intros it x _ H; exact H.
  - intros us x H; exact H.
  - intros r H; exact H.
  - intros i _; exact Logic.I.
  - exists []. rewrite app_nil_r. split; [reflexivity|constructor].
Qed.

(** *** What the items of a provider have in common *)




End SyncFacts.

(* ===================================================================== *)
(** ** Facts about the creation of meetings *)
(* ===================================================================== *)

Module MeetingFacts.

Import Js Model IntegrationService Meetings.
Local Open Scope string_scope.
Local Open Scope script_scope.

Lemma falsy_token (tok : option string) :
  Js.truthy tok = false -> tok = None \/ tok = Some EmptyString.
Proof.
  destruct tok as [s|]; [|left; reflexivity]. simpl.
  destruct (String.eqb_spec s EmptyString) as [->|]; [right; reflexivity|].
  discriminate.
Qed.

Lemma truthy_token (tok : option string) :
  Js.truthy tok = true ->
  exists s, tok = Some s /\ String.eqb s EmptyString = false.
Proof.
  destruct tok as [s|]; [|discriminate]. simpl.
  destruct (String.eqb s EmptyString) eqn:E; simpl; [discriminate|].
  intros _. exists s. split; [reflexivity|exact E].
Qed.

Lemma findById_run us u :
  findById us u = (Return (lookup us u), [FindById u]).
Proof. reflexivity. Qed.

(** X13. Without a user under the id, or without a stored access token of
    the provider, a creator raises the error that says so, after the
    lookup of the user and without a request to the provider. *)
Theorem meeting_needs_a_connected_account O us u d :
  (lookup us u = None ->
   createCalendarEvent O us u d
   = (Raise (Error "User not found"), [FindById u])
   /\ createTeamsMeeting O us u d
      = (Raise (Error "User not found"), [FindById u]))
  /\ (forall user,
        lookup us u = Some user ->
        (Js.truthy (google_accessToken user) = false ->
         createCalendarEvent O us u d
         = (Raise (Error "Google integration not connected"), [FindById u]))
        /\ (Js.truthy (microsoft_accessToken user) = false ->
            createTeamsMeeting O us u d
            = (Raise (Error "Microsoft integration not connected"),
               [FindById u]))).
Proof.
  unfold createCalendarEvent, createTeamsMeeting. rewrite findById_run.
  split.
  - intros ->. split; reflexivity.
  - intros user ->. split; intros H; apply falsy_token in H;
      destruct H as [H|H]; simpl; rewrite H; reflexivity.
Qed.

Lemma meeting_needs_a_connected_account_witness :
  createCalendarEvent refusing [signed_up] "u3" standup
  = (Raise (Error "Google integration not connected"), [FindById "u3"])
  /\ createTeamsMeeting refusing [signed_up] "u9" standup
     = (Raise (Error "User not found"), [FindById "u9"]).
Proof.
  split.
  - exact (proj1 (proj2 (meeting_needs_a_connected_account refusing
                           [signed_up] "u3" standup) signed_up eq_refl)
             eq_refl).
  - exact (proj2 (proj1 (meeting_needs_a_connected_account refusing
                           [signed_up] "u9" standup) eq_refl)).
Defined.

(** X14. A start or an end that is not a date raises the [RangeError] of
    the engine as it is: the event is built before the [try], so the
    error is not wrapped, and no request is made. *)
Theorem invalid_time_is_not_wrapped O us u d user :
  lookup us u = Some user ->
  toISOString O (startTime d) = None \/ toISOString O (endTime d) = None ->
  (Js.truthy (google_accessToken user) = true ->
   createCalendarEvent O us u d
   = (Raise (RangeError (invalid_time O)), [FindById u]))
  /\ (Js.truthy (microsoft_accessToken user) = true ->
      createTeamsMeeting O us u d
      = (Raise (RangeError (invalid_time O)), [FindById u])).
Proof.
  intros Hu Hbad.
  unfold createCalendarEvent, createTeamsMeeting. rewrite findById_run, Hu.
  split; intros H; apply truthy_token in H; destruct H as (tok & Ht & Hne);
    simpl; rewrite Ht, Hne; unfold iso;
    destruct (toISOString O (startTime d)) as [s|]; try reflexivity;
    destruct Hbad as [Hbad|Hbad]; try discriminate; rewrite Hbad; reflexivity.
Qed.

Lemma invalid_time_is_not_wrapped_witness :
  createTeamsMeeting refusing [both_connected] "u1" no_end
  = (Raise (RangeError "Invalid time value"), [FindById "u1"]).
Proof.
  exact (proj2 (invalid_time_is_not_wrapped refusing [both_connected] "u1"
                  no_end both_connected eq_refl (or_intror eq_refl))
           eq_refl).
Defined.

(** X15. [createCalendarEvent] ends in one of two ways.  Either it has only
    looked the user up, and raises one of three errors; or it has made
    one request after the lookup, with the stored credentials of the
    user and an event that has the title, the attendees and the times
    of the details, and it returns a link or raises an error whose
    message begins with the words of the [catch]. *)
Theorem calendar_event_outcomes O us u d :
  (snd (createCalendarEvent O us u d) = [FindById u]
   /\ (fst (createCalendarEvent O us u d) = Raise (Error "User not found")
       \/ fst (createCalendarEvent O us u d)
          = Raise (Error "Google integration not connected")
       \/ fst (createCalendarEvent O us u d)
          = Raise (RangeError (invalid_time O))))
  \/ (exists user tok ev,
        lookup us u = Some user
        /\ google_accessToken user = Some tok
        /\ snd (createCalendarEvent O us u d)
           = [FindById u;
              EventsInsert (createOAuthClient tok (google_refreshToken user))
                ev]
        /\ summary ev = title d
        /\ attendee_emails ev = attendees d
        /\ toISOString O (startTime d) = Some (start_dateTime ev)
        /\ toISOString O (endTime d) = Some (end_dateTime ev)
        /\ ((exists link, fst (createCalendarEvent O us u d) = Return link)
            \/ exists m,
                 fst (createCalendarEvent O us u d)
                 = Raise (Error ("Failed to create meeting: " ++ m)))).
Proof.
  unfold createCalendarEvent. rewrite findById_run.
  destruct (lookup us u) as [user|]; [|left; simpl; auto].
  simpl. destruct (google_accessToken user) as [tok|] eqn:Ht;
    [|left; simpl; auto].
  destruct (String.eqb tok EmptyString); [left; simpl; auto|].
  unfold iso.
  destruct (toISOString O (startTime d)) as [s|]; [|left; simpl; auto].
  destruct (toISOString O (endTime d)) as [e|]; [|left; simpl; auto].
  right. exists user, tok.
  exists {| summary := title d; event_description := description d;
            start_dateTime := s; end_dateTime := e;
            attendee_emails := attendees d; requestId := random_id O |}.
  simpl. rewrite map_id.
  split; [reflexivity|]. split; [exact Ht|].
  destruct (events_insert O _ _) as [link|m]; simpl;
    repeat (split; [reflexivity|]); eauto.
Qed.

(** X16. [createTeamsMeeting] ends in one of two ways.  Either it has only
    looked the user up, and raises one of three errors; or it has made
    one request after the lookup, with the stored token of the user as
    bearer and an event that has the title, the attendees and the times
    of the details, and it returns the links or raises an error whose
    message begins with the words of the [catch]. *)
Theorem teams_meeting_outcomes O us u d :
  (snd (createTeamsMeeting O us u d) = [FindById u]
   /\ (fst (createTeamsMeeting O us u d) = Raise (Error "User not found")
       \/ fst (createTeamsMeeting O us u d)
          = Raise (Error "Microsoft integration not connected")
       \/ fst (createTeamsMeeting O us u d)
          = Raise (RangeError (invalid_time O))))
  \/ (exists user tok ev,
        lookup us u = Some user
        /\ microsoft_accessToken user = Some tok
        /\ snd (createTeamsMeeting O us u d)
           = [FindById u; PostEvent ("Bearer " ++ tok) ev]
        /\ subject ev = title d
        /\ attendee_addresses ev = attendees d
        /\ toISOString O (startTime d) = Some (graph_start ev)
        /\ toISOString O (endTime d) = Some (graph_end ev)
        /\ ((exists links, fst (createTeamsMeeting O us u d) = Return links)
            \/ exists m,
                 fst (createTeamsMeeting O us u d)
                 = Raise (Error ("Failed to create Teams meeting: " ++ m)))).
Proof.
  unfold createTeamsMeeting. rewrite findById_run.
  destruct (lookup us u) as [user|]; [|left; simpl; auto].
  simpl. destruct (microsoft_accessToken user) as [tok|] eqn:Ht;
    [|left; simpl; auto].
  destruct (String.eqb tok EmptyString); [left; simpl; auto|].
  unfold iso.
  destruct (toISOString O (startTime d)) as [s|]; [|left; simpl; auto].
  destruct (toISOString O (endTime d)) as [e|]; [|left; simpl; auto].
  right. exists user, tok.
  exists {| subject := title d;
            body_content := or_lit (description d) EmptyString;
            graph_start := s; graph_end := e;
            attendee_addresses := attendees d |}.
  simpl. rewrite map_id.
  split; [reflexivity|]. split; [exact Ht|].
  destruct (fetch_events O _ _) as [reply|m]; simpl;
    [|repeat (split; [reflexivity|]); eauto].
  destruct (negb (response_ok reply)).
  - destruct (reply_text reply); simpl;
      repeat (split; [reflexivity|]); eauto.
  - destruct (reply_json reply) as [[data|]|]; simpl;
      repeat (split; [reflexivity|]); eauto.
Qed.

(** X17. A response of Graph with a status that is not a success, the 401
    of an expired token included, makes [createTeamsMeeting] raise an
    error that reports the status and the text of the response. *)
Theorem graph_refusal_is_reported O us u d user tok s e reply text :
  lookup us u = Some user ->
  microsoft_accessToken user = Some tok ->
  tok <> EmptyString ->
  toISOString O (startTime d) = Some s ->
  toISOString O (endTime d) = Some e ->
  (forall ev, fetch_events O ("Bearer " ++ tok) ev = Answered reply) ->
  response_ok reply = false ->
  reply_text reply = Answered text ->
  fst (createTeamsMeeting O us u d)
  = Raise (Error ("Failed to create Teams meeting: "
                  ++ "Microsoft Graph API error: "
                  ++ decimal (reply_status reply) ++ " " ++ text)).
Proof.
  intros Hu Ht Hne Hs He Hfetch Hok Htext.
  unfold createTeamsMeeting. rewrite findById_run, Hu. simpl. rewrite Ht.
  destruct (String.eqb_spec tok EmptyString); [contradiction|].
  unfold iso. rewrite Hs, He. simpl. rewrite Hfetch. simpl.
  rewrite Hok, Htext. reflexivity.
Qed.

Lemma graph_refusal_is_reported_witness :
  fst (createTeamsMeeting refusing [both_connected] "u1" standup)
  = Raise (Error ("Failed to create Teams meeting: "
                  ++ "Microsoft Graph API error: 403 Forbidden")).
Proof.
  exact (graph_refusal_is_reported refusing [both_connected] "u1" standup
           both_connected "eyJ.token" _ _ _ "Forbidden"
           eq_refl eq_refl ltac:(discriminate) eq_refl eq_refl
           (fun _ => eq_refl) eq_refl eq_refl).
Defined.

End MeetingFacts.

(* ===================================================================== *)
(** ** Facts about the chat client *)
(* ===================================================================== *)

Module OllamaFacts.

Import Js Meetings Ollama.
Local Open Scope string_scope.

Lemma string_app_assoc (a b c : string) : (a ++ b) ++ c = a ++ (b ++ c).
Proof. induction a as [|x a IH]; simpl; [|rewrite IH]; reflexivity. Qed.

Lemma prefix_app (a b : string) : String.prefix a (a ++ b) = true.
Proof.
  induction a as [|x a IH]; simpl; [destruct b; reflexivity|].
  destruct (Ascii.ascii_dec x x); [exact IH|contradiction].
Qed.

Lemma includes_app (pre sub post : string) :
  includes (pre ++ sub ++ post) sub = true.
Proof.
  induction pre as [|x pre IH].
  - change (EmptyString ++ sub ++ post) with (sub ++ post).
    pose proof (prefix_app sub post) as H.
    destruct (sub ++ post); cbn [includes]; rewrite H; reflexivity.
  - change (String x pre ++ sub ++ post) with (String x (pre ++ sub ++ post)).
    cbn [includes]. rewrite IH. apply orb_true_r.
Qed.

Lemma forEach_acc i l acc :
  forEach i l acc = acc ++ forEach i l EmptyString.
Proof.
  revert i acc. induction l as [|m l IH]; intros i acc; simpl.
  - induction acc as [|x acc IHa]; simpl; [|rewrite <- IHa]; reflexivity.
  - rewrite (IH _ (acc ++ render i m)), (IH _ (render i m)).
    apply string_app_assoc.
Qed.

Lemma forEach_snoc i l m acc :
  forEach i (l ++ [m])%list acc = forEach i l acc ++ render (i + length l) m.
Proof.
  revert i acc. induction l as [|x l IH]; intros i acc; simpl.
  - rewrite Nat.add_0_r. reflexivity.
  - rewrite IH. rewrite <- Nat.add_succ_comm. reflexivity.
Qed.

Lemma format_spoken h : spoken (format h).
Proof.
  unfold spoken, format. simpl. destruct (h_role h) as [r|]; [|left; reflexivity].
  destruct (String.eqb r "model" || String.eqb r "assistant");
    [right|left]; reflexivity.
Qed.

Lemma sendMessage_spoken post message h :
  Forall spoken h -> Forall spoken (snd (sendMessage post message h)).
Proof.
  intros H. unfold sendMessage. cbv zeta.
  assert (Hs : Forall spoken (h ++ [{| role := "user"; content := message |}])).
  { apply Forall_app. split; [exact H|].
    constructor; [left; reflexivity|constructor]. }
  destruct (post _); simpl; [|exact Hs].
  apply Forall_app. split; [exact Hs|].
  constructor; [right; reflexivity|constructor].
Qed.

(** X18. Whatever the history a chat is started with and whatever the model
    answers, the history of the chat only has messages of the roles
    user and assistant: the role system is given to a message when the
    prompt is written, and is never stored. *)
Theorem history_has_two_roles post history messages :
  Forall spoken (snd (converse post messages (startChat history))).
Proof.
  assert (H0 : Forall spoken (startChat history)).
  { unfold startChat. apply Forall_forall. intros m Hin.
    apply in_map_iff in Hin. destruct Hin as (h & <- & _).
    apply format_spoken. }
  revert H0. generalize (startChat history) as h.
  induction messages as [|message rest IH]; intros h H; simpl; [exact H|].
  apply IH, sendMessage_spoken, H.
Qed.

(** X19. The history of a chat only grows, at its end: by the message and
    the answer for a send that returns, and by the message alone for a
    send that fails, so that the message of a failed send stays in the
    history of the next. *)
Theorem history_only_grows post messages h :
  exists more,
    snd (converse post messages h) = (h ++ more)%list
    /\ length more
       = length messages + returned (fst (converse post messages h)).
Proof.
  revert h. induction messages as [|message rest IH]; intros h; simpl.
  - exists []. rewrite app_nil_r. split; reflexivity.
  - destruct (IH (snd (sendMessage post message h))) as (more & Hm & Hlen).
    rewrite Hm. unfold returned in *. unfold sendMessage in *. cbv zeta in *.
    destruct (post _); simpl in *.
    + exists ({| role := "user"; content := message |}
              :: {| role := "assistant"; content := a |} :: more).
      split; [rewrite <- !app_assoc; reflexivity|].
      simpl. rewrite Hlen. lia.
    + exists ({| role := "user"; content := message |} :: more).
      split; [rewrite <- !app_assoc; reflexivity|].
      simpl. rewrite Hlen. lia.
Qed.

(** X20. On a chat that has a history the message of a send is written
    as a message of the user, whatever its text: the prompt of the send
    is the text for the history, then the message under the role user,
    then the header of the assistant. *)
Theorem prompt_of_a_send h message :
  h <> [] ->
  fullPrompt (h ++ [{| role := "user"; content := message |}])%list
  = forEach 0 h "<|begin_of_text|>"
    ++ header "user" ++ message ++ "<|eot_id|>" ++ header "assistant".
Proof.
  intros Hne. unfold fullPrompt. rewrite forEach_snoc.
  destruct h as [|m h]; [contradiction|]. simpl length.
  unfold render. simpl Nat.eqb. cbv iota. simpl andb. cbv iota.
  cbn [role content]. rewrite !string_app_assoc. reflexivity.
Qed.

Lemma prompt_of_a_send_witness :
  fullPrompt (greeting ++ [{| role := "user"; content := "hi" |}])%list
  = forEach 0 greeting "<|begin_of_text|>"
    ++ header "user" ++ "hi" ++ "<|eot_id|>" ++ header "assistant".
Proof.
  exact (prompt_of_a_send greeting "hi" ltac:(discriminate)).
Defined.

(** X21. A first message of the user that has the words [You are Monocle
    AI] in it is written as the system prompt. *)
Theorem first_message_becomes_the_system_prompt first rest pre post :
  role first = "user" ->
  content first = pre ++ "You are Monocle AI" ++ post ->
  fullPrompt (first :: rest)
  = forEach 1 rest
      ("<|begin_of_text|>" ++ header "system" ++ content first ++ "<|eot_id|>")
    ++ header "assistant".
Proof.
  intros Hr Hc. unfold fullPrompt. simpl forEach. unfold render.
  rewrite Hr, Hc, includes_app. reflexivity.
Qed.

Lemma first_message_becomes_the_system_prompt_witness :
  fullPrompt greeting
  = forEach 1 [{| role := "assistant"; content := "Understood." |}]
      ("<|begin_of_text|>" ++ header "system"
       ++ "Hello. You are Monocle AI, an assistant." ++ "<|eot_id|>")
    ++ header "assistant".
Proof.
  exact (first_message_becomes_the_system_prompt
           {| role := "user";
              content := "Hello. You are Monocle AI, an assistant." |}
           [{| role := "assistant"; content := "Understood." |}]
           "Hello. " ", an assistant." eq_refl eq_refl).
Defined.

End OllamaFacts.
